(** * Dispatch and execution core of the asynchronous job engine

    A shallow embedding of the executor ([app/workers/executor.py]), the
    retry scheduler ([app/workers/manager.py]), the Redis-backed priority
    queue ([app/redis_client.py]) and the cancel / retry / submit operations
    ([app/api/jobs.py]) over the job model ([app/models/job.py]).

    Conventions of the embedding.
    - The [jobs] table is a finite map from job id to row; the ORM object an
      operation holds is the row itself, and [commit] writes it back.
    - [datetime] values are rational numbers of seconds ([Q]); [float]
      durations and back-off delays are rationals as well, so the binary64
      and microsecond roundings of the interpreter are not represented
      (they are exact for the default base 2.0 and attempts up to 20).
    - Python [int] columns are unbounded integers ([Z]).
    - Every reading of the wall clock is an explicit argument.
    - [await] points are sequenced in program order; one call of an
      operation is one step of the model. *)

From Stdlib Require Import QArith.
From stdpp Require Import gmap strings list fin_maps pretty sorting.

Local Open Scope Z_scope.
Local Open Scope string_scope.

(** ** app/models/job.py *)

Inductive JobStatus : Set :=
  | PENDING | QUEUED | RUNNING | COMPLETED | FAILED | RETRYING | CANCELLED.

#[global] Instance JobStatus_eq_dec : EqDecision JobStatus.
Proof. solve_decision. Defined.

(** [JobStatus.value]: the string each member was declared with. *)
Definition JobStatus_value (s : JobStatus) : string :=
  match s with
  | PENDING => "pending"
  | QUEUED => "queued"
  | RUNNING => "running"
  | COMPLETED => "completed"
  | FAILED => "failed"
  | RETRYING => "retrying"
  | CANCELLED => "cancelled"
  end.

Inductive JobType : Set := EMAIL | AI_TASK | DATA_CLEANING.

#[global] Instance JobType_eq_dec : EqDecision JobType.
Proof. solve_decision. Defined.

(** [JobPriority]: the named priority levels. *)
Inductive JobPriority : Set := LOW | NORMAL | HIGH | CRITICAL.

Definition JobPriority_value (p : JobPriority) : Z :=
  match p with LOW => 0 | NORMAL => 5 | HIGH => 10 | CRITICAL => 20 end.

(** JSON documents: the [payload] and [result] columns and the data of
    published events. *)
#[local] Unset Elimination Schemes.
Inductive json : Type :=
  | JNull
  | JBool (b : bool)
  | JInt (n : Z)
  | JFloat (q : Q)
  | JStr (s : string)
  | JList (l : list json)
  | JDict (d : list (string * json)).
#[local] Set Elimination Schemes.

Abbreviation dict := (list (string * json)).

(** Job ids are 128-bit UUIDs. Their canonical text form [str(job.id)] is an
    injective encoding, so the Redis members are keyed by the id itself. *)
Abbreviation uuid := N.
Abbreviation datetime := Q.

(** [str(job.id)] where the text itself is stored (event data). The decimal
    rendering stands for the canonical hexadecimal one; both are injective. *)
Definition uuid_str (u : uuid) : string := pretty u.

Module Job.

Record t : Type := mk {
  id : uuid;
  name : string;
  job_type : JobType;
  status : JobStatus;
  priority : Z;
  payload : dict;
  result : option dict;
  error_message : option string;
  attempt : Z;
  max_retries : Z;
  next_retry_at : option datetime;
  created_at : datetime;
  scheduled_at : option datetime;
  started_at : option datetime;
  completed_at : option datetime;
  duration_seconds : option Q;
  created_by : option string;
  worker_id : option string
}.

(** Attribute assignments [job.<column> = v], one per column the core writes. *)

Definition set_status (v : JobStatus) (j : t) : t :=
  mk (id j) (name j) (job_type j) v (priority j) (payload j) (result j)
     (error_message j) (attempt j) (max_retries j) (next_retry_at j)
     (created_at j) (scheduled_at j) (started_at j) (completed_at j)
     (duration_seconds j) (created_by j) (worker_id j).

Definition set_result (v : option dict) (j : t) : t :=
  mk (id j) (name j) (job_type j) (status j) (priority j) (payload j) v
     (error_message j) (attempt j) (max_retries j) (next_retry_at j)
     (created_at j) (scheduled_at j) (started_at j) (completed_at j)
     (duration_seconds j) (created_by j) (worker_id j).

Definition set_error_message (v : option string) (j : t) : t :=
  mk (id j) (name j) (job_type j) (status j) (priority j) (payload j) (result j)
     v (attempt j) (max_retries j) (next_retry_at j)
     (created_at j) (scheduled_at j) (started_at j) (completed_at j)
     (duration_seconds j) (created_by j) (worker_id j).

Definition set_attempt (v : Z) (j : t) : t :=
  mk (id j) (name j) (job_type j) (status j) (priority j) (payload j) (result j)
     (error_message j) v (max_retries j) (next_retry_at j)
     (created_at j) (scheduled_at j) (started_at j) (completed_at j)
     (duration_seconds j) (created_by j) (worker_id j).

Definition set_next_retry_at (v : option datetime) (j : t) : t :=
  mk (id j) (name j) (job_type j) (status j) (priority j) (payload j) (result j)
     (error_message j) (attempt j) (max_retries j) v
     (created_at j) (scheduled_at j) (started_at j) (completed_at j)
     (duration_seconds j) (created_by j) (worker_id j).

Definition set_started_at (v : option datetime) (j : t) : t :=
  mk (id j) (name j) (job_type j) (status j) (priority j) (payload j) (result j)
     (error_message j) (attempt j) (max_retries j) (next_retry_at j)
     (created_at j) (scheduled_at j) v (completed_at j)
     (duration_seconds j) (created_by j) (worker_id j).

Definition set_completed_at (v : option datetime) (j : t) : t :=
  mk (id j) (name j) (job_type j) (status j) (priority j) (payload j) (result j)
     (error_message j) (attempt j) (max_retries j) (next_retry_at j)
     (created_at j) (scheduled_at j) (started_at j) v
     (duration_seconds j) (created_by j) (worker_id j).

Definition set_duration_seconds (v : option Q) (j : t) : t :=
  mk (id j) (name j) (job_type j) (status j) (priority j) (payload j) (result j)
     (error_message j) (attempt j) (max_retries j) (next_retry_at j)
     (created_at j) (scheduled_at j) (started_at j) (completed_at j)
     v (created_by j) (worker_id j).

Definition set_worker_id (v : option string) (j : t) : t :=
  mk (id j) (name j) (job_type j) (status j) (priority j) (payload j) (result j)
     (error_message j) (attempt j) (max_retries j) (next_retry_at j)
     (created_at j) (scheduled_at j) (started_at j) (completed_at j)
     (duration_seconds j) (created_by j) v.

End Job.

(** ** app/config.py *)

Record Settings : Type := {
  USE_REDIS : bool;
  MAX_WORKERS : Z;
  MAX_RETRIES : Z;
  RETRY_BACKOFF_BASE : Q;
  JOB_TIMEOUT_SECONDS : Z
}.

(** The defaults of the [Settings] class. *)
Definition default_settings : Settings :=
  {| USE_REDIS := true;
     MAX_WORKERS := 10;
     MAX_RETRIES := 5;
     RETRY_BACKOFF_BASE := 2%Q;
     JOB_TIMEOUT_SECONDS := 300 |}.

(** ** app/redis_client.py *)

(** The keys of the Redis instance the queue uses: the sorted set
    [job_queue:priority] (member to score), the set [job_queue:processing],
    the hash [job_stats], and the messages published on [job_events]
    (oldest first). *)
Record Redis : Type := {
  QUEUE_KEY : gmap uuid Z;
  PROCESSING_KEY : gset uuid;
  STATS_KEY : gmap string Z;
  job_events : list dict
}.

Module RedisQueue.

(** [zadd]: insert the member, or update its score when present. *)
Definition enqueue (job_id : uuid) (priority : Z) (r : Redis) : Redis :=
  let score := - priority in
  {| QUEUE_KEY := <[job_id := score]> (QUEUE_KEY r);
     PROCESSING_KEY := PROCESSING_KEY r;
     STATS_KEY := STATS_KEY r;
     job_events := job_events r |}.

Definition mark_done (job_id : uuid) (r : Redis) : Redis :=
  {| QUEUE_KEY := QUEUE_KEY r;
     PROCESSING_KEY := PROCESSING_KEY r ∖ {[job_id]};
     STATS_KEY := STATS_KEY r;
     job_events := job_events r |}.

Definition remove (job_id : uuid) (r : Redis) : Redis :=
  {| QUEUE_KEY := delete job_id (QUEUE_KEY r);
     PROCESSING_KEY := PROCESSING_KEY r ∖ {[job_id]};
     STATS_KEY := STATS_KEY r;
     job_events := job_events r |}.

(** A counter of the [job_stats] hash; an absent field counts as 0, as
    [hincrby] takes it. *)
Definition stat (stat_name : string) (r : Redis) : Z :=
  default 0 (STATS_KEY r !! stat_name).

Definition increment_stat (stat_name : string) (amount : Z) (r : Redis) : Redis :=
  {| QUEUE_KEY := QUEUE_KEY r;
     PROCESSING_KEY := PROCESSING_KEY r;
     STATS_KEY := <[stat_name := stat stat_name r + amount]> (STATS_KEY r);
     job_events := job_events r |}.

(** The message is the JSON object [{"event": event_type, **data}]. *)
Definition publish_event (event_type : string) (data : dict) (r : Redis) : Redis :=
  let message := ("event", JStr event_type) :: data in
  {| QUEUE_KEY := QUEUE_KEY r;
     PROCESSING_KEY := PROCESSING_KEY r;
     STATS_KEY := STATS_KEY r;
     job_events := job_events r ++ [message] |}.

Definition queue_length (r : Redis) : nat := size (QUEUE_KEY r).

Definition processing_count (r : Redis) : nat := size (PROCESSING_KEY r).

(** The order of a sorted set: by score, members of equal score by their
    text. The canonical text of a UUID has a fixed width, so its
    lexicographic order is the numeric order of the ids. *)
Definition zless (a b : uuid * Z) : bool :=
  (a.2 <? b.2)%Z || ((a.2 =? b.2)%Z && (a.1 <? b.1)%N).

Definition zfirst (kv : uuid * Z) (best : option (uuid * Z)) : option (uuid * Z) :=
  match best with
  | None => Some kv
  | Some b => if zless kv b then Some kv else Some b
  end.

(** [zpopmin key count=1]: the entry of lowest score, removed from the set,
    or the empty list. *)
Definition zpopmin (q : gmap uuid Z) : list (uuid * Z) * gmap uuid Z :=
  match foldr zfirst None (map_to_list q) with
  | Some (member, score) => ([(member, score)], delete member q)
  | None => ([], q)
  end.

Definition dequeue (r : Redis) : option uuid * Redis :=
  let (result, q) := zpopmin (QUEUE_KEY r) in
  match result with
  | (job_id, _score) :: _ =>
      (Some job_id,
       {| QUEUE_KEY := q;
          PROCESSING_KEY := {[job_id]} ∪ PROCESSING_KEY r;
          STATS_KEY := STATS_KEY r;
          job_events := job_events r |})
  | [] =>
      (None,
       {| QUEUE_KEY := q;
          PROCESSING_KEY := PROCESSING_KEY r;
          STATS_KEY := STATS_KEY r;
          job_events := job_events r |})
  end.

(** [hgetall]: the whole hash of counters. *)
Definition get_stats (r : Redis) : gmap string Z := STATS_KEY r.

End RedisQueue.

(** ** The shared state: the durable store and the queue backend *)

Record State : Type := {
  db : gmap uuid Job.t;
  redis : Redis
}.

(** [db.commit()] after attribute assignments on [job]: the row of the
    job's id now holds the object. *)
Definition commit (job : Job.t) (s : State) : State :=
  {| db := <[Job.id job := job]> (db s); redis := redis s |}.

(** What a handler awaited under [asyncio.wait_for] comes to: a result
    document, an exception caught by [except Exception] with its [str], or
    [asyncio.TimeoutError] when there is no answer within
    [JOB_TIMEOUT_SECONDS]. *)
Inductive Outcome : Type :=
  | Returned (result : dict)
  | Raised (error : string)
  | TimedOut.

Abbreviation Handler := (dict -> Outcome).

(** The statuses the claim query filters on. *)
Definition claimable (st : JobStatus) : bool :=
  match st with
  | PENDING | QUEUED | RETRYING => true
  | _ => false
  end.

(** ** app/schemas/job.py *)

Module JobCreate.

Record t : Type := mk {
  name : string;
  job_type : JobType;
  priority : Z;
  payload : dict;
  max_retries : Z;
  scheduled_at : option datetime
}.

(** The [Field] constraints the request body is validated against. *)
Definition valid (data : t) : Prop :=
  (1 <= String.length (name data) <= 255)%nat
  /\ 0 <= priority data <= 20
  /\ 0 <= max_retries data <= 20.

End JobCreate.

(** What an endpoint of [app/api/jobs.py] comes to: the job it returns,
    with the state after it, or the [HTTPException] it raises, which leaves
    the state as it was. *)
Inductive Response : Type :=
  | Ok (job : Job.t) (s : State)
  | HTTPException (status_code : Z) (detail : string).

Definition state_after (s : State) (r : Response) : State :=
  match r with
  | Ok _ s' => s'
  | HTTPException _ _ => s
  end.

(** Python's [x or d] on an optional integer: [d] when [x] is [None] or 0. *)
Definition py_or (x : option Z) (d : Z) : Z :=
  match x with
  | Some v => if decide (v = 0) then d else v
  | None => d
  end.

(** ** app/models/user.py and app/auth/dependencies.py *)

Inductive UserRole : Set := ADMIN | OPERATOR | VIEWER.

#[global] Instance UserRole_eq_dec : EqDecision UserRole.
Proof. solve_decision. Defined.

Definition UserRole_value (r : UserRole) : string :=
  match r with
  | ADMIN => "admin"
  | OPERATOR => "operator"
  | VIEWER => "viewer"
  end.

Module User.

Record t : Type := mk {
  id : uuid;
  username : string;
  email : string;
  hashed_password : string;
  role : UserRole;
  is_active : bool;
  created_at : datetime
}.

End User.

(** What a dependency of an endpoint comes to: the user it lets through, or
    the [HTTPException] it raises, in which case the endpoint is not run. *)
Inductive Depends : Type :=
  | Passes (user : User.t)
  | Raises (status_code : Z) (detail : string).

(** The class attribute [_role_hierarchy], as the dictionary it is. *)
Definition _role_hierarchy : list (UserRole * Z) :=
  [(VIEWER, 0); (OPERATOR, 1); (ADMIN, 2)].

(** [dict.get(key, default)] on such a dictionary. *)
Definition dict_get (d : list (UserRole * Z)) (key : UserRole) (default : Z) : Z :=
  match List.find (fun kv => bool_decide (kv.1 = key)) d with
  | Some kv => kv.2
  | None => default
  end.

(** [RoleRequired(minimum_role).__call__(user)]. *)
Definition RoleRequired (minimum_role : UserRole) (user : User.t) : Depends :=
  let user_level := dict_get _role_hierarchy (User.role user) 0 in
  let required_level := dict_get _role_hierarchy minimum_role 0 in
  if (user_level <? required_level)%Z
  then Raises 403 ("Role '" ++ UserRole_value minimum_role ++ "' or higher required")
  else Passes user.

(** The clock readings one [execute] call takes: in [_claim_job], in the
    function that records the outcome, and in [_handle_failure] when
    [_complete_job] itself raised. *)
Record Clock : Type := {
  at_claim : datetime;
  at_outcome : datetime;
  at_recovery : datetime
}.

Section Engine.

Variable settings : Settings.

(** [HANDLER_MAP.get]: the handler registered for a job type, if any. *)
Variable HANDLER_MAP : JobType -> option Handler.

(** How an f-string renders a [JobType] member (the member's value or its
    qualified name, depending on the interpreter version). *)
Variable format_JobType : JobType -> string.

(** [r = await get_redis(); if r: ...]: the block runs on the Redis state
    exactly when [USE_REDIS] is set. *)
Definition if_redis (block : Redis -> Redis) (s : State) : State :=
  if USE_REDIS settings
  then {| db := db s; redis := block (redis s) |}
  else s.

(** ** app/workers/executor.py, class [JobExecutor] *)

(** Every method takes [self.worker_id] as [self]. [locked] is the set of
    rows other transactions hold locked when the claim query runs. *)

(** [SELECT ... WHERE id = job_id AND status IN (PENDING, QUEUED, RETRYING)
    FOR UPDATE SKIP LOCKED], then [scalar_one_or_none]. *)
Definition select_claimable (locked : gset uuid) (job_id : uuid) (s : State)
  : option Job.t :=
  match db s !! job_id with
  | Some job =>
      if claimable (Job.status job) && bool_decide (job_id ∉ locked)
      then Some job else None
  | None => None
  end.

Definition _claim_job (self : string) (locked : gset uuid) (now : datetime)
    (job_id : uuid) (s : State) : option Job.t * State :=
  match select_claimable locked job_id s with
  | None => (None, s)
  | Some job =>
      let job := Job.set_status RUNNING job in
      let job := Job.set_started_at (Some now) job in
      let job := Job.set_attempt (Job.attempt job + 1) job in
      let job := Job.set_worker_id (Some self) job in
      (Some job, commit job s)
  end.

(** The job object after the assignments, the state after the commit and
    the Redis block, and the [str] of the exception when the call raised:
    formatting [duration] with [.2f] for the log line raises [TypeError]
    when it is [None], after the commit and before the Redis block. *)
Definition _complete_job (now : datetime) (job : Job.t) (result : dict)
    (s : State) : Job.t * State * option string :=
  let duration :=
    match Job.started_at job with
    | Some started => Some (now - started)%Q
    | None => None
    end in
  let job := Job.set_status COMPLETED job in
  let job := Job.set_result (Some result) job in
  let job := Job.set_completed_at (Some now) job in
  let job := Job.set_duration_seconds duration job in
  let job := Job.set_error_message None job in
  let s := commit job s in
  match duration with
  | None =>
      (job, s, Some "unsupported format string passed to NoneType.__format__")
  | Some d =>
      (job,
       if_redis (fun r =>
         let r := RedisQueue.mark_done (Job.id job) r in
         let r := RedisQueue.increment_stat "completed" 1 r in
         RedisQueue.publish_event "job_completed"
           [("job_id", JStr (uuid_str (Job.id job))); ("duration", JFloat d)] r) s,
       None)
  end.

Definition _fail_job (now : datetime) (job : Job.t) (error : string)
    (s : State) : Job.t * State :=
  let job := Job.set_status FAILED job in
  let job := Job.set_error_message (Some error) job in
  let job := Job.set_completed_at (Some now) job in
  let job :=
    match Job.started_at job with
    | Some started => Job.set_duration_seconds (Some (now - started)%Q) job
    | None => job
    end in
  let s := commit job s in
  (job,
   if_redis (fun r =>
     let r := RedisQueue.mark_done (Job.id job) r in
     let r := RedisQueue.increment_stat "failed" 1 r in
     RedisQueue.publish_event "job_failed"
       [("job_id", JStr (uuid_str (Job.id job))); ("error", JStr error)] r) s).

(** [settings.RETRY_BACKOFF_BASE ** job.attempt], in seconds. *)
Definition backoff (attempt : Z) : Q := (RETRY_BACKOFF_BASE settings ^ attempt)%Q.

Definition _handle_failure (now : datetime) (job : Job.t) (error : string)
    (s : State) : Job.t * State :=
  if (Job.attempt job <? Job.max_retries job)%Z then
    let job := Job.set_status RETRYING job in
    let job := Job.set_next_retry_at (Some (now + backoff (Job.attempt job))%Q) job in
    let job := Job.set_error_message
      (Some ("Attempt " ++ pretty (Job.attempt job) ++ " failed: " ++ error)) job in
    let s := commit job s in
    (job,
     if_redis (fun r =>
       let r := RedisQueue.mark_done (Job.id job) r in
       RedisQueue.increment_stat "retries" 1 r) s)
  else _fail_job now job error s.

Definition execute (self : string) (locked : gset uuid) (clock : Clock)
    (job_id : uuid) (s : State) : bool * State :=
  match _claim_job self locked (at_claim clock) job_id s with
  | (None, s) => (false, s)
  | (Some job, s) =>
      match HANDLER_MAP (Job.job_type job) with
      | None =>
          (false,
           snd (_fail_job (at_outcome clock) job
                  ("No handler for type: " ++ format_JobType (Job.job_type job)) s))
      | Some handler =>
          match handler (Job.payload job) with
          | Returned result =>
              match _complete_job (at_outcome clock) job result s with
              | (_, s, None) => (true, s)
              | (job, s, Some e) =>
                  (false, snd (_handle_failure (at_recovery clock) job e s))
              end
          | TimedOut =>
              (false,
               snd (_handle_failure (at_outcome clock) job
                      ("Job timed out after "
                       ++ pretty (JOB_TIMEOUT_SECONDS settings) ++ "s") s))
          | Raised e =>
              (false, snd (_handle_failure (at_outcome clock) job e s))
          end
      end
  end.

(** ** app/workers/manager.py, class [WorkerManager] *)

(** The [WHERE] clause of the sweep; a [NULL] [next_retry_at] compares to
    no instant. *)
Definition retry_due (now : datetime) (job : Job.t) : bool :=
  bool_decide (Job.status job = RETRYING)
  && match Job.next_retry_at job with
     | Some t => Qle_bool t now
     | None => false
     end.

(** The ids the sweep's query returns, at most [MAX_WORKERS] of them. The
    query has no [ORDER BY]; rows come in the order of the map's listing. *)
Definition retry_ids (now : datetime) (s : State) : list uuid :=
  take (Z.to_nat (MAX_WORKERS settings))
       (map_to_list (filter (fun kv => Is_true (retry_due now kv.2)) (db s))).*1.

(** The body of [for jid in retry_ids]. *)
Definition requeue (locked : gset uuid) (s : State) (jid : uuid) : State :=
  if USE_REDIS settings then
    let priority := py_or (Job.priority <$> db s !! jid) 5 in
    {| db := db s; redis := RedisQueue.enqueue jid priority (redis s) |}
  else
    match db s !! jid with
    | Some job_obj =>
        if bool_decide (jid ∉ locked) then
          let job_obj := Job.set_status QUEUED job_obj in
          let job_obj := Job.set_next_retry_at None job_obj in
          commit job_obj s
        else s
    | None => s
    end.

(** One round of [_retry_loop], after its sleep. *)
Definition _retry_loop (locked : gset uuid) (now : datetime) (s : State) : State :=
  foldl (requeue locked) s (retry_ids now s).

(** What the query of the sweep may answer. It has a [LIMIT] and no
    [ORDER BY]: any [MAX_WORKERS] of the due rows, or all of them when fewer
    are due, each once and in any order. [retry_ids] is one such answer. *)
Definition retry_answer (now : datetime) (s : State) (ids : list uuid) : Prop :=
  NoDup ids
  /\ (forall jid, jid ∈ ids ->
        exists job, db s !! jid = Some job /\ retry_due now job = true)
  /\ length ids
     = Nat.min (Z.to_nat (MAX_WORKERS settings))
         (size (filter (fun kv => Is_true (retry_due now kv.2)) (db s))).

(** The loop [for jid in retry_ids] of the sweep, over the answer [ids]. *)
Definition requeue_all (locked : gset uuid) (ids : list uuid) (s : State) : State :=
  foldl (requeue locked) s ids.

(** ** app/api/jobs.py *)

(** The endpoints below are taken once the caller's role has been accepted
    and, for [cancel_job] and [retry_job], once the row lock is granted. *)

(** [new_id] is the [uuid4] default of the [id] column and [now] the
    default of [created_at]. *)
Definition create_job (data : JobCreate.t) (username : string)
    (new_id : uuid) (now : datetime) (s : State) : Job.t * State :=
  let job :=
    Job.mk new_id (JobCreate.name data) (JobCreate.job_type data) QUEUED
      (JobCreate.priority data) (JobCreate.payload data) None None
      0 (JobCreate.max_retries data) None
      now (JobCreate.scheduled_at data) None None None
      (Some username) None in
  let s := commit job s in
  (job,
   if_redis (fun r =>
     let r := RedisQueue.enqueue (Job.id job) (Job.priority job) r in
     RedisQueue.increment_stat "enqueued" 1 r) s).

Definition cancel_job (job_id : uuid) (now : datetime) (s : State) : Response :=
  match db s !! job_id with
  | None => HTTPException 404 "Job not found"
  | Some job =>
      if bool_decide (Job.status job = COMPLETED \/ Job.status job = CANCELLED)
      then HTTPException 400
             ("Cannot cancel job in '" ++ JobStatus_value (Job.status job)
              ++ "' state")
      else
        let job := Job.set_status CANCELLED job in
        let job := Job.set_completed_at (Some now) job in
        let s := commit job s in
        Ok job (if_redis (RedisQueue.remove (Job.id job)) s)
  end.

Definition retry_job (job_id : uuid) (s : State) : Response :=
  match db s !! job_id with
  | None => HTTPException 404 "Job not found"
  | Some job =>
      if bool_decide (~ (Job.status job = FAILED \/ Job.status job = CANCELLED))
      then HTTPException 400 "Can only retry failed or cancelled jobs"
      else
        let job := Job.set_status QUEUED job in
        let job := Job.set_attempt 0 job in
        let job := Job.set_error_message None job in
        let job := Job.set_result None job in
        let job := Job.set_started_at None job in
        let job := Job.set_completed_at None job in
        let job := Job.set_duration_seconds None job in
        let job := Job.set_next_retry_at None job in
        let s := commit job s in
        Ok job (if_redis (RedisQueue.enqueue (Job.id job) (Job.priority job)) s)
  end.

(** ** app/workers/manager.py: the pull side *)

(** The [WHERE] clause of the store fallback, with [SKIP LOCKED]. *)
Definition dispatchable (locked : gset uuid) (now : datetime)
    (kv : uuid * Job.t) : bool :=
  (bool_decide (Job.status kv.2 = PENDING) || bool_decide (Job.status kv.2 = QUEUED))
  && match Job.scheduled_at kv.2 with
     | Some t => Qle_bool t now
     | None => true
     end
  && bool_decide (kv.1 ∉ locked).

(** [ORDER BY priority DESC, created_at ASC]: whether row [a] sorts strictly
    before row [b]. *)
Definition dispatch_before (a b : uuid * Job.t) : bool :=
  (Job.priority b.2 <? Job.priority a.2)%Z
  || ((Job.priority a.2 =? Job.priority b.2)%Z
      && negb (Qle_bool (Job.created_at b.2) (Job.created_at a.2))).

Definition dispatch_first (kv : uuid * Job.t) (best : option (uuid * Job.t))
  : option (uuid * Job.t) :=
  match best with
  | None => Some kv
  | Some b => if dispatch_before kv b then Some kv else Some b
  end.

(** The fallback query with [LIMIT 1] and [result.first()]. Among rows equal
    in priority and [created_at] the listing of the map decides. *)
Definition select_dispatchable (locked : gset uuid) (now : datetime) (s : State)
  : option uuid :=
  fst <$> foldr dispatch_first None
            (filter (fun kv => Is_true (dispatchable locked now kv))
                    (map_to_list (db s))).

(** Redis first, then the store. The fallback reads only. *)
Definition _dequeue_job (locked : gset uuid) (now : datetime) (s : State)
  : option uuid * State :=
  if USE_REDIS settings then
    match RedisQueue.dequeue (redis s) with
    | (Some job_id_str, r) => (Some job_id_str, {| db := db s; redis := r |})
    | (None, r) =>
        let s := {| db := db s; redis := r |} in
        (select_dispatchable locked now s, s)
    end
  else (select_dispatchable locked now s, s).

(** [worker_id] is the name made up for the executor of this run. *)
Definition _run_job (worker_id : string) (locked : gset uuid) (clock : Clock)
    (job_id : uuid) (s : State) : State :=
  snd (execute worker_id locked clock job_id s).

(** One round of [_poll_loop], the task it creates run to its end before the
    next round; an empty round only sleeps. *)
Definition _poll_loop (worker_id : string) (locked : gset uuid) (now : datetime)
    (clock : Clock) (s : State) : State :=
  match _dequeue_job locked now s with
  | (Some job_id, s) => _run_job worker_id locked clock job_id s
  | (None, s) => s
  end.

(** ** app/api/jobs.py: submission in bulk and the role checks *)

(** The row [Job(...)] builds for a request, once flushed: [new_id] and
    [now] are the column defaults of [id] and [created_at]. *)
Definition new_job (data : JobCreate.t) (username : string) (new_id : uuid)
    (now : datetime) : Job.t :=
  Job.mk new_id (JobCreate.name data) (JobCreate.job_type data) QUEUED
    (JobCreate.priority data) (JobCreate.payload data) None None
    0 (JobCreate.max_retries data) None
    now (JobCreate.scheduled_at data) None None None
    (Some username) None.

(** [defaults] holds, request by request, the id and the [created_at] the
    flush gives the row. One [enqueued] increment for the whole list. *)
Definition create_bulk_jobs (items : list JobCreate.t) (username : string)
    (defaults : list (uuid * datetime)) (s : State) : list Job.t * State :=
  let jobs :=
    zip_with (fun item d => new_job item username d.1 d.2) items defaults in
  let s := foldl (fun s job => commit job s) s jobs in
  (jobs,
   if_redis (fun r =>
     let r := foldl (fun r j => RedisQueue.enqueue (Job.id j) (Job.priority j) r)
                r jobs in
     RedisQueue.increment_stat "enqueued" (Z.of_nat (length jobs)) r) s).

Definition get_job (job_id : uuid) (s : State) : Response :=
  match db s !! job_id with
  | None => HTTPException 404 "Job not found"
  | Some job => Ok job s
  end.

(** The endpoints with their [RoleRequired(UserRole.OPERATOR)] dependency,
    [user] being the caller [get_current_user] has identified. *)
Definition create_job_as (user : User.t) (data : JobCreate.t) (new_id : uuid)
    (now : datetime) (s : State) : Response :=
  match RoleRequired OPERATOR user with
  | Passes user =>
      let (job, s) := create_job data (User.username user) new_id now s in
      Ok job s
  | Raises status_code detail => HTTPException status_code detail
  end.

Definition create_bulk_jobs_as (user : User.t) (items : list JobCreate.t)
    (defaults : list (uuid * datetime)) (s : State)
  : (list Job.t * State) + (Z * string) :=
  match RoleRequired OPERATOR user with
  | Passes user => inl (create_bulk_jobs items (User.username user) defaults s)
  | Raises status_code detail => inr (status_code, detail)
  end.

Definition cancel_job_as (user : User.t) (job_id : uuid) (now : datetime)
    (s : State) : Response :=
  match RoleRequired OPERATOR user with
  | Passes _ => cancel_job job_id now s
  | Raises status_code detail => HTTPException status_code detail
  end.

Definition retry_job_as (user : User.t) (job_id : uuid) (s : State) : Response :=
  match RoleRequired OPERATOR user with
  | Passes _ => retry_job job_id s
  | Raises status_code detail => HTTPException status_code detail
  end.

End Engine.

(** ** Well-formed stores and runs *)

(** The columns of the [jobs] table, and what it means for an operation to
    have written no column outside a given list. *)
Inductive Column : Set :=
  | c_id | c_name | c_job_type | c_status | c_priority | c_payload | c_result
  | c_error_message | c_attempt | c_max_retries | c_next_retry_at
  | c_created_at | c_scheduled_at | c_started_at | c_completed_at
  | c_duration_seconds | c_created_by | c_worker_id.

#[global] Instance Column_eq_dec : EqDecision Column.
Proof. solve_decision. Defined.

Definition same_column (c : Column) (j j' : Job.t) : Prop :=
  match c with
  | c_id => Job.id j' = Job.id j
  | c_name => Job.name j' = Job.name j
  | c_job_type => Job.job_type j' = Job.job_type j
  | c_status => Job.status j' = Job.status j
  | c_priority => Job.priority j' = Job.priority j
  | c_payload => Job.payload j' = Job.payload j
  | c_result => Job.result j' = Job.result j
  | c_error_message => Job.error_message j' = Job.error_message j
  | c_attempt => Job.attempt j' = Job.attempt j
  | c_max_retries => Job.max_retries j' = Job.max_retries j
  | c_next_retry_at => Job.next_retry_at j' = Job.next_retry_at j
  | c_created_at => Job.created_at j' = Job.created_at j
  | c_scheduled_at => Job.scheduled_at j' = Job.scheduled_at j
  | c_started_at => Job.started_at j' = Job.started_at j
  | c_completed_at => Job.completed_at j' = Job.completed_at j
  | c_duration_seconds => Job.duration_seconds j' = Job.duration_seconds j
  | c_created_by => Job.created_by j' = Job.created_by j
  | c_worker_id => Job.worker_id j' = Job.worker_id j
  end.

Definition written_only (written : list Column) (j j' : Job.t) : Prop :=
  forall c, c ∉ written -> same_column c j j'.

(** The row the retry sweep leaves when it promotes [job] in the store. *)
Definition requeued (job : Job.t) : Job.t :=
  Job.set_next_retry_at None (Job.set_status QUEUED job).

(** The job object a successful [_claim_job] returns for the row [job]. *)
Definition claimed (self : string) (now : datetime) (job : Job.t) : Job.t :=
  Job.set_worker_id (Some self)
    (Job.set_attempt (Job.attempt job + 1)
       (Job.set_started_at (Some now)
          (Job.set_status RUNNING job))).

(** The error text [execute] hands to [_handle_failure] for an outcome of
    the awaited handler: the [str] of the exception, or the time-out line. *)
Definition failure_error (settings : Settings) (o : Outcome) : option string :=
  match o with
  | Returned _ => None
  | Raised e => Some e
  | TimedOut =>
      Some ("Job timed out after " ++ pretty (JOB_TIMEOUT_SECONDS settings) ++ "s")
  end.

(** Every row is filed under its own primary key. *)
Definition wf_db (s : State) : Prop :=
  map_Forall (fun k job => Job.id job = k) (db s).

(** [execute] called [n] times in a row for the same id, as the dispatcher
    does when the id is handed out again; [clocks k] holds the clock
    readings of the [k]-th call. *)
Fixpoint executions (settings : Settings)
    (HANDLER_MAP : JobType -> option Handler)
    (format_JobType : JobType -> string)
    (self : string) (clocks : nat -> Clock) (job_id : uuid)
    (n : nat) (s : State) : State :=
  match n with
  | O => s
  | S k =>
      snd (execute settings HANDLER_MAP format_JobType self ∅ (clocks n) job_id
             (executions settings HANDLER_MAP format_JobType self clocks job_id k s))
  end.

(** The operations of the core on the store, each acting on the current row
    of the id it is given. *)
Inductive Op : Type :=
  | OpExecute (self : string) (locked : gset uuid) (clock : Clock) (job_id : uuid)
  | OpClaim (self : string) (locked : gset uuid) (now : datetime) (job_id : uuid)
  | OpComplete (now : datetime) (job_id : uuid) (result : dict)
  | OpFailure (now : datetime) (job_id : uuid) (error : string)
  | OpFail (now : datetime) (job_id : uuid) (error : string)
  | OpRetrySweep (locked : gset uuid) (now : datetime)
  | OpCancel (job_id : uuid) (now : datetime)
  | OpRetry (job_id : uuid).

Definition on_row (job_id : uuid) (f : Job.t -> State -> State) (s : State) : State :=
  match db s !! job_id with
  | Some job => f job s
  | None => s
  end.

Definition apply_op (settings : Settings)
    (HANDLER_MAP : JobType -> option Handler)
    (format_JobType : JobType -> string) (op : Op) (s : State) : State :=
  match op with
  | OpExecute self locked clock job_id =>
      snd (execute settings HANDLER_MAP format_JobType self locked clock job_id s)
  | OpClaim self locked now job_id =>
      snd (_claim_job self locked now job_id s)
  | OpComplete now job_id result =>
      on_row job_id (fun job s => snd (fst (_complete_job settings now job result s))) s
  | OpFailure now job_id error =>
      on_row job_id (fun job s => snd (_handle_failure settings now job error s)) s
  | OpFail now job_id error =>
      on_row job_id (fun job s => snd (_fail_job settings now job error s)) s
  | OpRetrySweep locked now => _retry_loop settings locked now s
  | OpCancel job_id now => state_after s (cancel_job settings job_id now s)
  | OpRetry job_id => state_after s (retry_job settings job_id s)
  end.

(** ** app/api/jobs.py: statistics *)

Module JobStats.

Record t : Type := mk {
  total_jobs : Z;
  pending : Z;
  queued : Z;
  running : Z;
  completed : Z;
  failed : Z;
  retrying : Z;
  cancelled : Z;
  avg_duration_seconds : option Q;
  success_rate : option Q;
  jobs_last_hour : Z;
  jobs_last_24h : Z
}.

End JobStats.

(** The rows of the [jobs] table. *)
Definition rows (s : State) : list Job.t := (map_to_list (db s)).*2.

(** [SELECT count(id) ... WHERE status = st]. *)
Definition count_status (st : JobStatus) (s : State) : Z :=
  Z.of_nat (length (filter (fun j => Job.status j = st) (rows s))).

Definition all_statuses : list JobStatus :=
  [PENDING; QUEUED; RUNNING; COMPLETED; FAILED; RETRYING; CANCELLED].

(** [SELECT status, count(id) ... GROUP BY status], as the dictionary built
    from it: one entry per status that has a row. *)
Definition status_counts (s : State) : list (JobStatus * Z) :=
  filter (fun kv => 0 < kv.2)
         ((fun st => (st, count_status st s)) <$> all_statuses).

(** [status_counts.get(st, 0)]. *)
Definition counts_get (d : list (JobStatus * Z)) (st : JobStatus) : Z :=
  match List.find (fun kv => bool_decide (kv.1 = st)) d with
  | Some kv => kv.2
  | None => 0
  end.

(** [sum(status_counts.values())]. *)
Definition counts_sum (d : list (JobStatus * Z)) : Z :=
  foldr (fun kv acc => kv.2 + acc) 0 d.

(** [SELECT avg(duration_seconds) ... WHERE status = COMPLETED]: the mean of
    the durations that are not null, null when there is none. *)
Definition avg_completed_duration (s : State) : option Q :=
  let durations :=
    omap (fun j => if bool_decide (Job.status j = COMPLETED)
                   then Job.duration_seconds j else None) (rows s) in
  match durations with
  | [] => None
  | _ => Some (foldr Qplus 0%Q durations / inject_Z (Z.of_nat (length durations)))%Q
  end.

(** [SELECT count(id) ... WHERE created_at >= since]. *)
Definition count_created_since (since : datetime) (s : State) : Z :=
  Z.of_nat (length (filter (fun j => Is_true (Qle_bool since (Job.created_at j)))
                           (rows s))).

(** The truth value of a [float]. *)
Definition float_truthy (x : Q) : bool := negb (Qeq_bool x 0).

(** [round] is the built-in of that name on floats, which the rationals of
    this model do not reproduce; it is taken as given. *)
Definition get_job_stats (round : Q -> Z -> Q) (now : datetime) (s : State)
  : JobStats.t :=
  let status_counts := status_counts s in
  let total := counts_sum status_counts in
  let avg_duration := avg_completed_duration s in
  let completed := counts_get status_counts COMPLETED in
  let failed := counts_get status_counts FAILED in
  let finished := completed + failed in
  let success_rate :=
    if (0 <? finished)%Z
    then Some (inject_Z completed / inject_Z finished * 100)%Q
    else None in
  let jobs_1h := count_created_since (now - 3600)%Q s in
  let jobs_24h := count_created_since (now - 86400)%Q s in
  JobStats.mk
    total
    (counts_get status_counts PENDING)
    (counts_get status_counts QUEUED)
    (counts_get status_counts RUNNING)
    completed
    failed
    (counts_get status_counts RETRYING)
    (counts_get status_counts CANCELLED)
    (match avg_duration with
     | Some a => if float_truthy a then Some (round a 3) else None
     | None => None
     end)
    (match success_rate with
     | Some r => if float_truthy r then Some (round r 2) else None
     | None => None
     end)
    jobs_1h
    jobs_24h.

(** ** app/api/jobs.py: listing *)

Module JobListResponse.

Record t : Type := mk {
  jobs : list Job.t;
  total : Z;
  page : Z;
  page_size : Z
}.

End JobListResponse.

(** The [WHERE] clauses [list_jobs] adds for the filters it is given. *)
Definition list_filter (status : option JobStatus) (job_type : option JobType)
    (j : Job.t) : Prop :=
  match status with Some st => Job.status j = st | None => True end
  /\ match job_type with Some t => Job.job_type j = t | None => True end.

#[global] Instance list_filter_dec status job_type j :
  Decision (list_filter status job_type j).
Proof. unfold list_filter. destruct status, job_type; apply _. Defined.

(** [ORDER BY created_at DESC]: [a] may come before [b]. *)
Definition newest_first (a b : Job.t) : Prop :=
  Is_true (Qle_bool (Job.created_at b) (Job.created_at a)).

#[global] Instance newest_first_dec : RelDecision newest_first.
Proof. intros a b. unfold newest_first. apply _. Defined.

(** [ORDER BY created_at DESC], [OFFSET] and [LIMIT] as a stable sort of the
    matching rows, a [drop] and a [take]. Rows of equal [created_at] come in
    the order the sort leaves them, the same on every call; a database may
    order them differently from one query to the next. *)
Definition list_jobs (status : option JobStatus) (job_type : option JobType)
    (page page_size : Z) (s : State) : JobListResponse.t :=
  let matching := filter (list_filter status job_type) (rows s) in
  let total := Z.of_nat (length matching) in
  let query := merge_sort newest_first matching in
  let query := drop (Z.to_nat ((page - 1) * page_size)) query in
  let query := take (Z.to_nat page_size) query in
  JobListResponse.mk query total page page_size.

(** ** app/workers/manager.py: the worker pool *)

(** The part of a [WorkerManager] that bounds the pool: the value of its
    semaphore and the set of tasks it has created and not yet seen done.
    Tasks are told apart by a number. *)
Module WorkerManager.

Record t : Type := mk {
  semaphore : Z;
  _active_tasks : gset nat
}.

(** [__init__]: [asyncio.Semaphore(settings.MAX_WORKERS)], no task yet. *)
Definition __init__ (settings : Settings) : t :=
  mk (MAX_WORKERS settings) ∅.

(** [await self.semaphore.acquire()], then the task is created and added to
    the active set. [None]: no permit is free and the loop waits here. *)
Definition spawn (task : nat) (self : t) : option t :=
  if (0 <? semaphore self)%Z
  then Some (mk (semaphore self - 1) ({[task]} ∪ _active_tasks self))
  else None.

(** The done-callback of a task: discard it and release its permit. *)
Definition _task_done (task : nat) (self : t) : t :=
  mk (semaphore self + 1) (_active_tasks self ∖ {[task]}).

(** The pools reached from a fresh manager: the poll loop spawns a task
    that is new, and a task that was spawned is done once. *)
Inductive reachable (settings : Settings) : t -> Prop :=
  | reachable_init :
      0 <= MAX_WORKERS settings -> reachable settings (__init__ settings)
  | reachable_spawn self self' task :
      reachable settings self ->
      task ∉ _active_tasks self ->
      spawn task self = Some self' ->
      reachable settings self'
  | reachable_done self task :
      reachable settings self ->
      task ∈ _active_tasks self ->
      reachable settings (_task_done task self).

End WorkerManager.

(** ** States the system can be in *)

Definition terminal (st : JobStatus) : bool :=
  match st with
  | COMPLETED | FAILED | CANCELLED => true
  | _ => false
  end.

(** What holds of every row: the timestamps each status comes with, a
    result only on completed jobs, and the bounds of the attempt counter. *)
Definition job_ok (j : Job.t) : Prop :=
  (terminal (Job.status j) = true -> is_Some (Job.completed_at j))
  /\ (Job.status j = RUNNING ->
      is_Some (Job.started_at j) /\ is_Some (Job.worker_id j))
  /\ (Job.status j = RETRYING ->
      is_Some (Job.next_retry_at j) /\ 1 <= Job.attempt j < Job.max_retries j)
  /\ (is_Some (Job.result j) -> Job.status j = COMPLETED)
  /\ (claimable (Job.status j) = true ->
      Job.attempt j = 0 \/ Job.attempt j < Job.max_retries j)
  /\ 0 <= Job.attempt j <= Z.max (Job.max_retries j) 1.

Definition state_ok (s : State) : Prop :=
  wf_db s /\ map_Forall (fun _ j => job_ok j) (db s).

(** The states reached from an empty store by the calls of the API and the
    rounds of the dispatcher and of the retry scheduler, each run to its
    end before the next. [_claim_job] commits on its own, before the
    handler is awaited: a claim alone is the state the store is in while the
    handler runs, and stays in when the worker stops there. The outcome of
    an execution that other operations have overtaken is not among the
    steps. *)
Inductive reachable (settings : Settings)
    (HANDLER_MAP : JobType -> option Handler)
    (format_JobType : JobType -> string) : State -> Prop :=
  | reachable_init (r : Redis) :
      reachable settings HANDLER_MAP format_JobType {| db := ∅; redis := r |}
  | reachable_submit s data username new_id now :
      reachable settings HANDLER_MAP format_JobType s ->
      reachable settings HANDLER_MAP format_JobType
        (snd (create_job settings data username new_id now s))
  | reachable_bulk s items username defaults :
      reachable settings HANDLER_MAP format_JobType s ->
      reachable settings HANDLER_MAP format_JobType
        (snd (create_bulk_jobs settings items username defaults s))
  | reachable_execute s self locked clock job_id :
      reachable settings HANDLER_MAP format_JobType s ->
      reachable settings HANDLER_MAP format_JobType
        (snd (execute settings HANDLER_MAP format_JobType self locked clock
                job_id s))
  | reachable_poll s worker_id locked now clock :
      reachable settings HANDLER_MAP format_JobType s ->
      reachable settings HANDLER_MAP format_JobType
        (_poll_loop settings HANDLER_MAP format_JobType worker_id locked now
           clock s)
  | reachable_sweep s locked now :
      reachable settings HANDLER_MAP format_JobType s ->
      reachable settings HANDLER_MAP format_JobType
        (_retry_loop settings locked now s)
  | reachable_cancel s job_id now :
      reachable settings HANDLER_MAP format_JobType s ->
      reachable settings HANDLER_MAP format_JobType
        (state_after s (cancel_job settings job_id now s))
  | reachable_retry s job_id :
      reachable settings HANDLER_MAP format_JobType s ->
      reachable settings HANDLER_MAP format_JobType
        (state_after s (retry_job settings job_id s))
  | reachable_claim s self locked now job_id :
      reachable settings HANDLER_MAP format_JobType s ->
      reachable settings HANDLER_MAP format_JobType
        (snd (_claim_job self locked now job_id s)).

(** ** Sample data *)

Definition empty_redis : Redis :=
  {| QUEUE_KEY := ∅; PROCESSING_KEY := ∅; STATS_KEY := ∅; job_events := [] |}.

Definition empty_state : State := {| db := ∅; redis := empty_redis |}.

(** A registry with one handler per job type: e-mail jobs succeed unless the
    payload asks for a failure (as [handle_email] does), AI jobs never
    answer in time, and data-cleaning jobs have no handler. *)
Definition sample_handlers (t : JobType) : option Handler :=
  match t with
  | EMAIL =>
      Some (fun payload =>
        match payload with
        | ("simulate_failure", JBool true) :: _ =>
            Raised "SMTP connection refused (simulated)"
        | _ => Returned [("status", JStr "sent")]
        end)
  | AI_TASK => Some (fun _ => TimedOut)
  | DATA_CLEANING => None
  end.

Definition sample_format (t : JobType) : string :=
  match t with
  | EMAIL => "JobType.EMAIL"
  | AI_TASK => "JobType.AI_TASK"
  | DATA_CLEANING => "JobType.DATA_CLEANING"
  end.

Definition sample_request (job_type : JobType) (priority max_retries : Z)
    (fail : bool) : JobCreate.t :=
  JobCreate.mk "sample" job_type priority [("simulate_failure", JBool fail)]
    max_retries None.

(** The state after one job was submitted to the empty system under id 7 at
    time 0. *)
Definition submitted (job_type : JobType) (priority max_retries : Z)
    (fail : bool) : State :=
  snd (create_job default_settings
         (sample_request job_type priority max_retries fail) "alice" 7%N 0%Q
         empty_state).

Definition submitted_job (job_type : JobType) (priority max_retries : Z)
    (fail : bool) : Job.t :=
  fst (create_job default_settings
         (sample_request job_type priority max_retries fail) "alice" 7%N 0%Q
         empty_state).

(** Clock readings of the [k]-th execution: claimed at [100 k], outcome one
    second later. *)
Definition sample_clocks (k : nat) : Clock :=
  {| at_claim := inject_Z (100 * Z.of_nat k);
     at_outcome := inject_Z (100 * Z.of_nat k + 1);
     at_recovery := inject_Z (100 * Z.of_nat k + 2) |}.

(** The sample job executed [n] times by worker [w1]. *)
Definition sample_run (job_type : JobType) (priority max_retries : Z)
    (fail : bool) (n : nat) : State :=
  executions default_settings sample_handlers sample_format "w1" sample_clocks
    7%N n (submitted job_type priority max_retries fail).

(** The settings of a deployment that runs without Redis. *)
Definition no_redis_settings : Settings :=
  {| USE_REDIS := false;
     MAX_WORKERS := 10;
     MAX_RETRIES := 5;
     RETRY_BACKOFF_BASE := 2%Q;
     JOB_TIMEOUT_SECONDS := 300 |}.

(** A request for a job scheduled for time 1000. *)
Definition scheduled_request : JobCreate.t :=
  JobCreate.mk "later" EMAIL 5 [] 2 (Some 1000%Q).

(** The state after a bulk submission of two jobs to the empty system: an
    urgent e-mail under id 1 at time 0, a low-priority AI task under id 2 at
    time 5. *)
Definition bulk_submitted : State :=
  snd (create_bulk_jobs default_settings
         [sample_request EMAIL 10 2 false; sample_request AI_TASK 0 3 false]
         "alice" [(1%N, 0%Q); (2%N, 5%Q)] empty_state).

(** * Properties *)

Section Properties.

Variable settings : Settings.
Variable HANDLER_MAP : JobType -> option Handler.
Variable format_JobType : JobType -> string.

Lemma commit_lookup (job : Job.t) (s : State) :
  db (commit job s) !! Job.id job = Some job.
Proof. unfold commit; cbn. apply lookup_insert_eq. Qed.

Lemma commit_wf (job : Job.t) (s : State) : wf_db s -> wf_db (commit job s).
Proof.
  unfold wf_db, commit; cbn. intros Hwf. by apply map_Forall_insert_2.
Qed.

Lemma if_redis_db (block : Redis -> Redis) (s : State) :
  db (if_redis settings block s) = db s.
Proof. unfold if_redis. by destruct (USE_REDIS settings). Qed.

Lemma if_redis_wf (block : Redis -> Redis) (s : State) :
  wf_db s -> wf_db (if_redis settings block s).
Proof. unfold wf_db. by rewrite if_redis_db. Qed.

Lemma select_claimable_Some (locked : gset uuid) (job_id : uuid) (s : State)
    (job : Job.t) :
  select_claimable locked job_id s = Some job <->
  db s !! job_id = Some job /\ claimable (Job.status job) = true /\ job_id ∉ locked.
Proof.
  unfold select_claimable. split.
  - destruct (db s !! job_id) as [j|]; [|done].
    destruct (claimable (Job.status j)) eqn:Hc; cbn; [|done].
    case_bool_decide; [|done]. intros [= ->]. done.
  - intros (-> & -> & Hl). cbn. by rewrite bool_decide_eq_true_2.
Qed.

Lemma select_claimable_None (locked : gset uuid) (job_id : uuid) (s : State) :
  select_claimable locked job_id s = None <->
  (forall job, db s !! job_id = Some job ->
     claimable (Job.status job) = false \/ job_id ∈ locked).
Proof.
  unfold select_claimable. split.
  - destruct (db s !! job_id) as [j|]; [|done].
    destruct (claimable (Job.status j)) eqn:Hc; cbn.
    + case_bool_decide as Hl; [done|]. intros _ job [= <-]. by right.
    + intros _ job [= <-]. by left.
  - intros H. destruct (db s !! job_id) as [j|]; [|done].
    destruct (H j eq_refl) as [-> | Hl]; [done|].
    rewrite bool_decide_eq_false_2; [|by intros ?]. by rewrite andb_false_r.
Qed.

(** *** The queue backend *)

Lemma stat_increment_stat (name : string) (amount : Z) (r : Redis) :
  RedisQueue.stat name (RedisQueue.increment_stat name amount r)
  = RedisQueue.stat name r + amount.
Proof.
  unfold RedisQueue.stat at 1, RedisQueue.increment_stat; cbn.
  by rewrite lookup_insert_eq.
Qed.

Lemma stat_increment_stat_ne (name name' : string) (amount : Z) (r : Redis) :
  name' ≠ name ->
  RedisQueue.stat name (RedisQueue.increment_stat name' amount r)
  = RedisQueue.stat name r.
Proof.
  intros Hne. unfold RedisQueue.stat at 1, RedisQueue.increment_stat; cbn.
  by rewrite lookup_insert_ne.
Qed.

Lemma stat_mark_done (name : string) (job_id : uuid) (r : Redis) :
  RedisQueue.stat name (RedisQueue.mark_done job_id r) = RedisQueue.stat name r.
Proof. reflexivity. Qed.

Lemma stat_publish_event (name event_type : string) (data : dict) (r : Redis) :
  RedisQueue.stat name (RedisQueue.publish_event event_type data r)
  = RedisQueue.stat name r.
Proof. reflexivity. Qed.

Lemma mark_done_not_processing (job_id : uuid) (r : Redis) :
  job_id ∉ PROCESSING_KEY (RedisQueue.mark_done job_id r).
Proof.
  unfold RedisQueue.mark_done; cbn.
  rewrite elem_of_difference, elem_of_singleton. tauto.
Qed.

Lemma enqueue_score (job_id : uuid) (priority : Z) (r : Redis) :
  QUEUE_KEY (RedisQueue.enqueue job_id priority r) !! job_id = Some (- priority).
Proof. unfold RedisQueue.enqueue; cbn. apply lookup_insert_eq. Qed.

Lemma remove_gone (job_id : uuid) (r : Redis) :
  QUEUE_KEY (RedisQueue.remove job_id r) !! job_id = None
  /\ (job_id ∉ PROCESSING_KEY (RedisQueue.remove job_id r)).
Proof.
  unfold RedisQueue.remove; cbn. split; [apply lookup_delete_eq |].
  rewrite elem_of_difference, elem_of_singleton. tauto.
Qed.

(** *** The retry scheduler's query *)

Lemma retry_ids_due (now : datetime) (s : State) (job_id : uuid) :
  job_id ∈ retry_ids settings now s ->
  exists job, db s !! job_id = Some job /\ retry_due now job = true.
Proof.
  unfold retry_ids. intros Hin.
  apply (subseteq_take _ _ _) in Hin.
  apply list_elem_of_fmap in Hin as ([k job] & -> & Hin).
  apply elem_of_map_to_list in Hin.
  apply map_lookup_filter_Some in Hin as [Hrow Hdue]. cbn in *.
  exists job. split; [done|]. by apply Is_true_true.
Qed.

Lemma retry_ids_status (now : datetime) (s : State) (job_id : uuid) (job : Job.t) :
  db s !! job_id = Some job ->
  Job.status job ≠ RETRYING ->
  job_id ∉ retry_ids settings now s.
Proof.
  intros Hrow Hst Hin. apply retry_ids_due in Hin as (j & Hj & Hdue).
  rewrite Hrow in Hj. injection Hj as <-.
  unfold retry_due in Hdue. apply andb_true_iff in Hdue as [Hdue _].
  by apply bool_decide_eq_true in Hdue.
Qed.

(** *** The claim protocol *)

(** C3. A claim attempt on [job_id] goes one of two ways. Either the row
    exists with a status in PENDING, QUEUED, RETRYING and is not locked by
    another transaction: then the claim returns the job with status RUNNING,
    [started_at] the clock reading, [worker_id] the claiming executor,
    [attempt] one more than before and no other column written, and
    the store differs from the old one in that row only (the queue backend
    is untouched). Or there is no such row: then the claim returns nothing
    and the state is the one it started from. *)
Theorem claim_job_claims_or_leaves_untouched
    (self : string) (locked : gset uuid) (now : datetime) (job_id : uuid)
    (s : State) :
  wf_db s ->
  (exists job job' s',
      db s !! job_id = Some job
      /\ claimable (Job.status job) = true
      /\ (job_id ∉ locked)
      /\ _claim_job self locked now job_id s = (Some job', s')
      /\ Job.status job' = RUNNING
      /\ Job.started_at job' = Some now
      /\ Job.worker_id job' = Some self
      /\ Job.attempt job' = Job.attempt job + 1
      /\ written_only [c_status; c_started_at; c_worker_id; c_attempt] job job'
      /\ db s' = <[job_id := job']> (db s)
      /\ redis s' = redis s)
  \/ ((forall job, db s !! job_id = Some job ->
         claimable (Job.status job) = false \/ job_id ∈ locked)
      /\ _claim_job self locked now job_id s = (None, s)).
Proof.
  intros Hwf. unfold _claim_job.
  destruct (select_claimable locked job_id s) as [job|] eqn:Hsel.
  - left. apply select_claimable_Some in Hsel as (Hrow & Hst & Hfree).
    assert (Job.id job = job_id) as Hid by exact (Hwf _ _ Hrow).
    eexists job, _, _. split_and!; try done.
    + intros c Hc. destruct c; try reflexivity; exfalso; apply Hc;
        repeat first [apply list_elem_of_here | apply list_elem_of_further].
    + unfold commit; cbn. by rewrite Hid.
  - right. split; [|done]. by apply select_claimable_None.
Qed.

(** *** The executor *)

(** A successful claim, as an equation. *)
Lemma claim_job_eq (self : string) (locked : gset uuid) (now : datetime)
    (job_id : uuid) (s : State) (job : Job.t) :
  db s !! job_id = Some job ->
  claimable (Job.status job) = true ->
  job_id ∉ locked ->
  _claim_job self locked now job_id s
  = (Some (claimed self now job), commit (claimed self now job) s).
Proof.
  intros Hrow Hst Hfree. unfold _claim_job.
  assert (select_claimable locked job_id s = Some job) as ->; [|done].
  by apply select_claimable_Some.
Qed.

(** A job in a status the claim query filters out is left alone by
    [execute], which reports [False]. *)
Lemma execute_not_claimable (self : string) (locked : gset uuid) (clock : Clock)
    (job_id : uuid) (s : State) (job : Job.t) :
  db s !! job_id = Some job ->
  claimable (Job.status job) = false ->
  execute settings HANDLER_MAP format_JobType self locked clock job_id s = (false, s).
Proof.
  intros Hrow Hst. unfold execute, _claim_job.
  assert (select_claimable locked job_id s = None) as ->; [|done].
  apply select_claimable_None. intros j Hj. left. congruence.
Qed.

(** A column that is not in an explicit list of written columns. *)
Ltac not_written :=
  rewrite ?not_elem_of_cons; split_and?; solve [done | apply not_elem_of_nil].

Ltac solve_written :=
  let c := fresh "c" in
  let Hc := fresh "Hc" in
  intros c Hc; destruct c; try reflexivity; exfalso; apply Hc;
  repeat first [apply list_elem_of_here | apply list_elem_of_further].

(** [_fail_job]: the columns it writes and its Redis block. *)
Lemma fail_job_spec (now : datetime) (job : Job.t) (error : string) (s : State) :
  exists job',
    _fail_job settings now job error s
    = (job',
       if_redis settings (fun r =>
         RedisQueue.publish_event "job_failed"
           [("job_id", JStr (uuid_str (Job.id job))); ("error", JStr error)]
           (RedisQueue.increment_stat "failed" 1
              (RedisQueue.mark_done (Job.id job) r)))
         (commit job' s))
    /\ Job.status job' = FAILED
    /\ Job.error_message job' = Some error
    /\ Job.completed_at job' = Some now
    /\ Job.duration_seconds job'
       = match Job.started_at job with
         | Some started => Some (now - started)%Q
         | None => Job.duration_seconds job
         end
    /\ written_only
         [c_status; c_error_message; c_completed_at; c_duration_seconds] job job'.
Proof.
  unfold _fail_job. cbn.
  destruct (Job.started_at job) as [started|]; cbn;
    (eexists; split_and!; [reflexivity|done..|solve_written]).
Qed.

(** [_handle_failure] while the retry budget lasts. *)
Lemma handle_failure_retry (now : datetime) (job : Job.t) (error : string)
    (s : State) :
  Job.attempt job < Job.max_retries job ->
  exists job',
    _handle_failure settings now job error s
    = (job',
       if_redis settings (fun r =>
         RedisQueue.increment_stat "retries" 1
           (RedisQueue.mark_done (Job.id job) r))
         (commit job' s))
    /\ Job.status job' = RETRYING
    /\ Job.next_retry_at job'
       = Some (now + RETRY_BACKOFF_BASE settings ^ Job.attempt job)%Q
    /\ Job.error_message job'
       = Some ("Attempt " ++ pretty (Job.attempt job) ++ " failed: " ++ error)
    /\ written_only [c_status; c_next_retry_at; c_error_message] job job'.
Proof.
  intros Hlt. unfold _handle_failure.
  rewrite (proj2 (Z.ltb_lt _ _) Hlt). cbn.
  eexists; split_and!; [reflexivity|done..|solve_written].
Qed.

(** [_handle_failure] once the budget is used up. *)
Lemma handle_failure_exhausted (now : datetime) (job : Job.t) (error : string)
    (s : State) :
  Job.max_retries job <= Job.attempt job ->
  _handle_failure settings now job error s = _fail_job settings now job error s.
Proof.
  intros Hge. unfold _handle_failure.
  by rewrite (proj2 (Z.ltb_ge _ _) Hge).
Qed.

(** [execute] on a claimable job whose handler fails hands over to
    [_handle_failure] with the claimed job. *)
Lemma execute_failure_eq (self : string) (locked : gset uuid) (clock : Clock)
    (job_id : uuid) (s : State) (job : Job.t) (handler : Handler)
    (error : string) :
  db s !! job_id = Some job ->
  claimable (Job.status job) = true ->
  job_id ∉ locked ->
  HANDLER_MAP (Job.job_type job) = Some handler ->
  failure_error settings (handler (Job.payload job)) = Some error ->
  execute settings HANDLER_MAP format_JobType self locked clock job_id s
  = (false,
     snd (_handle_failure settings (at_outcome clock)
            (claimed self (at_claim clock) job) error
            (commit (claimed self (at_claim clock) job) s))).
Proof.
  intros Hrow Hst Hfree Hh Herr.
  unfold execute. rewrite (claim_job_eq _ _ _ _ _ _ Hrow Hst Hfree).
  replace (Job.job_type (claimed self (at_claim clock) job))
    with (Job.job_type job) by done.
  replace (Job.payload (claimed self (at_claim clock) job))
    with (Job.payload job) by done.
  rewrite Hh.
  destruct (handler (Job.payload job)) as [res|e|]; cbn in Herr;
    [done | by injection Herr as -> | by injection Herr as <-].
Qed.

(** Two commits of the same job id in a row leave one row. *)
Lemma commit_commit_db (job job' : Job.t) (s : State) :
  Job.id job' = Job.id job ->
  db (commit job' (commit job s)) = <[Job.id job := job']> (db s).
Proof.
  intros Hid. unfold commit; cbn. rewrite Hid. apply insert_insert_eq.
Qed.

Lemma insert_wf (job_id : uuid) (job : Job.t) (s s' : State) :
  wf_db s -> Job.id job = job_id -> db s' = <[job_id := job]> (db s) -> wf_db s'.
Proof.
  unfold wf_db. intros Hwf Hid ->. by apply map_Forall_insert_2.
Qed.

(** One failing execution, in full: the row it leaves and the Redis block
    it runs, by whether the retry budget lasts. *)
Lemma execute_failure_step
    (self : string) (locked : gset uuid) (clock : Clock) (job_id : uuid)
    (s : State) (job : Job.t) (handler : Handler) (error : string) :
  wf_db s ->
  db s !! job_id = Some job ->
  claimable (Job.status job) = true ->
  job_id ∉ locked ->
  HANDLER_MAP (Job.job_type job) = Some handler ->
  failure_error settings (handler (Job.payload job)) = Some error ->
  exists job' s',
    execute settings HANDLER_MAP format_JobType self locked clock job_id s
      = (false, s')
    /\ db s' = <[job_id := job']> (db s)
    /\ wf_db s'
    /\ Job.attempt job' = Job.attempt job + 1
    /\ Job.job_type job' = Job.job_type job
    /\ Job.payload job' = Job.payload job
    /\ Job.max_retries job' = Job.max_retries job
    /\ (Job.attempt job + 1 < Job.max_retries job ->
          Job.status job' = RETRYING
          /\ Job.next_retry_at job'
             = Some (at_outcome clock
                     + RETRY_BACKOFF_BASE settings ^ (Job.attempt job + 1))%Q
          /\ Job.error_message job'
             = Some ("Attempt " ++ pretty (Job.attempt job + 1)
                     ++ " failed: " ++ error)
          /\ redis s'
             = redis (if_redis settings (fun r =>
                 RedisQueue.increment_stat "retries" 1
                   (RedisQueue.mark_done job_id r)) s))
    /\ (Job.max_retries job <= Job.attempt job + 1 ->
          Job.status job' = FAILED
          /\ Job.error_message job' = Some error
          /\ Job.completed_at job' = Some (at_outcome clock)
          /\ redis s'
             = redis (if_redis settings (fun r =>
                 RedisQueue.publish_event "job_failed"
                   [("job_id", JStr (uuid_str job_id)); ("error", JStr error)]
                   (RedisQueue.increment_stat "failed" 1
                      (RedisQueue.mark_done job_id r))) s)).
Proof.
  intros Hwf Hrow Hst Hfree Hh Herr.
  assert (Job.id job = job_id) as Hid by exact (Hwf _ _ Hrow).
  rewrite (execute_failure_eq _ _ _ _ _ _ _ _ Hrow Hst Hfree Hh Herr).
  set (cl := claimed self (at_claim clock) job).
  assert (Job.attempt cl = Job.attempt job + 1) as Hatt by done.
  assert (Job.id cl = job_id) as Hidc by done.
  assert (forall job' block,
            Job.id job' = Job.id cl ->
            db (if_redis settings block (commit job' (commit cl s)))
            = <[job_id := job']> (db s)) as Hdb.
  { intros job' block Hid'. rewrite if_redis_db, commit_commit_db, Hidc; done. }
  assert (forall job' block,
            redis (if_redis settings block (commit job' (commit cl s)))
            = redis (if_redis settings block s)) as Hredis.
  { intros job' block. unfold if_redis. by destruct (USE_REDIS settings). }
  destruct (Z.lt_ge_cases (Job.attempt job + 1) (Job.max_retries job)) as [Hlt|Hge].
  - destruct (handle_failure_retry (at_outcome clock) cl error (commit cl s))
      as (job' & Heq & Hs & Hn & He & Hw); [done|].
    rewrite Heq. cbn [snd]. rewrite Hatt in Hn, He. rewrite Hidc.
    assert (Job.id job' = Job.id cl) as Hid' by (apply (Hw c_id); not_written).
    eexists job', _. split; [reflexivity|]. split_and!.
    + by apply Hdb.
    + eapply insert_wf; [exact Hwf| |by apply Hdb]. congruence.
    + rewrite <- Hatt. apply (Hw c_attempt). not_written.
    + apply (Hw c_job_type). not_written.
    + apply (Hw c_payload). not_written.
    + apply (Hw c_max_retries). not_written.
    + intros _. split_and!; first [done | apply Hredis].
    + intros Hge. lia.
  - rewrite handle_failure_exhausted by done.
    destruct (fail_job_spec (at_outcome clock) cl error (commit cl s))
      as (job' & Heq & Hs & He & Hc & _ & Hw).
    rewrite Heq. cbn [snd]. rewrite Hidc.
    assert (Job.id job' = Job.id cl) as Hid' by (apply (Hw c_id); not_written).
    eexists job', _. split; [reflexivity|]. split_and!.
    + by apply Hdb.
    + eapply insert_wf; [exact Hwf| |by apply Hdb]. congruence.
    + rewrite <- Hatt. apply (Hw c_attempt). not_written.
    + apply (Hw c_job_type). not_written.
    + apply (Hw c_payload). not_written.
    + apply (Hw c_max_retries). not_written.
    + intros Hlt. lia.
    + intros _. split_and!; first [done | apply Hredis].
Qed.

Lemma stat_if_redis (name : string) (block : Redis -> Redis) (s : State) :
  RedisQueue.stat name (redis (if_redis settings block s))
  = if USE_REDIS settings then RedisQueue.stat name (block (redis s))
    else RedisQueue.stat name (redis s).
Proof. unfold if_redis. by destruct (USE_REDIS settings). Qed.

(** C2. Let [execute] claim a job whose handler raises or times out, and let
    [attempt] be the counter as incremented by the claim. The call reports
    [False] and rewrites that row only. If [attempt < max_retries], the row
    is RETRYING with [next_retry_at] the clock reading plus
    [RETRY_BACKOFF_BASE ^ attempt] seconds and [error_message] the text
    "Attempt {attempt} failed: {error}"; the sorted set of the queue is as
    before (the job is not re-enqueued) and, where Redis is in use, the
    [retries] counter is one higher and the id is out of the processing
    set. Otherwise the row is FAILED with the error as message and
    [completed_at] set, the [retries] counter is as before, and the failure
    is permanent: no later [execute] claims the job and no sweep of the
    retry scheduler selects it. *)
Theorem execute_recoverable_failure
    (self : string) (locked : gset uuid) (clock : Clock) (job_id : uuid)
    (s : State) (job : Job.t) (handler : Handler) (error : string) :
  wf_db s ->
  db s !! job_id = Some job ->
  claimable (Job.status job) = true ->
  job_id ∉ locked ->
  HANDLER_MAP (Job.job_type job) = Some handler ->
  failure_error settings (handler (Job.payload job)) = Some error ->
  let attempt := Job.attempt job + 1 in
  exists job' s',
    execute settings HANDLER_MAP format_JobType self locked clock job_id s
      = (false, s')
    /\ db s' = <[job_id := job']> (db s)
    /\ Job.attempt job' = attempt
    /\ (attempt < Job.max_retries job ->
          Job.status job' = RETRYING
          /\ Job.next_retry_at job'
             = Some (at_outcome clock + RETRY_BACKOFF_BASE settings ^ attempt)%Q
          /\ Job.error_message job'
             = Some ("Attempt " ++ pretty attempt ++ " failed: " ++ error)
          /\ QUEUE_KEY (redis s') = QUEUE_KEY (redis s)
          /\ RedisQueue.stat "failed" (redis s') = RedisQueue.stat "failed" (redis s)
          /\ if USE_REDIS settings
             then RedisQueue.stat "retries" (redis s')
                  = RedisQueue.stat "retries" (redis s) + 1
                  /\ (job_id ∉ PROCESSING_KEY (redis s'))
             else redis s' = redis s)
    /\ (Job.max_retries job <= attempt ->
          Job.status job' = FAILED
          /\ Job.error_message job' = Some error
          /\ Job.completed_at job' = Some (at_outcome clock)
          /\ QUEUE_KEY (redis s') = QUEUE_KEY (redis s)
          /\ RedisQueue.stat "retries" (redis s') = RedisQueue.stat "retries" (redis s)
          /\ (forall self' locked' clock',
                execute settings HANDLER_MAP format_JobType self' locked' clock'
                  job_id s' = (false, s'))
          /\ (forall now, job_id ∉ retry_ids settings now s')).
Proof.
  intros Hwf Hrow Hst Hfree Hh Herr attempt.
  destruct (execute_failure_step self locked clock job_id s job handler error
              Hwf Hrow Hst Hfree Hh Herr)
    as (job' & s' & Hex & Hdb & Hwf' & Hatt & _ & _ & _ & Hretry & Hfail).
  exists job', s'. split_and!; try done.
  - intros Hlt. destruct (Hretry Hlt) as (Hs & Hn & He & Hr).
    split_and!; try done.
    + rewrite Hr. unfold if_redis. by destruct (USE_REDIS settings).
    + rewrite Hr, stat_if_redis. destruct (USE_REDIS settings); [|done].
      by rewrite stat_increment_stat_ne.
    + rewrite Hr. unfold if_redis. destruct (USE_REDIS settings); [|done].
      cbn [redis]. rewrite stat_increment_stat, stat_mark_done. split; [done|].
      apply (mark_done_not_processing job_id).
  - intros Hge. destruct (Hfail Hge) as (Hs & He & Hc & Hr).
    split_and!; try done.
    + rewrite Hr. unfold if_redis. by destruct (USE_REDIS settings).
    + rewrite Hr, stat_if_redis. destruct (USE_REDIS settings); [|done].
      by rewrite stat_publish_event, stat_increment_stat_ne.
    + intros self' locked' clock'.
      apply execute_not_claimable with job'.
      * rewrite Hdb. apply lookup_insert_eq.
      * by rewrite Hs.
    + intros now. apply retry_ids_status with job'.
      * rewrite Hdb. apply lookup_insert_eq.
      * by rewrite Hs.
Qed.

(** C10. When [_handle_failure] runs for a job with retry budget left
    ([attempt < max_retries]), the job comes out RETRYING and the only
    columns written are [status], [next_retry_at] and [error_message]:
    [attempt], [result], [started_at], [completed_at], [duration_seconds],
    [priority], [payload], [worker_id] and the rest are as before, and no
    other row of the store changes. In particular the job carries no
    [completed_at], [duration_seconds] or [result] out of the failed
    attempt: where they were null they stay null. *)
Theorem handle_failure_retry_writes_three_columns
    (now : datetime) (job : Job.t) (error : string) (s : State) :
  Job.attempt job < Job.max_retries job ->
  exists job' s',
    _handle_failure settings now job error s = (job', s')
    /\ Job.status job' = RETRYING
    /\ written_only [c_status; c_next_retry_at; c_error_message] job job'
    /\ (Job.attempt job' = Job.attempt job
        /\ Job.result job' = Job.result job
        /\ Job.started_at job' = Job.started_at job
        /\ Job.completed_at job' = Job.completed_at job
        /\ Job.duration_seconds job' = Job.duration_seconds job
        /\ Job.priority job' = Job.priority job
        /\ Job.payload job' = Job.payload job
        /\ Job.worker_id job' = Job.worker_id job)
    /\ db s' = <[Job.id job := job']> (db s)
    /\ (Job.completed_at job = None -> Job.completed_at job' = None)
    /\ (Job.duration_seconds job = None -> Job.duration_seconds job' = None)
    /\ (Job.result job = None -> Job.result job' = None).
Proof.
  intros Hlt.
  destruct (handle_failure_retry now job error s Hlt)
    as (job' & Heq & Hs & _ & _ & Hw).
  assert (forall c, c ∉ [c_status; c_next_retry_at; c_error_message] ->
          same_column c job job') as Hw' by exact Hw.
  eexists job', _. split; [exact Heq|]. split_and!; try done.
  - apply (Hw c_attempt). not_written.
  - apply (Hw c_result). not_written.
  - apply (Hw c_started_at). not_written.
  - apply (Hw c_completed_at). not_written.
  - apply (Hw c_duration_seconds). not_written.
  - apply (Hw c_priority). not_written.
  - apply (Hw c_payload). not_written.
  - apply (Hw c_worker_id). not_written.
  - rewrite if_redis_db. unfold commit; cbn [db].
    assert (Job.id job' = Job.id job) as -> by (apply (Hw c_id); not_written).
    done.
  - intros <-. apply (Hw c_completed_at). not_written.
  - intros <-. apply (Hw c_duration_seconds). not_written.
  - intros <-. apply (Hw c_result). not_written.
Qed.

(** C7. When [execute] claims a job and its handler returns [result] in
    time, the call reports [True] and rewrites that row only: status
    COMPLETED, [result] stored, [completed_at] the clock reading,
    [duration_seconds] the time since [started_at] (the claim's reading),
    [error_message] cleared. Where Redis is in use the id is out of the
    processing set, the [completed] counter is one higher and a
    [job_completed] event carrying the id and the duration is the last one
    published; the sorted set of the queue is as before. *)
Theorem execute_success
    (self : string) (locked : gset uuid) (clock : Clock) (job_id : uuid)
    (s : State) (job : Job.t) (handler : Handler) (result : dict) :
  wf_db s ->
  db s !! job_id = Some job ->
  claimable (Job.status job) = true ->
  job_id ∉ locked ->
  HANDLER_MAP (Job.job_type job) = Some handler ->
  handler (Job.payload job) = Returned result ->
  exists job' s',
    execute settings HANDLER_MAP format_JobType self locked clock job_id s
      = (true, s')
    /\ db s' = <[job_id := job']> (db s)
    /\ Job.status job' = COMPLETED
    /\ Job.result job' = Some result
    /\ Job.started_at job' = Some (at_claim clock)
    /\ Job.completed_at job' = Some (at_outcome clock)
    /\ Job.duration_seconds job' = Some (at_outcome clock - at_claim clock)%Q
    /\ Job.error_message job' = None
    /\ Job.attempt job' = Job.attempt job + 1
    /\ written_only
         [c_status; c_result; c_completed_at; c_duration_seconds;
          c_error_message; c_started_at; c_worker_id; c_attempt] job job'
    /\ QUEUE_KEY (redis s') = QUEUE_KEY (redis s)
    /\ if USE_REDIS settings
       then (job_id ∉ PROCESSING_KEY (redis s'))
            /\ RedisQueue.stat "completed" (redis s')
               = RedisQueue.stat "completed" (redis s) + 1
            /\ job_events (redis s')
               = (job_events (redis s)
                  ++ [[("event", JStr "job_completed");
                       ("job_id", JStr (uuid_str job_id));
                       ("duration", JFloat (at_outcome clock - at_claim clock)%Q)]])%list
       else redis s' = redis s.
Proof.
  intros Hwf Hrow Hst Hfree Hh Hres.
  assert (Job.id job = job_id) as Hid by exact (Hwf _ _ Hrow).
  unfold execute. rewrite (claim_job_eq _ _ _ _ _ _ Hrow Hst Hfree).
  replace (Job.job_type (claimed self (at_claim clock) job))
    with (Job.job_type job) by done.
  replace (Job.payload (claimed self (at_claim clock) job))
    with (Job.payload job) by done.
  rewrite Hh, Hres. unfold _complete_job. cbn.
  match goal with |- context [commit ?j (commit _ _)] => exists j end.
  eexists. split; [reflexivity|]. split_and!; try done.
  - rewrite if_redis_db. unfold commit; cbn. rewrite Hid. apply insert_insert_eq.
  - solve_written.
  - unfold if_redis. by destruct (USE_REDIS settings).
  - unfold if_redis. destruct (USE_REDIS settings); [|done]. cbn [redis].
    rewrite stat_publish_event, stat_increment_stat, stat_mark_done, Hid.
    split_and!; try done.
    apply (mark_done_not_processing job_id).
Qed.

(** The [TypeError] branch of [_complete_job] is never taken from
    [execute]: the claim has set [started_at]. *)
Lemma complete_job_after_claim (self : string) (t now : datetime) (job : Job.t)
    (result : dict) (s : State) :
  snd (_complete_job settings now (claimed self t job) result s) = None.
Proof. reflexivity. Qed.

(** C9. When [execute] claims a job whose type has no registered handler,
    the call reports [False] and leaves the row FAILED, with an
    [error_message] naming the missing handler and [completed_at] set, on
    the attempt of the claim (attempt 1 for a job not yet attempted),
    whatever [max_retries] is. No retry is scheduled: [next_retry_at] is not
    written (it stays null where it was), the [retries] counter does not
    move, no sweep of the retry scheduler selects the job and no later
    [execute] claims it. *)
Theorem execute_missing_handler
    (self : string) (locked : gset uuid) (clock : Clock) (job_id : uuid)
    (s : State) (job : Job.t) :
  wf_db s ->
  db s !! job_id = Some job ->
  claimable (Job.status job) = true ->
  job_id ∉ locked ->
  HANDLER_MAP (Job.job_type job) = None ->
  exists job' s',
    execute settings HANDLER_MAP format_JobType self locked clock job_id s
      = (false, s')
    /\ db s' = <[job_id := job']> (db s)
    /\ Job.status job' = FAILED
    /\ Job.error_message job'
       = Some ("No handler for type: " ++ format_JobType (Job.job_type job))
    /\ Job.completed_at job' = Some (at_outcome clock)
    /\ Job.attempt job' = Job.attempt job + 1
    /\ (Job.attempt job = 0 -> Job.attempt job' = 1)
    /\ Job.next_retry_at job' = Job.next_retry_at job
    /\ (Job.next_retry_at job = None -> Job.next_retry_at job' = None)
    /\ RedisQueue.stat "retries" (redis s') = RedisQueue.stat "retries" (redis s)
    /\ QUEUE_KEY (redis s') = QUEUE_KEY (redis s)
    /\ (forall now, job_id ∉ retry_ids settings now s')
    /\ (forall self' locked' clock',
          execute settings HANDLER_MAP format_JobType self' locked' clock'
            job_id s' = (false, s')).
Proof.
  intros Hwf Hrow Hst Hfree Hh.
  assert (Job.id job = job_id) as Hid by exact (Hwf _ _ Hrow).
  unfold execute. rewrite (claim_job_eq _ _ _ _ _ _ Hrow Hst Hfree).
  replace (Job.job_type (claimed self (at_claim clock) job))
    with (Job.job_type job) by done.
  rewrite Hh.
  set (cl := claimed self (at_claim clock) job).
  set (error := "No handler for type: " ++ format_JobType (Job.job_type job)).
  destruct (fail_job_spec (at_outcome clock) cl error (commit cl s))
    as (job' & Heq & Hs & He & Hc & _ & Hw).
  rewrite Heq. cbn [snd].
  assert (Job.id job' = Job.id cl) as Hid' by (apply (Hw c_id); not_written).
  assert (Job.id cl = job_id) as Hidc by done.
  assert (Job.attempt job' = Job.attempt job + 1) as Hatt.
  { change (Job.attempt job + 1) with (Job.attempt cl).
    apply (Hw c_attempt). not_written. }
  assert (Job.next_retry_at job' = Job.next_retry_at job) as Hnext.
  { change (Job.next_retry_at job) with (Job.next_retry_at cl).
    apply (Hw c_next_retry_at). not_written. }
  assert (db (if_redis settings
                (fun r => RedisQueue.publish_event "job_failed"
                   [("job_id", JStr (uuid_str (Job.id cl))); ("error", JStr error)]
                   (RedisQueue.increment_stat "failed" 1
                      (RedisQueue.mark_done (Job.id cl) r)))
                (commit job' (commit cl s)))
          = <[job_id := job']> (db s)) as Hdb.
  { rewrite if_redis_db, commit_commit_db, Hidc; done. }
  eexists job', _. split; [reflexivity|]. split_and!; try done.
  - intros H0. lia.
  - intros H0. congruence.
  - unfold if_redis. destruct (USE_REDIS settings); [|done]. cbn [redis].
    by rewrite stat_publish_event, stat_increment_stat_ne.
  - unfold if_redis. by destruct (USE_REDIS settings).
  - intros now. apply retry_ids_status with job'.
    + rewrite Hdb. apply lookup_insert_eq.
    + by rewrite Hs.
  - intros self' locked' clock'.
    apply execute_not_claimable with job'.
    + rewrite Hdb. apply lookup_insert_eq.
    + by rewrite Hs.
Qed.

(** *** What each step does to the store *)

Lemma fail_job_db (now : datetime) (job : Job.t) (error : string) (s : State) :
  db (snd (_fail_job settings now job error s))
  = <[Job.id job := fst (_fail_job settings now job error s)]> (db s)
  /\ Job.id (fst (_fail_job settings now job error s)) = Job.id job
  /\ Job.attempt (fst (_fail_job settings now job error s)) = Job.attempt job.
Proof.
  destruct (fail_job_spec now job error s) as (job' & -> & _ & _ & _ & _ & Hw).
  cbn [fst snd]. rewrite if_redis_db.
  assert (Job.id job' = Job.id job) as Hid by (apply (Hw c_id); not_written).
  split_and!; [|done|apply (Hw c_attempt); not_written].
  unfold commit; cbn. by rewrite Hid.
Qed.

Lemma handle_failure_db (now : datetime) (job : Job.t) (error : string)
    (s : State) :
  db (snd (_handle_failure settings now job error s))
  = <[Job.id job := fst (_handle_failure settings now job error s)]> (db s)
  /\ Job.id (fst (_handle_failure settings now job error s)) = Job.id job
  /\ Job.attempt (fst (_handle_failure settings now job error s)) = Job.attempt job.
Proof.
  destruct (Z.lt_ge_cases (Job.attempt job) (Job.max_retries job)) as [Hlt|Hge].
  - destruct (handle_failure_retry now job error s Hlt)
      as (job' & -> & _ & _ & _ & Hw).
    cbn [fst snd]. rewrite if_redis_db.
    assert (Job.id job' = Job.id job) as Hid by (apply (Hw c_id); not_written).
    split_and!; [|done|apply (Hw c_attempt); not_written].
    unfold commit; cbn. by rewrite Hid.
  - rewrite handle_failure_exhausted by done. apply fail_job_db.
Qed.

Lemma complete_job_db (now : datetime) (job : Job.t) (result : dict) (s : State) :
  db (snd (fst (_complete_job settings now job result s)))
  = <[Job.id job := fst (fst (_complete_job settings now job result s))]> (db s)
  /\ Job.id (fst (fst (_complete_job settings now job result s))) = Job.id job
  /\ Job.attempt (fst (fst (_complete_job settings now job result s)))
     = Job.attempt job.
Proof.
  unfold _complete_job.
  destruct (Job.started_at job) as [started|]; cbn; [|done].
  by rewrite if_redis_db.
Qed.

(** [execute] either leaves the store as it is, or rewrites the row of
    [job_id] with the attempt counter one higher. *)
Lemma execute_db_claimed (self : string) (locked : gset uuid) (clock : Clock)
    (job_id : uuid) (s : State) (job : Job.t) :
  wf_db s ->
  select_claimable locked job_id s = Some job ->
  exists job',
    db (snd (execute settings HANDLER_MAP format_JobType self locked clock
               job_id s)) = <[job_id := job']> (db s)
    /\ Job.id job' = job_id
    /\ Job.attempt job' = Job.attempt job + 1.
Proof.
  intros Hwf Hsel.
  apply select_claimable_Some in Hsel as (Hrow & Hst & Hfree).
  assert (Job.id job = job_id) as Hid by exact (Hwf _ _ Hrow).
  unfold execute. rewrite (claim_job_eq _ _ _ _ _ _ Hrow Hst Hfree).
  set (cl := claimed self (at_claim clock) job).
  assert (Job.id cl = job_id) as Hidc by done.
  assert (Job.attempt cl = Job.attempt job + 1) as Hatt by done.
  assert (forall job' s',
            db s' = <[Job.id cl := job']> (db (commit cl s))
            /\ Job.id job' = Job.id cl /\ Job.attempt job' = Job.attempt cl ->
            exists job'0,
              db s' = <[job_id := job'0]> (db s)
              /\ Job.id job'0 = job_id
              /\ Job.attempt job'0 = Job.attempt job + 1) as Hstep.
  { intros job' s' (Hdb & Hid' & Hatt'). exists job'.
    split_and!; [|congruence|congruence].
    rewrite Hdb. unfold commit; cbn. rewrite Hid. apply insert_insert_eq. }
  destruct (HANDLER_MAP (Job.job_type cl)) as [handler|].
  - destruct (handler (Job.payload cl)) as [result|e|].
    + destruct (_complete_job settings (at_outcome clock) cl result (commit cl s))
        as [[job' s'] exc] eqn:Hc.
      pose proof (complete_job_after_claim self (at_claim clock) (at_outcome clock)
                    job result (commit cl s)) as Hexc.
      fold cl in Hexc. rewrite Hc in Hexc. cbn in Hexc. subst exc. cbn [snd].
      pose proof (complete_job_db (at_outcome clock) cl result (commit cl s)) as H.
      rewrite Hc in H. by apply Hstep with job'.
    + eapply Hstep, handle_failure_db.
    + eapply Hstep, handle_failure_db.
  - eapply Hstep, fail_job_db.
Qed.

Lemma execute_db (self : string) (locked : gset uuid) (clock : Clock)
    (job_id : uuid) (s : State) :
  wf_db s ->
  let s' := snd (execute settings HANDLER_MAP format_JobType self locked clock
                   job_id s) in
  db s' = db s
  \/ exists job job',
       db s !! job_id = Some job
       /\ db s' = <[job_id := job']> (db s)
       /\ Job.id job' = job_id
       /\ Job.attempt job' = Job.attempt job + 1.
Proof.
  intros Hwf. cbn zeta.
  destruct (select_claimable locked job_id s) as [job|] eqn:Hsel;
    [|left; unfold execute, _claim_job; by rewrite Hsel].
  destruct (execute_db_claimed self locked clock job_id s job Hwf Hsel)
    as (job' & Hdb & Hid & Hatt).
  apply select_claimable_Some in Hsel as (Hrow & _ & _).
  right. by exists job, job'.
Qed.

Lemma execute_wf (self : string) (locked : gset uuid) (clock : Clock)
    (job_id : uuid) (s : State) :
  wf_db s ->
  wf_db (snd (execute settings HANDLER_MAP format_JobType self locked clock
                job_id s)).
Proof.
  intros Hwf.
  destruct (execute_db self locked clock job_id s Hwf)
    as [Heq | (job & job' & _ & Heq & Hid & _)].
  - unfold wf_db. by rewrite Heq.
  - by eapply insert_wf.
Qed.

Lemma executions_wf (self : string) (clocks : nat -> Clock) (job_id : uuid)
    (n : nat) (s : State) :
  wf_db s ->
  wf_db (executions settings HANDLER_MAP format_JobType self clocks job_id n s).
Proof.
  intros Hwf. induction n as [|n IH]; [done|]. cbn. by apply execute_wf.
Qed.

Lemma create_job_wf (data : JobCreate.t) (username : string) (new_id : uuid)
    (now : datetime) (s : State) :
  wf_db s -> wf_db (snd (create_job settings data username new_id now s)).
Proof.
  intros Hwf. unfold create_job; cbn [snd]. apply if_redis_wf.
  by apply commit_wf.
Qed.

(** The sweep writes [status] and [next_retry_at] only, and only without
    Redis; with Redis the store is left as it is. *)
Lemma requeue_db (locked : gset uuid) (s : State) (jid : uuid) :
  wf_db s ->
  db (requeue settings locked s jid) = db s
  \/ exists job job',
       db s !! jid = Some job
       /\ db (requeue settings locked s jid) = <[jid := job']> (db s)
       /\ Job.id job' = jid
       /\ Job.attempt job' = Job.attempt job.
Proof.
  intros Hwf. unfold requeue. destruct (USE_REDIS settings); [by left|].
  destruct (db s !! jid) as [job_obj|] eqn:Hrow; [|by left].
  case_bool_decide; [|by left]. right.
  assert (Job.id job_obj = jid) as Hid by exact (Hwf _ _ Hrow).
  eexists job_obj, _. split; [done|]. unfold commit; cbn. by rewrite Hid.
Qed.

Lemma requeue_wf (locked : gset uuid) (s : State) (jid : uuid) :
  wf_db s -> wf_db (requeue settings locked s jid).
Proof.
  intros Hwf.
  destruct (requeue_db locked s jid Hwf) as [Heq | (job & job' & _ & Heq & Hid & _)].
  - unfold wf_db. by rewrite Heq.
  - by eapply insert_wf.
Qed.

Lemma requeue_attempt (locked : gset uuid) (s : State) (jid k : uuid) :
  wf_db s ->
  Job.attempt <$> db (requeue settings locked s jid) !! k
  = Job.attempt <$> db s !! k.
Proof.
  intros Hwf.
  destruct (requeue_db locked s jid Hwf)
    as [-> | (job & job' & Hrow & -> & Hid & Hatt)]; [done|].
  destruct (decide (jid = k)) as [<-|Hne].
  - rewrite lookup_insert_eq, Hrow. cbn. by rewrite Hatt.
  - by rewrite lookup_insert_ne.
Qed.

Lemma retry_loop_attempt (locked : gset uuid) (now : datetime) (s : State)
    (k : uuid) :
  wf_db s ->
  Job.attempt <$> db (_retry_loop settings locked now s) !! k
  = Job.attempt <$> db s !! k.
Proof.
  unfold _retry_loop. generalize (retry_ids settings now s). intros ids.
  revert s. induction ids as [|jid ids IH]; intros s Hwf; [done|].
  cbn. rewrite IH by (by apply requeue_wf). by apply requeue_attempt.
Qed.


(** *** The retry sweep with Redis in use *)

(** With Redis the loop body enqueues and leaves the store alone. *)
Lemma requeue_with_redis (locked : gset uuid) (s : State) (jid : uuid) :
  USE_REDIS settings = true ->
  db (requeue settings locked s jid) = db s
  /\ QUEUE_KEY (redis (requeue settings locked s jid))
     = <[jid := - py_or (Job.priority <$> db s !! jid) 5]> (QUEUE_KEY (redis s)).
Proof. intros Hon. unfold requeue. by rewrite Hon. Qed.

Lemma requeue_all_with_redis (locked : gset uuid) (ids : list uuid) (s : State) :
  USE_REDIS settings = true ->
  let s' := foldl (requeue settings locked) s ids in
  db s' = db s
  /\ (forall jid, jid ∈ ids ->
        QUEUE_KEY (redis s') !! jid
        = Some (- py_or (Job.priority <$> db s !! jid) 5))
  /\ (forall jid, jid ∉ ids ->
        QUEUE_KEY (redis s') !! jid = QUEUE_KEY (redis s) !! jid).
Proof.
  intros Hon. revert s. induction ids as [|i ids IH]; intros s; cbn.
  - split_and!; [done| |done]. intros jid Hin. by apply elem_of_nil in Hin.
  - destruct (requeue_with_redis locked s i Hon) as [Hdb Hq].
    destruct (IH (requeue settings locked s i)) as (Hdb' & Hin' & Hout').
    split_and!.
    + by rewrite Hdb'.
    + intros jid Hin. destruct (decide (jid ∈ ids)) as [Hids|Hids].
      * rewrite (Hin' jid Hids). by rewrite Hdb.
      * rewrite (Hout' jid Hids), Hq.
        apply elem_of_cons in Hin as [->|Hin]; [|done].
        apply lookup_insert_eq.
    + intros jid Hout. apply not_elem_of_cons in Hout as [Hne Hout].
      rewrite (Hout' jid Hout), Hq. by rewrite lookup_insert_ne.
Qed.

(** What the sweep does for a job it found: the row is left as it is (so
    still RETRYING) and the id is in the queue, at the job's priority when
    that is not 0 and at priority 5 when it is 0. *)
Lemma retry_loop_requeues (locked : gset uuid) (now : datetime) (s : State)
    (jid : uuid) :
  USE_REDIS settings = true ->
  jid ∈ retry_ids settings now s ->
  exists job,
    db s !! jid = Some job
    /\ Job.status job = RETRYING
    /\ db (_retry_loop settings locked now s) = db s
    /\ QUEUE_KEY (redis (_retry_loop settings locked now s)) !! jid
       = Some (- (if decide (Job.priority job = 0) then 5 else Job.priority job)).
Proof.
  intros Hon Hin.
  destruct (retry_ids_due now s jid Hin) as (job & Hrow & Hdue).
  destruct (requeue_all_with_redis locked (retry_ids settings now s) s Hon)
    as (Hdb & Hq & _).
  exists job. split_and!; [done| |done|].
  - unfold retry_due in Hdue. apply andb_true_iff in Hdue as [Hdue _].
    by apply bool_decide_eq_true in Hdue.
  - unfold _retry_loop. rewrite (Hq jid Hin), Hrow. done.
Qed.

(** *** A job whose handler always fails *)

Section AlwaysFailing.

Variables (self : string) (clocks : nat -> Clock) (job_id : uuid).
Variables (s : State) (job : Job.t) (handler : Handler) (error : string).

Hypothesis Hwf : wf_db s.
Hypothesis Hrow : db s !! job_id = Some job.
Hypothesis Hst : claimable (Job.status job) = true.
Hypothesis Hzero : Job.attempt job = 0.
Hypothesis Hh : HANDLER_MAP (Job.job_type job) = Some handler.
Hypothesis Herr : failure_error settings (handler (Job.payload job)) = Some error.

Local Abbreviation run n :=
  (executions settings HANDLER_MAP format_JobType self clocks job_id n s).

(** The number of the execution that fails for good. *)
Local Abbreviation cap := (Z.to_nat (Z.max (Job.max_retries job) 1)).

(** While the budget lasts every execution leaves the job RETRYING. *)
Lemma retrying_prefix (n : nat) :
  n = 0%nat \/ Z.of_nat n < Job.max_retries job ->
  exists job',
    db (run n) !! job_id = Some job'
    /\ wf_db (run n)
    /\ claimable (Job.status job') = true
    /\ Job.attempt job' = Z.of_nat n
    /\ Job.job_type job' = Job.job_type job
    /\ Job.payload job' = Job.payload job
    /\ Job.max_retries job' = Job.max_retries job
    /\ ((1 <= n)%nat ->
        Job.status job' = RETRYING
        /\ Job.next_retry_at job'
           = Some (at_outcome (clocks n)
                   + RETRY_BACKOFF_BASE settings ^ Z.of_nat n)%Q
        /\ Job.error_message job'
           = Some ("Attempt " ++ pretty (Z.of_nat n) ++ " failed: " ++ error))
    /\ RedisQueue.stat "retries" (redis (run n))
       = RedisQueue.stat "retries" (redis s)
         + (if USE_REDIS settings then Z.of_nat n else 0)
    /\ RedisQueue.stat "failed" (redis (run n)) = RedisQueue.stat "failed" (redis s).
Proof using Hwf Hrow Hst Hzero Hh Herr.
  induction n as [|n IH]; intros Hn.
  - exists job. cbn [executions]. split_and!; try done.
    + intros H1. lia.
    + destruct (USE_REDIS settings); lia.
  - destruct IH as (jn & Hrown & Hwfn & Hstn & Hattn & Htn & Hpn & Hmn & _ & Hrn & Hfn);
      [lia|].
    rewrite <- Htn in Hh. rewrite <- Hpn in Herr.
    destruct (execute_failure_step self ∅ (clocks (S n)) job_id (run n) jn
                handler error Hwfn Hrown Hstn (not_elem_of_empty _) Hh Herr)
      as (job' & s' & Hex & Hdb & Hwf' & Hatt & Ht & Hp & Hm & Hretry & _).
    destruct Hretry as (Hs & Hnext & He & Hr); [lia|].
    assert (Job.attempt jn + 1 = Z.of_nat (S n)) as Hsn by lia.
    rewrite Hsn in *.
    cbn [executions]. rewrite Hex. cbn [snd].
    exists job'. split_and!; try congruence.
    + rewrite Hdb. apply lookup_insert_eq.
    + done.
    + by rewrite Hs.
    + done.
    + rewrite Hr, stat_if_redis. destruct (USE_REDIS settings); [|lia].
      rewrite stat_increment_stat, stat_mark_done, Hrn. lia.
    + rewrite Hr, stat_if_redis, Hfn. destruct (USE_REDIS settings); [|done].
      by rewrite stat_increment_stat_ne, stat_mark_done.
Qed.

(** The execution that uses up the budget leaves the job FAILED. *)
Lemma failed_at_cap :
  exists job',
    db (run cap) !! job_id = Some job'
    /\ wf_db (run cap)
    /\ Job.status job' = FAILED
    /\ Job.attempt job' = Z.max (Job.max_retries job) 1
    /\ Job.error_message job' = Some error
    /\ Job.completed_at job' = Some (at_outcome (clocks cap))
    /\ RedisQueue.stat "retries" (redis (run cap))
       = RedisQueue.stat "retries" (redis s)
         + (if USE_REDIS settings then Z.max (Job.max_retries job) 1 - 1 else 0)
    /\ RedisQueue.stat "failed" (redis (run cap))
       = RedisQueue.stat "failed" (redis s)
         + (if USE_REDIS settings then 1 else 0).
Proof using Hwf Hrow Hst Hzero Hh Herr.
  destruct (Nat.lt_exists_pred 0 cap) as (n & Hcap & _); [lia|].
  destruct (retrying_prefix n)
    as (jn & Hrown & Hwfn & Hstn & Hattn & Htn & Hpn & Hmn & _ & Hrn & Hfn);
    [lia|].
  rewrite <- Htn in Hh. rewrite <- Hpn in Herr.
  destruct (execute_failure_step self ∅ (clocks (S n)) job_id (run n) jn
              handler error Hwfn Hrown Hstn (not_elem_of_empty _) Hh Herr)
    as (job' & s' & Hex & Hdb & Hwf' & Hatt & _ & _ & _ & _ & Hfail).
  destruct Hfail as (Hs & He & Hc & Hr); [lia|].
  rewrite Hcap. cbn [executions]. rewrite Hex. cbn [snd].
  exists job'. split_and!; try done.
  - rewrite Hdb. apply lookup_insert_eq.
  - lia.
  - rewrite Hr, stat_if_redis. destruct (USE_REDIS settings); [|lia].
    rewrite stat_publish_event, stat_increment_stat_ne, stat_mark_done by done.
    lia.
  - rewrite Hr, stat_if_redis. destruct (USE_REDIS settings); [|lia].
    rewrite stat_publish_event, stat_increment_stat, stat_mark_done. lia.
Qed.

(** Later executions find the job FAILED and change nothing. *)
Lemma failed_stays (n : nat) : (cap <= n)%nat -> run n = run cap.
Proof using Hwf Hrow Hst Hzero Hh Herr.
  induction 1 as [|n Hle IH]; [done|].
  destruct failed_at_cap as (job' & Hrow' & _ & Hs & _).
  cbn [executions]. rewrite IH.
  rewrite (execute_not_claimable self ∅ (clocks (S n)) job_id _ job' Hrow');
    [done|by rewrite Hs].
Qed.

End AlwaysFailing.

(** C1 (as the code has it). Take a job not yet attempted whose handler fails
    every time (raises, or times out), and execute it [n] times. While
    [1 <= n < max_retries] the [n]-th execution leaves it RETRYING with
    [attempt = n], [next_retry_at] the clock reading plus
    [RETRY_BACKOFF_BASE ^ n] seconds and the message "Attempt n failed: ...".
    The execution number [max(max_retries, 1)] leaves it FAILED with the
    last error as message, and later executions change nothing. So the
    back-offs taken are [base^1, ..., base^(max_retries - 1)]; where Redis
    is in use the [retries] counter goes up [max(max_retries, 1) - 1] times
    and the [failed] counter once. For [max_retries = 2]: the first attempt
    ends RETRYING with a back-off of [base^1], the second ends FAILED. *)
Theorem always_failing_job_timeline
    (self : string) (clocks : nat -> Clock) (job_id : uuid)
    (s : State) (job : Job.t) (handler : Handler) (error : string) (n : nat) :
  wf_db s ->
  db s !! job_id = Some job ->
  claimable (Job.status job) = true ->
  Job.attempt job = 0 ->
  HANDLER_MAP (Job.job_type job) = Some handler ->
  failure_error settings (handler (Job.payload job)) = Some error ->
  let cap := Z.max (Job.max_retries job) 1 in
  let s_n := executions settings HANDLER_MAP format_JobType self clocks job_id n s in
  ((1 <= n)%nat -> Z.of_nat n < Job.max_retries job ->
     exists job',
       db s_n !! job_id = Some job'
       /\ Job.status job' = RETRYING
       /\ Job.attempt job' = Z.of_nat n
       /\ Job.next_retry_at job'
          = Some (at_outcome (clocks n)
                  + RETRY_BACKOFF_BASE settings ^ Z.of_nat n)%Q
       /\ Job.error_message job'
          = Some ("Attempt " ++ pretty (Z.of_nat n) ++ " failed: " ++ error)
       /\ RedisQueue.stat "retries" (redis s_n)
          = RedisQueue.stat "retries" (redis s)
            + (if USE_REDIS settings then Z.of_nat n else 0)
       /\ RedisQueue.stat "failed" (redis s_n)
          = RedisQueue.stat "failed" (redis s))
  /\ (cap <= Z.of_nat n ->
     exists job',
       db s_n !! job_id = Some job'
       /\ Job.status job' = FAILED
       /\ Job.attempt job' = cap
       /\ Job.error_message job' = Some error
       /\ Job.completed_at job' = Some (at_outcome (clocks (Z.to_nat cap)))
       /\ RedisQueue.stat "retries" (redis s_n)
          = RedisQueue.stat "retries" (redis s)
            + (if USE_REDIS settings then cap - 1 else 0)
       /\ RedisQueue.stat "failed" (redis s_n)
          = RedisQueue.stat "failed" (redis s)
            + (if USE_REDIS settings then 1 else 0)).
Proof.
  intros Hwf Hrow Hst Hzero Hh Herr cap s_n. split.
  - intros H1 Hlt.
    destruct (retrying_prefix self clocks job_id s job handler error
                Hwf Hrow Hst Hzero Hh Herr n)
      as (job' & Hrow' & _ & _ & Hatt & _ & _ & _ & Hretry & Hr & Hf); [by right|].
    destruct (Hretry H1) as (Hs & Hn & He).
    exists job'. by split_and!.
  - intros Hcap.
    destruct (failed_at_cap self clocks job_id s job handler error
                Hwf Hrow Hst Hzero Hh Herr)
      as (job' & Hrow' & _ & Hs & Hatt & He & Hc & Hr & Hf).
    unfold s_n.
    rewrite (failed_stays self clocks job_id s job handler error
               Hwf Hrow Hst Hzero Hh Herr n) by lia.
    exists job'. by split_and!.
Qed.

(** *** Cancel and retry from the API *)

Lemma cancel_job_ok (job_id : uuid) (now : datetime) (s : State) (job : Job.t) :
  db s !! job_id = Some job ->
  ~ (Job.status job = COMPLETED \/ Job.status job = CANCELLED) ->
  cancel_job settings job_id now s
  = (let job' := Job.set_completed_at (Some now) (Job.set_status CANCELLED job) in
     Ok job' (if_redis settings (RedisQueue.remove (Job.id job)) (commit job' s))).
Proof.
  intros Hrow Hst. unfold cancel_job. rewrite Hrow.
  by rewrite bool_decide_eq_false_2.
Qed.

Lemma retry_job_ok (job_id : uuid) (s : State) (job : Job.t) :
  db s !! job_id = Some job ->
  Job.status job = FAILED \/ Job.status job = CANCELLED ->
  retry_job settings job_id s
  = (let job' :=
       Job.set_next_retry_at None
         (Job.set_duration_seconds None
            (Job.set_completed_at None
               (Job.set_started_at None
                  (Job.set_result None
                     (Job.set_error_message None
                        (Job.set_attempt 0 (Job.set_status QUEUED job))))))) in
     Ok job'
       (if_redis settings (RedisQueue.enqueue (Job.id job) (Job.priority job))
          (commit job' s))).
Proof.
  intros Hrow Hst. unfold retry_job. rewrite Hrow.
  by rewrite bool_decide_eq_false_2 by (by intros Hn).
Qed.

(** C8. [cancel_job] on an existing job raises an HTTP error exactly when
    the status is COMPLETED or CANCELLED, and then nothing is changed. For
    every other status it returns the job with status CANCELLED and
    [completed_at] set to the clock reading (so the cancelled job has the
    [completed_at] a terminal job must have), no other column written and no
    other row touched; where Redis is in use the id is gone from the sorted
    set and from the processing set, other members staying. *)
Theorem cancel_job_rejects_or_cancels
    (job_id : uuid) (now : datetime) (s : State) (job : Job.t) :
  wf_db s ->
  db s !! job_id = Some job ->
  ((Job.status job = COMPLETED \/ Job.status job = CANCELLED)
   <-> exists code detail,
         cancel_job settings job_id now s = HTTPException code detail)
  /\ (Job.status job = COMPLETED \/ Job.status job = CANCELLED ->
      cancel_job settings job_id now s
      = HTTPException 400
          ("Cannot cancel job in '" ++ JobStatus_value (Job.status job) ++ "' state")
      /\ state_after s (cancel_job settings job_id now s) = s)
  /\ (~ (Job.status job = COMPLETED \/ Job.status job = CANCELLED) ->
      exists job' s',
        cancel_job settings job_id now s = Ok job' s'
        /\ Job.status job' = CANCELLED
        /\ Job.completed_at job' = Some now
        /\ written_only [c_status; c_completed_at] job job'
        /\ db s' = <[job_id := job']> (db s)
        /\ if USE_REDIS settings
           then QUEUE_KEY (redis s') = delete job_id (QUEUE_KEY (redis s))
                /\ QUEUE_KEY (redis s') !! job_id = None
                /\ (job_id ∉ PROCESSING_KEY (redis s'))
                /\ (forall k, k ≠ job_id ->
                      k ∈ PROCESSING_KEY (redis s') <-> k ∈ PROCESSING_KEY (redis s))
           else redis s' = redis s).
Proof.
  intros Hwf Hrow.
  assert (Job.id job = job_id) as Hid by exact (Hwf _ _ Hrow).
  unfold cancel_job. rewrite Hrow.
  case_bool_decide as Hst.
  - split_and!.
    + split; [by eexists _, _ | done].
    + done.
    + intros Hn. by destruct Hn.
  - split_and!.
    + split; [done | by intros (code & detail & ?)].
    + intros H. by destruct Hst.
    + intros _. eexists _, _. split; [reflexivity|]. split_and!; try done.
      * solve_written.
      * rewrite if_redis_db. unfold commit; cbn. by rewrite Hid.
      * unfold if_redis. destruct (USE_REDIS settings); [|done]. cbn.
        rewrite Hid. split_and!; try done.
        -- apply lookup_delete_eq.
        -- rewrite elem_of_difference, elem_of_singleton. tauto.
        -- intros k Hk. rewrite elem_of_difference, elem_of_singleton. tauto.
Qed.

(** C5. [retry_job] on an existing job raises an HTTP error whenever the
    status is neither FAILED nor CANCELLED, and then nothing is changed.
    Otherwise it returns the job with status QUEUED, [attempt] 0 and
    [error_message], [result], [started_at], [completed_at],
    [duration_seconds] and [next_retry_at] cleared, no other column written
    and no other row touched, and where Redis is in use the id is in the
    sorted set with the score of its priority. Consequently submitting a
    job, cancelling it and retrying it gives back the job as submitted, in
    particular QUEUED with [attempt] 0. *)
Theorem retry_job_rejects_or_requeues
    (job_id : uuid) (s : State) (job : Job.t)
    (data : JobCreate.t) (username : string) (new_id : uuid)
    (submit_time cancel_time : datetime) :
  wf_db s ->
  db s !! job_id = Some job ->
  (~ (Job.status job = FAILED \/ Job.status job = CANCELLED) ->
     retry_job settings job_id s
     = HTTPException 400 "Can only retry failed or cancelled jobs"
     /\ state_after s (retry_job settings job_id s) = s)
  /\ (Job.status job = FAILED \/ Job.status job = CANCELLED ->
      exists job' s',
        retry_job settings job_id s = Ok job' s'
        /\ Job.status job' = QUEUED
        /\ Job.attempt job' = 0
        /\ Job.error_message job' = None
        /\ Job.result job' = None
        /\ Job.started_at job' = None
        /\ Job.completed_at job' = None
        /\ Job.duration_seconds job' = None
        /\ Job.next_retry_at job' = None
        /\ written_only
             [c_status; c_attempt; c_error_message; c_result; c_started_at;
              c_completed_at; c_duration_seconds; c_next_retry_at] job job'
        /\ db s' = <[job_id := job']> (db s)
        /\ if USE_REDIS settings
           then QUEUE_KEY (redis s')
                = <[job_id := - Job.priority job]> (QUEUE_KEY (redis s))
           else redis s' = redis s)
  /\ (let (J, s1) := create_job settings data username new_id submit_time s in
      exists J2 s2 J3 s3,
        cancel_job settings new_id cancel_time s1 = Ok J2 s2
        /\ retry_job settings new_id s2 = Ok J3 s3
        /\ db s3 !! new_id = Some J3
        /\ Job.status J3 = QUEUED
        /\ Job.attempt J3 = 0
        /\ J3 = J).
Proof.
  intros Hwf Hrow.
  assert (Job.id job = job_id) as Hid by exact (Hwf _ _ Hrow).
  split_and!.
  - intros Hst. unfold retry_job. rewrite Hrow.
    by rewrite bool_decide_eq_true_2.
  - intros Hst. unfold retry_job. rewrite Hrow.
    rewrite bool_decide_eq_false_2 by (by intros Hn).
    eexists _, _. split; [reflexivity|]. split_and!; try done.
    + solve_written.
    + rewrite if_redis_db. unfold commit; cbn. by rewrite Hid.
    + unfold if_redis. destruct (USE_REDIS settings); [|done]. cbn.
      by rewrite Hid.
  - unfold create_job. cbn zeta.
    set (J := Job.mk new_id _ _ _ _ _ _ _ _ _ _ _ _ _ _ _ _ _).
    set (s1 := if_redis settings _ (commit J s)).
    assert (db s1 !! new_id = Some J) as H1.
    { unfold s1. rewrite if_redis_db. apply (commit_lookup J). }
    rewrite (cancel_job_ok new_id cancel_time s1 J H1)
      by (by intros [Hc|Hc]).
    cbn zeta.
    set (J2 := Job.set_completed_at _ _).
    set (s2 := if_redis settings _ (commit J2 s1)).
    assert (db s2 !! new_id = Some J2) as H2.
    { unfold s2. rewrite if_redis_db. apply (commit_lookup J2). }
    exists J2, s2.
    rewrite (retry_job_ok new_id s2 J2 H2) by (by right).
    cbn zeta.
    eexists _, _. split; [reflexivity|]. split; [reflexivity|].
    split_and!; try done.
    rewrite if_redis_db. apply (commit_lookup J).
Qed.

(** *** The attempt counter under the operations of the core *)

(** The store after a cancel, and after a step on the current row. *)
Lemma cancel_job_db (job_id : uuid) (now : datetime) (s : State) :
  wf_db s ->
  db (state_after s (cancel_job settings job_id now s)) = db s
  \/ exists job job',
       db s !! job_id = Some job
       /\ db (state_after s (cancel_job settings job_id now s))
          = <[job_id := job']> (db s)
       /\ Job.attempt job' = Job.attempt job.
Proof.
  intros Hwf.
  destruct (db s !! job_id) as [job|] eqn:Hrow.
  - assert (Job.id job = job_id) as Hid by exact (Hwf _ _ Hrow).
    destruct (decide (Job.status job = COMPLETED \/ Job.status job = CANCELLED))
      as [Hst|Hst].
    + left. unfold cancel_job. rewrite Hrow.
      by rewrite bool_decide_eq_true_2.
    + right. rewrite (cancel_job_ok job_id now s job Hrow Hst).
      exists job, (Job.set_completed_at (Some now) (Job.set_status CANCELLED job)).
      split; [done|]. cbn [state_after].
      rewrite if_redis_db. unfold commit. cbn. by rewrite Hid.
  - left. unfold cancel_job. by rewrite Hrow.
Qed.

Lemma on_row_db (job_id : uuid) (f : Job.t -> State -> State) (s : State) :
  wf_db s ->
  (forall job, db s !! job_id = Some job ->
     exists job', db (f job s) = <[job_id := job']> (db s)
                  /\ Job.attempt job' = Job.attempt job) ->
  db (on_row job_id f s) = db s
  \/ exists job job',
       db s !! job_id = Some job
       /\ db (on_row job_id f s) = <[job_id := job']> (db s)
       /\ Job.attempt job' = Job.attempt job.
Proof.
  intros Hwf Hf. unfold on_row.
  destruct (db s !! job_id) as [job|] eqn:Hrow; [|by left].
  destruct (Hf job eq_refl) as (job' & Hdb & Hatt). right. by exists job, job'.
Qed.

(** Reading off the counter of a row after a step of one of the two shapes
    above. *)
Lemma attempt_after (P : Z -> Z -> Prop) (s : State) (d : gmap uuid Job.t)
    (job_id k : uuid) (j j' : Job.t) :
  (forall a, P a a) ->
  d = db s
  \/ (exists job job',
        db s !! job_id = Some job
        /\ d = <[job_id := job']> (db s)
        /\ P (Job.attempt job) (Job.attempt job')) ->
  db s !! k = Some j ->
  d !! k = Some j' ->
  P (Job.attempt j) (Job.attempt j').
Proof.
  intros Hrefl [-> | (job & job' & Hrow & -> & HP)] Hj Hj'.
  - assert (j' = j) as -> by congruence. apply Hrefl.
  - destruct (decide (job_id = k)) as [<-|Hne].
    + rewrite lookup_insert_eq in Hj'.
      assert (j = job) as -> by congruence.
      assert (j' = job') as -> by congruence. done.
    + rewrite lookup_insert_ne in Hj' by done.
      assert (j' = j) as -> by congruence. apply Hrefl.
Qed.

(** Reading off the counter of a row after a step that rewrites the row of
    [job_id] when that row meets [hit], and nothing otherwise. *)
Lemma attempt_after_hit (hit : Job.t -> Prop) `{!forall job, Decision (hit job)}
    (f : Z -> Z) (s : State) (d : gmap uuid Job.t) (job_id k : uuid)
    (j j' : Job.t) :
  (forall job, db s !! job_id = Some job -> hit job ->
     exists job', d = <[job_id := job']> (db s)
                  /\ Job.attempt job' = f (Job.attempt job)) ->
  ((forall job, db s !! job_id = Some job -> ~ hit job) -> d = db s) ->
  db s !! k = Some j ->
  d !! k = Some j' ->
  if bool_decide (k = job_id /\ hit j)
  then Job.attempt j' = f (Job.attempt j)
  else Job.attempt j' = Job.attempt j.
Proof.
  intros Hhit Hmiss Hj Hj'. case_bool_decide as Hcase.
  - destruct Hcase as [-> Hh].
    destruct (Hhit j Hj Hh) as (job' & -> & Hatt).
    rewrite lookup_insert_eq in Hj'. by injection Hj' as <-.
  - destruct (db s !! job_id) as [job|] eqn:Hrow.
    + destruct (decide (hit job)) as [Hh|Hh].
      * destruct (Hhit job eq_refl Hh) as (job' & -> & _).
        destruct (decide (k = job_id)) as [->|Hne];
          [exfalso; apply Hcase; split; [done|congruence]|].
        rewrite lookup_insert_ne in Hj' by done. congruence.
      * rewrite Hmiss in Hj' by (intros ? [= <-]; done). congruence.
    + rewrite Hmiss in Hj' by done. congruence.
Qed.

(** C6 (as the code has it). Across one operation of the core the attempt
    counter of a job is unchanged, but for two cases. A claim (alone or
    inside [execute]) takes the counter of the job it claims one higher:
    that is the row of the id given, when its status is PENDING, QUEUED or
    RETRYING and it is not locked. The explicit retry of the API resets the
    counter of the job it retries to 0: that is the row of the id given,
    when its status is FAILED or CANCELLED. Every other job, and the job of
    the id given when it is not claimed or when the retry is rejected, keeps
    its counter; completing, failing, the retry sweep and cancel leave
    every counter unchanged. *)
Theorem attempt_changes_by_operation
    (op : Op) (s : State) (k : uuid) (j j' : Job.t) :
  wf_db s ->
  db s !! k = Some j ->
  db (apply_op settings HANDLER_MAP format_JobType op s) !! k = Some j' ->
  match op with
  | OpRetry job_id =>
      if bool_decide (k = job_id
                      /\ (Job.status j = FAILED \/ Job.status j = CANCELLED))
      then Job.attempt j' = 0
      else Job.attempt j' = Job.attempt j
  | OpExecute _ locked _ job_id | OpClaim _ locked _ job_id =>
      if bool_decide (k = job_id
                      /\ (claimable (Job.status j) = true /\ job_id ∉ locked))
      then Job.attempt j' = Job.attempt j + 1
      else Job.attempt j' = Job.attempt j
  | _ => Job.attempt j' = Job.attempt j
  end.
Proof.
  intros Hwf Hj Hj'. destruct op as
    [self locked clock job_id | self locked now job_id | now job_id result
    | now job_id error | now job_id error | locked now | job_id now | job_id];
    cbn [apply_op] in Hj'.
  - refine (attempt_after_hit
              (fun job => claimable (Job.status job) = true /\ job_id ∉ locked)
              (fun a => a + 1) s _ job_id k j j' _ _ Hj Hj').
    + intros job Hrow [Hst Hfree].
      destruct (execute_db_claimed self locked clock job_id s job Hwf)
        as (job' & Hdb & _ & Hatt); [by apply select_claimable_Some|].
      by exists job'.
    + intros Hmiss. unfold execute, _claim_job.
      assert (select_claimable locked job_id s = None) as ->; [|done].
      apply select_claimable_None. intros job Hrow.
      destruct (claimable (Job.status job)) eqn:Hst; [|by left].
      destruct (decide (job_id ∈ locked)) as [Hl|Hl]; [by right|].
      by destruct (Hmiss job Hrow).
  - refine (attempt_after_hit
              (fun job => claimable (Job.status job) = true /\ job_id ∉ locked)
              (fun a => a + 1) s _ job_id k j j' _ _ Hj Hj').
    + intros job Hrow [Hst Hfree].
      assert (Job.id job = job_id) as Hid by exact (Hwf _ _ Hrow).
      rewrite (claim_job_eq _ _ _ _ _ _ Hrow Hst Hfree).
      exists (claimed self now job). split; [|done].
      unfold commit. cbn [snd db].
      change (Job.id (claimed self now job)) with (Job.id job). by rewrite Hid.
    + intros Hmiss. unfold _claim_job.
      assert (select_claimable locked job_id s = None) as ->; [|done].
      apply select_claimable_None. intros job Hrow.
      destruct (claimable (Job.status job)) eqn:Hst; [|by left].
      destruct (decide (job_id ∈ locked)) as [Hl|Hl]; [by right|].
      by destruct (Hmiss job Hrow).
  - refine (attempt_after (fun a a' => a' = a) s _ job_id k j j' _ _ Hj Hj');
      [done|].
    apply on_row_db; [done|]. intros job Hrow.
    assert (Job.id job = job_id) as Hid by exact (Hwf _ _ Hrow).
    destruct (complete_job_db now job result s) as (Hdb & _ & Hatt).
    rewrite Hid in Hdb. eauto.
  - refine (attempt_after (fun a a' => a' = a) s _ job_id k j j' _ _ Hj Hj');
      [done|].
    apply on_row_db; [done|]. intros job Hrow.
    assert (Job.id job = job_id) as Hid by exact (Hwf _ _ Hrow).
    destruct (handle_failure_db now job error s) as (Hdb & _ & Hatt).
    rewrite Hid in Hdb. eauto.
  - refine (attempt_after (fun a a' => a' = a) s _ job_id k j j' _ _ Hj Hj');
      [done|].
    apply on_row_db; [done|]. intros job Hrow.
    assert (Job.id job = job_id) as Hid by exact (Hwf _ _ Hrow).
    destruct (fail_job_db now job error s) as (Hdb & _ & Hatt).
    rewrite Hid in Hdb. eauto.
  - pose proof (retry_loop_attempt locked now s k Hwf) as Heq.
    rewrite Hj, Hj' in Heq. by injection Heq.
  - refine (attempt_after (fun a a' => a' = a) s _ job_id k j j' _ _ Hj Hj');
      [done|].
    apply (cancel_job_db job_id now s Hwf).
  - refine (attempt_after_hit
              (fun job => Job.status job = FAILED \/ Job.status job = CANCELLED)
              (fun _ => 0) s _ job_id k j j' _ _ Hj Hj').
    + intros job Hrow Hst.
      assert (Job.id job = job_id) as Hid by exact (Hwf _ _ Hrow).
      rewrite (retry_job_ok job_id s job Hrow Hst).
      eexists. cbn [state_after]. rewrite if_redis_db. unfold commit. cbn.
      rewrite Hid. split; reflexivity.
    + intros Hmiss. unfold retry_job.
      destruct (db s !! job_id) as [job|] eqn:Hrow; [|done].
      rewrite bool_decide_eq_true_2; [done|]. by apply Hmiss.
Qed.

End Properties.

(** * The properties on the sample runs *)

Lemma empty_state_wf : wf_db empty_state.
Proof. apply map_Forall_empty. Qed.

Lemma submitted_wf (job_type : JobType) (priority max_retries : Z) (fail : bool) :
  wf_db (submitted job_type priority max_retries fail).
Proof. apply create_job_wf, empty_state_wf. Qed.

Lemma submitted_row (job_type : JobType) (priority max_retries : Z) (fail : bool) :
  db (submitted job_type priority max_retries fail) !! 7%N
  = Some (submitted_job job_type priority max_retries fail).
Proof. apply lookup_insert_eq. Qed.

Lemma sample_run_wf (job_type : JobType) (priority max_retries : Z) (fail : bool)
    (n : nat) :
  wf_db (sample_run job_type priority max_retries fail n).
Proof. apply executions_wf, submitted_wf. Qed.

(** C3, on the sample job: the first claim of the submitted job succeeds. *)
Lemma claim_job_claims_or_leaves_untouched_witness :
  exists job' s',
    _claim_job "w1" ∅ 100%Q 7%N (submitted EMAIL 5 2 true) = (Some job', s')
    /\ Job.status job' = RUNNING
    /\ Job.started_at job' = Some 100%Q
    /\ Job.worker_id job' = Some "w1"
    /\ Job.attempt job' = 1.
Proof.
  destruct (claim_job_claims_or_leaves_untouched "w1" ∅ 100%Q 7%N
              (submitted EMAIL 5 2 true) (submitted_wf EMAIL 5 2 true))
    as [(job & job' & s' & Hrow & _ & _ & Heq & Hs & Ht & Hw & Hatt & _)
       | [Hno _]].
  - exists job', s'. rewrite submitted_row in Hrow. injection Hrow as <-.
    split_and!; done.
  - destruct (Hno _ (submitted_row EMAIL 5 2 true)) as [H|H];
      [discriminate H | by apply not_elem_of_empty in H].
Defined.

(** C2, on the sample job with [max_retries = 2]: the first failure leaves
    it RETRYING, two seconds of back-off ahead. *)
Lemma execute_recoverable_failure_witness :
  exists job' s',
    execute default_settings sample_handlers sample_format "w1" ∅
      (sample_clocks 1) 7%N (submitted EMAIL 5 2 true) = (false, s')
    /\ db s' !! 7%N = Some job'
    /\ Job.status job' = RETRYING
    /\ Job.next_retry_at job' = Some (inject_Z 101 + 2 ^ 1)%Q
    /\ Job.error_message job'
       = Some "Attempt 1 failed: SMTP connection refused (simulated)"
    /\ RedisQueue.stat "retries" (redis s') = 1.
Proof.
  destruct (execute_recoverable_failure default_settings sample_handlers
              sample_format "w1" ∅ (sample_clocks 1) 7%N
              (submitted EMAIL 5 2 true) (submitted_job EMAIL 5 2 true) _ _
              (submitted_wf EMAIL 5 2 true) (submitted_row EMAIL 5 2 true)
              eq_refl (not_elem_of_empty _) eq_refl eq_refl)
    as (job' & s' & Hex & Hdb & Hatt & Hretry & _).
  destruct Hretry as (Hs & Hn & He & _ & _ & Hr & _); [reflexivity|].
  exists job', s'. split_and!; try done.
  rewrite Hdb. apply lookup_insert_eq.
Defined.

(** C10, on the sample job as claimed for its first attempt. *)
Lemma handle_failure_retry_writes_three_columns_witness :
  exists job' s',
    _handle_failure default_settings 101%Q
      (claimed "w1" 100%Q (submitted_job EMAIL 5 2 true)) "boom"
      (submitted EMAIL 5 2 true) = (job', s')
    /\ Job.status job' = RETRYING
    /\ Job.attempt job' = 1
    /\ Job.started_at job' = Some 100%Q
    /\ Job.completed_at job' = None
    /\ Job.duration_seconds job' = None
    /\ Job.result job' = None.
Proof.
  destruct (handle_failure_retry_writes_three_columns default_settings 101%Q
              (claimed "w1" 100%Q (submitted_job EMAIL 5 2 true)) "boom"
              (submitted EMAIL 5 2 true))
    as (job' & s' & Heq & Hs & _ & (Ha & _ & Hst & _) & _ & Hc & Hd & Hr);
    [reflexivity|].
  exists job', s'. split_and!; try done.
  - by apply Hc.
  - by apply Hd.
  - by apply Hr.
Defined.

(** C7, on a sample job whose handler answers. *)
Lemma execute_success_witness :
  exists job' s',
    execute default_settings sample_handlers sample_format "w1" ∅
      (sample_clocks 1) 7%N (submitted EMAIL 5 2 false) = (true, s')
    /\ db s' !! 7%N = Some job'
    /\ Job.status job' = COMPLETED
    /\ Job.result job' = Some [("status", JStr "sent")]
    /\ Job.completed_at job' = Some (inject_Z 101)
    /\ Job.duration_seconds job' = Some (inject_Z 101 - inject_Z 100)%Q
    /\ Job.error_message job' = None
    /\ Job.attempt job' = 1
    /\ RedisQueue.stat "completed" (redis s') = 1.
Proof.
  destruct (execute_success default_settings sample_handlers
              sample_format "w1" ∅ (sample_clocks 1) 7%N
              (submitted EMAIL 5 2 false) (submitted_job EMAIL 5 2 false) _ _
              (submitted_wf EMAIL 5 2 false) (submitted_row EMAIL 5 2 false)
              eq_refl (not_elem_of_empty _) eq_refl eq_refl)
    as (job' & s' & Hex & Hdb & Hs & Hres & _ & Hc & Hd & He & Ha & _ & _ & Hr).
  destruct Hr as (_ & Hr & _).
  exists job', s'. split_and!; try done.
  rewrite Hdb. apply lookup_insert_eq.
Defined.

(** C9, on a sample job of a type without handler, submitted with
    [max_retries = 3]. *)
Lemma execute_missing_handler_witness :
  exists job' s',
    execute default_settings sample_handlers sample_format "w1" ∅
      (sample_clocks 1) 7%N (submitted DATA_CLEANING 5 3 false) = (false, s')
    /\ db s' !! 7%N = Some job'
    /\ Job.status job' = FAILED
    /\ Job.error_message job' = Some "No handler for type: JobType.DATA_CLEANING"
    /\ Job.attempt job' = 1
    /\ Job.next_retry_at job' = None
    /\ RedisQueue.stat "retries" (redis s') = 0.
Proof.
  destruct (execute_missing_handler default_settings sample_handlers
              sample_format "w1" ∅ (sample_clocks 1) 7%N
              (submitted DATA_CLEANING 5 3 false)
              (submitted_job DATA_CLEANING 5 3 false)
              (submitted_wf DATA_CLEANING 5 3 false)
              (submitted_row DATA_CLEANING 5 3 false)
              eq_refl (not_elem_of_empty _) eq_refl)
    as (job' & s' & Hex & Hdb & Hs & He & _ & _ & Ha & _ & Hn & Hr & _).
  exists job', s'. split_and!; try done.
  - rewrite Hdb. apply lookup_insert_eq.
  - by apply Ha.
  - by apply Hn.
Defined.

(** C8, on the sample job: cancelled while still queued. *)
Lemma cancel_job_rejects_or_cancels_witness :
  exists job' s',
    cancel_job default_settings 7%N 50%Q (submitted EMAIL 5 2 true) = Ok job' s'
    /\ Job.status job' = CANCELLED
    /\ Job.completed_at job' = Some 50%Q
    /\ QUEUE_KEY (redis s') !! 7%N = None
    /\ (7%N ∉ PROCESSING_KEY (redis s')).
Proof.
  destruct (cancel_job_rejects_or_cancels default_settings 7%N 50%Q
              (submitted EMAIL 5 2 true) (submitted_job EMAIL 5 2 true)
              (submitted_wf EMAIL 5 2 true) (submitted_row EMAIL 5 2 true))
    as (_ & _ & Hcancel).
  destruct Hcancel as (job' & s' & Heq & Hs & Hc & _ & _ & Hr).
  { intros [H|H]; discriminate H. }
  destruct Hr as (_ & Hq & Hp & _).
  by exists job', s'.
Defined.

(** C5, on the sample job after it failed for good: the API retry puts it
    back in the queue with a fresh counter; and the round trip for a second
    job submitted under id 8. *)
Lemma retry_job_rejects_or_requeues_witness :
  (exists job' s',
     retry_job default_settings 7%N (sample_run EMAIL 5 2 true 2) = Ok job' s'
     /\ Job.status job' = QUEUED
     /\ Job.attempt job' = 0
     /\ Job.error_message job' = None
     /\ Job.completed_at job' = None
     /\ Job.next_retry_at job' = None
     /\ QUEUE_KEY (redis s') !! 7%N = Some (-5))
  /\ (let (J, s1) :=
        create_job default_settings (sample_request AI_TASK 10 3 false) "bob"
          8%N 10%Q (sample_run EMAIL 5 2 true 2) in
      exists J2 s2 J3 s3,
        cancel_job default_settings 8%N 20%Q s1 = Ok J2 s2
        /\ retry_job default_settings 8%N s2 = Ok J3 s3
        /\ db s3 !! 8%N = Some J3
        /\ Job.status J3 = QUEUED
        /\ Job.attempt J3 = 0
        /\ J3 = J).
Proof.
  assert (exists job,
            db (sample_run EMAIL 5 2 true 2) !! 7%N = Some job
            /\ Job.status job = FAILED /\ Job.priority job = 5)
    as (job & Hrow & Hst & Hprio).
  { eexists. split; [vm_compute; reflexivity|]. split; reflexivity. }
  destruct (retry_job_rejects_or_requeues default_settings 7%N
              (sample_run EMAIL 5 2 true 2) job
              (sample_request AI_TASK 10 3 false) "bob" 8%N 10%Q 20%Q
              (sample_run_wf EMAIL 5 2 true 2) Hrow)
    as (_ & Hretry & Hround).
  split; [|exact Hround].
  destruct Hretry as (job' & s' & Heq & Hs & Ha & He & _ & _ & Hc & _ & Hn & _ & _ & Hr);
    [by left|].
  exists job', s'. split_and!; try done.
  cbn in Hr. rewrite Hr, Hprio. apply lookup_insert_eq.
Defined.

(** C6 (as the code has it), on the sample job: its first execution takes
    the counter from 0 to 1, and the explicit retry of the job, FAILED after
    its second attempt, takes the counter from 2 to 0. *)
Lemma attempt_changes_by_operation_witness :
  (exists j',
     db (apply_op default_settings sample_handlers sample_format
           (OpExecute "w1" ∅ (sample_clocks 1) 7%N) (submitted EMAIL 5 2 true))
       !! 7%N = Some j'
     /\ Job.attempt j' = Job.attempt (submitted_job EMAIL 5 2 true) + 1
     /\ Job.attempt j' = 1)
  /\ (exists j j',
        db (sample_run EMAIL 5 2 true 2) !! 7%N = Some j
        /\ Job.status j = FAILED
        /\ Job.attempt j = 2
        /\ db (apply_op default_settings sample_handlers sample_format
                 (OpRetry 7%N) (sample_run EMAIL 5 2 true 2)) !! 7%N = Some j'
        /\ Job.attempt j' = 0).
Proof.
  split.
  - destruct (db (apply_op default_settings sample_handlers sample_format
                    (OpExecute "w1" ∅ (sample_clocks 1) 7%N)
                    (submitted EMAIL 5 2 true)) !! 7%N) as [j'|] eqn:Hrow';
      [|by vm_compute in Hrow'].
    pose proof (attempt_changes_by_operation default_settings sample_handlers
                  sample_format (OpExecute "w1" ∅ (sample_clocks 1) 7%N)
                  (submitted EMAIL 5 2 true) 7%N (submitted_job EMAIL 5 2 true) j'
                  (submitted_wf EMAIL 5 2 true) (submitted_row EMAIL 5 2 true)
                  Hrow') as Hatt.
    cbv beta iota in Hatt. rewrite bool_decide_eq_true_2 in Hatt
      by (split_and!; [done|done|apply not_elem_of_empty]).
    exists j'. split_and!; [done|exact Hatt|exact Hatt].
  - destruct (db (sample_run EMAIL 5 2 true 2) !! 7%N) as [j|] eqn:Hrow;
      [|by vm_compute in Hrow].
    destruct (db (apply_op default_settings sample_handlers sample_format
                    (OpRetry 7%N) (sample_run EMAIL 5 2 true 2)) !! 7%N)
      as [j'|] eqn:Hrow'; [|by vm_compute in Hrow'].
    assert (Job.status j = FAILED /\ Job.attempt j = 2) as [Hst Ha].
    { vm_compute in Hrow. by injection Hrow as <-. }
    pose proof (attempt_changes_by_operation default_settings sample_handlers
                  sample_format (OpRetry 7%N) (sample_run EMAIL 5 2 true 2)
                  7%N j j' (sample_run_wf EMAIL 5 2 true 2) Hrow Hrow') as Hatt.
    cbv beta iota in Hatt. rewrite bool_decide_eq_true_2 in Hatt
      by (split; [done|by left]).
    by exists j, j'.
Defined.

(** C6, as stated, fails: the sample job, FAILED after its second attempt
    with [attempt = 2], is taken back to [attempt = 0] by the explicit retry
    of the API. *)
Lemma attempt_monotone_counterexample :
  ~ (forall (op : Op) (s : State) (k : uuid) (j j' : Job.t),
       wf_db s ->
       db s !! k = Some j ->
       db (apply_op default_settings sample_handlers sample_format op s) !! k
         = Some j' ->
       Job.attempt j <= Job.attempt j').
Proof.
  intros H.
  destruct (db (sample_run EMAIL 5 2 true 2) !! 7%N) as [j|] eqn:Hj;
    [|by vm_compute in Hj].
  destruct (db (apply_op default_settings sample_handlers sample_format
                  (OpRetry 7%N) (sample_run EMAIL 5 2 true 2)) !! 7%N)
    as [j'|] eqn:Hj'; [|by vm_compute in Hj'].
  pose proof (H _ _ _ _ _ (sample_run_wf EMAIL 5 2 true 2) Hj Hj') as Hle.
  vm_compute in Hj, Hj'. injection Hj as <-. injection Hj' as <-.
  vm_compute in Hle. by apply Hle.
Qed.

(** C1 (as the code has it), on the sample job with [max_retries = 2] and
    the default base 2: the first attempt ends RETRYING with
    [next_retry_at] two seconds after the failure was recorded, the second
    attempt ends FAILED with the handler's error as message, and a third
    execution finds nothing to claim; the [retries] counter was incremented
    once and the [failed] counter once. *)
Lemma always_failing_job_timeline_witness :
  (exists j1,
     db (sample_run EMAIL 5 2 true 1) !! 7%N = Some j1
     /\ Job.status j1 = RETRYING
     /\ Job.attempt j1 = 1
     /\ Job.next_retry_at j1 = Some (inject_Z 101 + 2 ^ 1)%Q
     /\ RedisQueue.stat "retries" (redis (sample_run EMAIL 5 2 true 1)) = 1
     /\ RedisQueue.stat "failed" (redis (sample_run EMAIL 5 2 true 1)) = 0)
  /\ (exists j2,
        db (sample_run EMAIL 5 2 true 2) !! 7%N = Some j2
        /\ Job.status j2 = FAILED
        /\ Job.attempt j2 = 2
        /\ Job.error_message j2 = Some "SMTP connection refused (simulated)"
        /\ RedisQueue.stat "retries" (redis (sample_run EMAIL 5 2 true 2)) = 1
        /\ RedisQueue.stat "failed" (redis (sample_run EMAIL 5 2 true 2)) = 1)
  /\ (exists j3,
        db (sample_run EMAIL 5 2 true 3) !! 7%N = Some j3
        /\ Job.status j3 = FAILED
        /\ Job.attempt j3 = 2
        /\ RedisQueue.stat "retries" (redis (sample_run EMAIL 5 2 true 3)) = 1).
Proof.
  pose proof (fun n =>
    always_failing_job_timeline default_settings sample_handlers sample_format
      "w1" sample_clocks 7%N (submitted EMAIL 5 2 true)
      (submitted_job EMAIL 5 2 true) _ _ n
      (submitted_wf EMAIL 5 2 true) (submitted_row EMAIL 5 2 true)
      eq_refl eq_refl eq_refl eq_refl) as T.
  split_and!.
  - destruct (T 1%nat) as [H1 _].
    destruct H1 as (j1 & Hrow & Hs & Ha & Hn & _ & Hr & Hf);
      [apply le_n | reflexivity |].
    by exists j1.
  - destruct (T 2%nat) as [_ H2].
    destruct H2 as (j2 & Hrow & Hs & Ha & He & _ & Hr & Hf);
      [discriminate |].
    by exists j2.
  - destruct (T 3%nat) as [_ H3].
    destruct H3 as (j3 & Hrow & Hs & Ha & _ & _ & Hr & _);
      [discriminate |].
    by exists j3.
Defined.

(** C1, as stated, fails on the sample job with [max_retries = 2]: the
    second attempt does not end RETRYING with a back-off of [base^2] but
    FAILED, no attempt 3 takes place, and the [retries] counter is
    incremented once, not twice. *)
Lemma always_failing_job_timeline_counterexample :
  ~ (exists j1 j2 j3,
       (db (sample_run EMAIL 5 2 true 1) !! 7%N = Some j1
        /\ Job.status j1 = RETRYING
        /\ Job.next_retry_at j1 = Some (inject_Z 101 + 2 ^ 1)%Q)
       /\ (db (sample_run EMAIL 5 2 true 2) !! 7%N = Some j2
           /\ Job.status j2 = RETRYING
           /\ Job.next_retry_at j2 = Some (inject_Z 201 + 2 ^ 2)%Q)
       /\ (db (sample_run EMAIL 5 2 true 3) !! 7%N = Some j3
           /\ Job.status j3 = FAILED
           /\ Job.attempt j3 = 3)
       /\ RedisQueue.stat "retries" (redis (sample_run EMAIL 5 2 true 3))
          = RedisQueue.stat "retries" (redis (submitted EMAIL 5 2 true)) + 2
       /\ RedisQueue.stat "failed" (redis (sample_run EMAIL 5 2 true 3))
          = RedisQueue.stat "failed" (redis (submitted EMAIL 5 2 true)) + 1).
Proof.
  intros (j1 & j2 & j3 & _ & (H2 & Hs2 & _) & _).
  vm_compute in H2. injection H2 as <-. discriminate Hs2.
Qed.

(** C4 fails on the code for priority 0. The sample job submitted with
    priority 0 is RETRYING after its first failed attempt and due at time
    1000; the sweep selects it, leaves its row RETRYING, and enqueues its id
    with score -5, the score of priority 5, where the job's own priority 0
    has score 0. *)
Theorem retry_sweep_requeues_priority_zero_at_five :
  let s := sample_run EMAIL 0 2 true 1 in
  let s' := _retry_loop default_settings ∅ 1000%Q s in
  retry_ids default_settings 1000%Q s = [7%N]
  /\ Job.priority <$> db s !! 7%N = Some 0
  /\ Job.status <$> db s' !! 7%N = Some RETRYING
  /\ QUEUE_KEY (redis s') !! 7%N = Some (-5)
  /\ QUEUE_KEY (redis s') !! 7%N ≠ Some (- 0).
Proof.
  cbn zeta. split_and!; try (vm_compute; reflexivity).
  vm_compute. discriminate.
Qed.

(** * Further properties of the queue, the dispatcher and the API *)

Section Coverage.

Variable settings : Settings.
Variable HANDLER_MAP : JobType -> option Handler.
Variable format_JobType : JobType -> string.

(** *** The sorted set and the processing set *)

(** The order [zpopmin] pops in, as a relation. *)
Lemma zless_false_le (a b : uuid * Z) :
  RedisQueue.zless a b = false -> b.2 < a.2 \/ (b.2 = a.2 /\ (b.1 <= a.1)%N).
Proof.
  unfold RedisQueue.zless. intros H.
  apply orb_false_iff in H as [H1 H2].
  apply Z.ltb_ge in H1. apply andb_false_iff in H2 as [H2|H2].
  - apply Z.eqb_neq in H2. left. lia.
  - apply N.ltb_ge in H2. destruct (decide (b.2 = a.2)); [by right | left; lia].
Qed.

Lemma zless_true_le (a b : uuid * Z) :
  RedisQueue.zless a b = true -> a.2 < b.2 \/ (a.2 = b.2 /\ (a.1 <= b.1)%N).
Proof.
  unfold RedisQueue.zless. intros H.
  apply orb_true_iff in H as [H|H].
  - apply Z.ltb_lt in H. by left.
  - apply andb_true_iff in H as [H1 H2]. apply Z.eqb_eq in H1.
    apply N.ltb_lt in H2. right. split; [done|lia].
Qed.

Lemma zfirst_fold (l : list (uuid * Z)) :
  match foldr RedisQueue.zfirst None l with
  | None => l = []
  | Some m =>
      m ∈ l
      /\ forall x, x ∈ l -> m.2 < x.2 \/ (m.2 = x.2 /\ (m.1 <= x.1)%N)
  end.
Proof.
  induction l as [|kv l IH]; [done|]. cbn.
  destruct (foldr RedisQueue.zfirst None l) as [b|]; cbn.
  - destruct IH as [Hin Hmin].
    destruct (RedisQueue.zless kv b) eqn:Hless.
    + split; [apply list_elem_of_here|]. intros x Hx.
      apply elem_of_cons in Hx as [->|Hx]; [right; split; [done|lia]|].
      apply zless_true_le in Hless. destruct (Hmin x Hx); lia.
    + split; [by apply list_elem_of_further|]. intros x Hx.
      apply elem_of_cons in Hx as [->|Hx]; [by apply zless_false_le|].
      by apply Hmin.
  - subst l. split; [apply list_elem_of_here|]. intros x Hx.
    apply elem_of_cons in Hx as [->|Hx]; [right; split; [done|lia]|].
    by apply elem_of_nil in Hx.
Qed.

Lemma Redis_eq (r r' : Redis) :
  QUEUE_KEY r = QUEUE_KEY r' ->
  PROCESSING_KEY r = PROCESSING_KEY r' ->
  STATS_KEY r = STATS_KEY r' ->
  job_events r = job_events r' ->
  r = r'.
Proof. destruct r, r'; cbn. by intros -> -> -> ->. Qed.

(** What [dequeue] returns and what it leaves. *)
Lemma dequeue_spec (r : Redis) :
  match RedisQueue.dequeue r with
  | (Some job_id, r') =>
      exists score,
        QUEUE_KEY r !! job_id = Some score
        /\ (forall k sc, QUEUE_KEY r !! k = Some sc ->
              score < sc \/ (score = sc /\ (job_id <= k)%N))
        /\ QUEUE_KEY r' = delete job_id (QUEUE_KEY r)
        /\ PROCESSING_KEY r' = {[job_id]} ∪ PROCESSING_KEY r
        /\ STATS_KEY r' = STATS_KEY r
        /\ job_events r' = job_events r
        /\ RedisQueue.queue_length r = S (RedisQueue.queue_length r')
  | (None, r') => r' = r /\ QUEUE_KEY r = ∅
  end.
Proof.
  unfold RedisQueue.dequeue, RedisQueue.zpopmin.
  pose proof (zfirst_fold (map_to_list (QUEUE_KEY r))) as Hfold.
  destruct (foldr RedisQueue.zfirst None (map_to_list (QUEUE_KEY r)))
    as [[member score]|].
  - destruct Hfold as [Hin Hmin]. apply elem_of_map_to_list in Hin.
    exists score. split_and!; try done.
    + intros k sc Hk. apply (Hmin (k, sc)). by apply elem_of_map_to_list.
    + unfold RedisQueue.queue_length; cbn.
      rewrite map_size_delete, Hin.
      assert (size (QUEUE_KEY r) ≠ 0%nat); [|lia].
      apply map_size_non_empty_iff. intros Hempty.
      by rewrite Hempty, lookup_empty in Hin.
  - apply map_to_list_empty_iff in Hfold. split; [|done]. by apply Redis_eq.
Qed.

(** X1. [dequeue] on an empty sorted set returns nothing and changes
    nothing. Otherwise it returns the member of lowest score, that is of
    highest priority (of equal scores, the lowest id), takes exactly that
    member out of the sorted set, so the queue is one shorter, and puts it
    in the processing set; counters and events are untouched. *)
Theorem dequeue_pops_lowest_score (r : Redis) :
  match RedisQueue.dequeue r with
  | (Some job_id, r') =>
      exists score,
        QUEUE_KEY r !! job_id = Some score
        /\ (forall k sc, QUEUE_KEY r !! k = Some sc ->
              score < sc \/ (score = sc /\ (job_id <= k)%N))
        /\ QUEUE_KEY r' = delete job_id (QUEUE_KEY r)
        /\ PROCESSING_KEY r' = {[job_id]} ∪ PROCESSING_KEY r
        /\ STATS_KEY r' = STATS_KEY r
        /\ job_events r' = job_events r
        /\ RedisQueue.queue_length r = S (RedisQueue.queue_length r')
  | (None, r') => r' = r /\ QUEUE_KEY r = ∅
  end.
Proof. apply dequeue_spec. Qed.

(** X2. Two [dequeue]s in a row hand out two different ids, the first of a
    score no higher than the second's, that is of a priority no lower; a
    second [dequeue] that finds nothing means the queue held one entry. *)
Theorem dequeue_in_priority_order (r : Redis) :
  match RedisQueue.dequeue r with
  | (Some a, r1) =>
      match RedisQueue.dequeue r1 with
      | (Some b, _) =>
          a ≠ b
          /\ exists sa sb,
               QUEUE_KEY r !! a = Some sa /\ QUEUE_KEY r !! b = Some sb /\ sa <= sb
      | (None, _) => RedisQueue.queue_length r = 1%nat
      end
  | (None, _) => True
  end.
Proof.
  pose proof (dequeue_spec r) as H1.
  destruct (RedisQueue.dequeue r) as [[a|] r1]; [|done].
  destruct H1 as (sa & Ha & Hmin & Hq & _ & _ & _ & Hlen).
  pose proof (dequeue_spec r1) as H2.
  destruct (RedisQueue.dequeue r1) as [[b|] r2].
  - destruct H2 as (sb & Hb & _). rewrite Hq in Hb.
    apply lookup_delete_Some in Hb as [Hne Hb].
    split; [done|]. exists sa, sb. split_and!; [done..|].
    destruct (Hmin b sb Hb); lia.
  - destruct H2 as [_ Hempty]. rewrite Hlen.
    unfold RedisQueue.queue_length. by rewrite Hempty, map_size_empty.
Qed.

(** X3. [enqueue] is an upsert: it leaves the id in the sorted set with the
    score of the priority given last, whatever was enqueued for the id
    before, without touching another member; the queue grows by one only
    when the id was not in it. *)
Theorem enqueue_is_an_upsert (job_id : uuid) (p p' : Z) (r : Redis) :
  RedisQueue.enqueue job_id p' (RedisQueue.enqueue job_id p r)
  = RedisQueue.enqueue job_id p' r
  /\ QUEUE_KEY (RedisQueue.enqueue job_id p r) !! job_id = Some (- p)
  /\ (forall k, k ≠ job_id ->
        QUEUE_KEY (RedisQueue.enqueue job_id p r) !! k = QUEUE_KEY r !! k)
  /\ RedisQueue.queue_length (RedisQueue.enqueue job_id p r)
     = match QUEUE_KEY r !! job_id with
       | Some _ => RedisQueue.queue_length r
       | None => S (RedisQueue.queue_length r)
       end.
Proof.
  unfold RedisQueue.enqueue, RedisQueue.queue_length; cbn. split_and!.
  - apply Redis_eq; cbn; [apply insert_insert_eq|done..].
  - apply lookup_insert_eq.
  - intros k Hne. by rewrite lookup_insert_ne.
  - rewrite map_size_insert. by destruct (QUEUE_KEY r !! job_id).
Qed.

(** X4. An id enqueued with a priority above that of every other member is
    the next one [dequeue] returns. *)
Theorem enqueue_highest_is_dequeued_next (job_id : uuid) (p : Z) (r : Redis) :
  (forall k sc, QUEUE_KEY r !! k = Some sc -> k ≠ job_id -> - p < sc) ->
  fst (RedisQueue.dequeue (RedisQueue.enqueue job_id p r)) = Some job_id.
Proof.
  intros Hhigh.
  pose proof (dequeue_spec (RedisQueue.enqueue job_id p r)) as H.
  destruct (RedisQueue.dequeue (RedisQueue.enqueue job_id p r)) as [[a|] r'];
    cbn [fst].
  - destruct H as (sa & Ha & Hmin & _).
    destruct (decide (a = job_id)) as [->|Hne]; [done|]. exfalso.
    unfold RedisQueue.enqueue in Ha, Hmin; cbn in Ha, Hmin.
    rewrite lookup_insert_ne in Ha by done.
    pose proof (Hhigh a sa Ha Hne) as Hlt.
    destruct (Hmin job_id (- p) (lookup_insert_eq _ _ _)); lia.
  - destruct H as [_ Hempty]. exfalso.
    unfold RedisQueue.enqueue in Hempty; cbn in Hempty.
    by apply insert_non_empty in Hempty.
Qed.

(** X5. [remove] is final and forgiving: afterwards the id is in neither
    set and [dequeue] does not return it; removing twice is removing once;
    and removing an id that is in neither set changes nothing. *)
Theorem remove_is_final (job_id : uuid) (r : Redis) :
  QUEUE_KEY (RedisQueue.remove job_id r) !! job_id = None
  /\ (job_id ∉ PROCESSING_KEY (RedisQueue.remove job_id r))
  /\ fst (RedisQueue.dequeue (RedisQueue.remove job_id r)) ≠ Some job_id
  /\ RedisQueue.remove job_id (RedisQueue.remove job_id r)
     = RedisQueue.remove job_id r
  /\ (QUEUE_KEY r !! job_id = None -> job_id ∉ PROCESSING_KEY r ->
      RedisQueue.remove job_id r = r).
Proof.
  split_and!.
  - apply remove_gone.
  - apply remove_gone.
  - pose proof (dequeue_spec (RedisQueue.remove job_id r)) as H.
    destruct (RedisQueue.dequeue (RedisQueue.remove job_id r)) as [[a|] r'];
      cbn [fst]; [|done].
    destruct H as (sa & Ha & _). intros [= ->].
    by rewrite (proj1 (remove_gone job_id r)) in Ha.
  - apply Redis_eq; cbn; [apply delete_delete_eq| |done..].
    apply set_eq. intros x. rewrite !elem_of_difference. tauto.
  - intros Hq Hp. apply Redis_eq; cbn; [by apply delete_id| |done..].
    apply set_eq. intros x. rewrite elem_of_difference, elem_of_singleton.
    split; [tauto|]. intros Hx. split; [done|]. by intros ->.
Qed.

(** *** The store fallback of the dispatcher *)

Lemma dispatch_before_spec (a b : uuid * Job.t) :
  dispatch_before a b = true <->
  Job.priority b.2 < Job.priority a.2
  \/ (Job.priority a.2 = Job.priority b.2
      /\ (Job.created_at a.2 < Job.created_at b.2)%Q).
Proof.
  unfold dispatch_before. rewrite orb_true_iff, andb_true_iff, negb_true_iff.
  rewrite Z.ltb_lt, Z.eqb_eq. split.
  - intros [H|[H1 H2]]; [by left|]. right. split; [done|].
    apply Qnot_le_lt. intros Hle. apply Qle_bool_iff in Hle. congruence.
  - intros [H|[H1 H2]]; [by left|]. right. split; [done|].
    destruct (Qle_bool (Job.created_at b.2) (Job.created_at a.2)) eqn:Hle;
      [|done].
    apply Qle_bool_iff in Hle. by apply Qlt_not_le in H2.
Qed.

Lemma dispatch_before_irrefl (a : uuid * Job.t) : dispatch_before a a = false.
Proof.
  apply not_true_iff_false. rewrite dispatch_before_spec.
  intros [H|[_ H]]; [lia|]. by apply Qlt_irrefl in H.
Qed.

Lemma dispatch_before_trans (a b c : uuid * Job.t) :
  dispatch_before a b = true -> dispatch_before b c = true ->
  dispatch_before a c = true.
Proof.
  rewrite !dispatch_before_spec.
  intros [H1|[H1 H1']] [H2|[H2 H2']]; try (left; lia).
  right. split; [lia|]. by apply Qlt_trans with (Job.created_at b.2).
Qed.

Lemma dispatch_first_fold (l : list (uuid * Job.t)) :
  match foldr dispatch_first None l with
  | None => l = []
  | Some m => m ∈ l /\ forall x, x ∈ l -> dispatch_before x m = false
  end.
Proof.
  induction l as [|kv l IH]; [done|]. cbn.
  destruct (foldr dispatch_first None l) as [b|]; cbn.
  - destruct IH as [Hin Hbest].
    destruct (dispatch_before kv b) eqn:Hkv.
    + split; [apply list_elem_of_here|]. intros x Hx.
      apply elem_of_cons in Hx as [->|Hx]; [apply dispatch_before_irrefl|].
      destruct (dispatch_before x kv) eqn:Hx'; [|done].
      rewrite <- (Hbest x Hx). symmetry.
      by apply dispatch_before_trans with kv.
    + split; [by apply list_elem_of_further|]. intros x Hx.
      apply elem_of_cons in Hx as [->|Hx]; [done|]. by apply Hbest.
  - subst l. split; [apply list_elem_of_here|]. intros x Hx.
    apply elem_of_cons in Hx as [->|Hx]; [apply dispatch_before_irrefl|].
    by apply elem_of_nil in Hx.
Qed.

(** What the fallback query returns. *)
Lemma select_dispatchable_spec (locked : gset uuid) (now : datetime)
    (s : State) :
  match select_dispatchable locked now s with
  | Some job_id =>
      exists job,
        db s !! job_id = Some job
        /\ (Job.status job = PENDING \/ Job.status job = QUEUED)
        /\ match Job.scheduled_at job with
           | Some t => (t <= now)%Q
           | None => True
           end
        /\ (job_id ∉ locked)
        /\ (forall k j,
              db s !! k = Some j ->
              dispatchable locked now (k, j) = true ->
              Job.priority j <= Job.priority job
              /\ (Job.priority j = Job.priority job ->
                  (Job.created_at job <= Job.created_at j)%Q))
  | None =>
      forall k j, db s !! k = Some j -> dispatchable locked now (k, j) = false
  end.
Proof.
  unfold select_dispatchable.
  pose proof (dispatch_first_fold
                (filter (fun kv => Is_true (dispatchable locked now kv))
                        (map_to_list (db s)))) as Hfold.
  destruct (foldr dispatch_first None _) as [[job_id job]|]; cbn.
  - destruct Hfold as [Hin Hbest].
    apply list_elem_of_filter in Hin as [Hd Hin].
    apply elem_of_map_to_list in Hin. apply Is_true_true in Hd.
    exists job. split; [done|].
    unfold dispatchable in Hd. cbn in Hd.
    apply andb_true_iff in Hd as [Hd Hl]. apply andb_true_iff in Hd as [Hst Hsch].
    split_and!.
    + apply orb_true_iff in Hst as [Hst|Hst]; apply bool_decide_eq_true in Hst;
        [by left | by right].
    + destruct (Job.scheduled_at job); [by apply Qle_bool_iff | done].
    + by apply bool_decide_eq_true in Hl.
    + intros k j Hk Hdk.
      assert (dispatch_before (k, j) (job_id, job) = false) as Hnb.
      { apply Hbest. apply list_elem_of_filter. split; [by apply Is_true_true|].
        by apply elem_of_map_to_list. }
      apply not_true_iff_false in Hnb. rewrite dispatch_before_spec in Hnb.
      cbn in Hnb. split.
      * destruct (Z.le_gt_cases (Job.priority j) (Job.priority job)); [done|].
        destruct Hnb. left. lia.
      * intros Heq. apply Qnot_lt_le. intros Hlt. apply Hnb. by right.
  - intros k j Hk. destruct (dispatchable locked now (k, j)) eqn:Hd; [|done].
    assert ((k, j) ∈ filter (fun kv => Is_true (dispatchable locked now kv))
                       (map_to_list (db s))) as Hin.
    { apply list_elem_of_filter. split; [by apply Is_true_true|].
      by apply elem_of_map_to_list. }
    rewrite Hfold in Hin. by apply elem_of_nil in Hin.
Qed.

(** X6. The store fallback returns an id exactly when some row is
    dispatchable: PENDING or QUEUED, not scheduled for later than now, and
    not locked. The row it returns is such a row, and no dispatchable row
    has a higher priority, or the same priority and an earlier
    [created_at]. RETRYING, RUNNING and terminal jobs, jobs scheduled for
    later and locked rows are never returned. *)
Theorem store_fallback_picks_best (locked : gset uuid) (now : datetime)
    (s : State) :
  match select_dispatchable locked now s with
  | Some job_id =>
      exists job,
        db s !! job_id = Some job
        /\ (Job.status job = PENDING \/ Job.status job = QUEUED)
        /\ match Job.scheduled_at job with
           | Some t => (t <= now)%Q
           | None => True
           end
        /\ (job_id ∉ locked)
        /\ (forall k j,
              db s !! k = Some j ->
              dispatchable locked now (k, j) = true ->
              Job.priority j <= Job.priority job
              /\ (Job.priority j = Job.priority job ->
                  (Job.created_at job <= Job.created_at j)%Q))
  | None =>
      forall k j, db s !! k = Some j -> dispatchable locked now (k, j) = false
  end.
Proof. apply select_dispatchable_spec. Qed.

(** *** Pulling a job: [_dequeue_job] *)

Lemma State_eq (s s' : State) : db s = db s' -> redis s = redis s' -> s = s'.
Proof. destruct s, s'; cbn. by intros -> ->. Qed.

(** Where the id [_dequeue_job] returns comes from. *)
Lemma dequeue_job_spec (locked : gset uuid) (now : datetime) (s : State) :
  match _dequeue_job settings locked now s with
  | (Some job_id, s') =>
      db s' = db s
      /\ ((USE_REDIS settings = true
           /\ RedisQueue.dequeue (redis s) = (Some job_id, redis s'))
          \/ ((USE_REDIS settings = false \/ QUEUE_KEY (redis s) = ∅)
              /\ s' = s
              /\ select_dispatchable locked now s = Some job_id))
  | (None, s') =>
      s' = s
      /\ (USE_REDIS settings = true -> QUEUE_KEY (redis s) = ∅)
      /\ select_dispatchable locked now s = None
  end.
Proof.
  unfold _dequeue_job. destruct (USE_REDIS settings) eqn:Hon.
  - pose proof (dequeue_spec (redis s)) as Hd.
    destruct (RedisQueue.dequeue (redis s)) as [[job_id|] r'].
    + split; [done|]. by left.
    + destruct Hd as [-> Hempty].
      assert ({| db := db s; redis := redis s |} = s) as Hs by (by apply State_eq).
      cbn zeta. rewrite Hs.
      destruct (select_dispatchable locked now s) as [job_id|] eqn:Hsel.
      * split; [done|]. right. split_and!; [by right|done..].
      * by split_and!.
  - destruct (select_dispatchable locked now s) as [job_id|] eqn:Hsel.
    + split; [done|]. right. split_and!; [by left|done..].
    + by split_and!.
Qed.

(** X7. Pulling a job never changes the store. With Redis in use and a
    non-empty queue the id is the head of the queue, moved to the processing
    set, whatever the row says (its status and [scheduled_at] are not
    looked at). Otherwise nothing changes at all and the id is that of the
    best dispatchable row, if there is one. *)
Theorem dequeue_job_sources (locked : gset uuid) (now : datetime) (s : State) :
  match _dequeue_job settings locked now s with
  | (Some job_id, s') =>
      db s' = db s
      /\ ((USE_REDIS settings = true
           /\ is_Some (QUEUE_KEY (redis s) !! job_id)
           /\ QUEUE_KEY (redis s') = delete job_id (QUEUE_KEY (redis s))
           /\ PROCESSING_KEY (redis s') = {[job_id]} ∪ PROCESSING_KEY (redis s))
          \/ ((USE_REDIS settings = false \/ QUEUE_KEY (redis s) = ∅)
              /\ s' = s
              /\ exists job,
                   db s !! job_id = Some job
                   /\ (Job.status job = PENDING \/ Job.status job = QUEUED)
                   /\ (job_id ∉ locked)))
  | (None, s') =>
      s' = s
      /\ (USE_REDIS settings = true -> QUEUE_KEY (redis s) = ∅)
      /\ (forall k j, db s !! k = Some j -> dispatchable locked now (k, j) = false)
  end.
Proof.
  pose proof (dequeue_job_spec locked now s) as H.
  destruct (_dequeue_job settings locked now s) as [[job_id|] s'].
  - destruct H as [Hdb [[Hon Hd] | (Hoff & -> & Hsel)]]; (split; [done|]).
    + left. pose proof (dequeue_spec (redis s)) as Hspec. rewrite Hd in Hspec.
      destruct Hspec as (sc & Hsc & _ & Hq & Hp & _). by split_and!.
    + right. split_and!; [done..|].
      pose proof (select_dispatchable_spec locked now s) as Hspec.
      rewrite Hsel in Hspec. destruct Hspec as (job & Hrow & Hst & _ & Hl & _).
      by exists job.
  - destruct H as (-> & Hempty & Hsel). split_and!; [done..|].
    pose proof (select_dispatchable_spec locked now s) as Hspec.
    by rewrite Hsel in Hspec.
Qed.

(** X8. With Redis in use, a job submitted under a fresh id with a priority
    above that of every queued id is the next one pulled, at any time [now] and whatever
    its [scheduled_at]: the queue path does not hold a job back until its
    scheduled instant, and the claim that follows does not either. *)
Theorem submit_then_dequeue_with_redis
    (data : JobCreate.t) (username : string) (new_id : uuid)
    (submit_time now : datetime) (locked : gset uuid) (s : State) :
  USE_REDIS settings = true ->
  db s !! new_id = None ->
  (forall k sc, QUEUE_KEY (redis s) !! k = Some sc -> k ≠ new_id ->
     - JobCreate.priority data < sc) ->
  let s1 := snd (create_job settings data username new_id submit_time s) in
  exists s2,
    _dequeue_job settings locked now s1 = (Some new_id, s2)
    /\ db s2 = db s1
    /\ new_id ∈ PROCESSING_KEY (redis s2)
    /\ (forall self locked' t,
          new_id ∉ locked' ->
          exists job' s3,
            _claim_job self locked' t new_id s2 = (Some job', s3)
            /\ Job.status job' = RUNNING
            /\ Job.scheduled_at job' = JobCreate.scheduled_at data).
Proof.
  intros Hon _ Hhigh s1.
  assert (redis s1
          = RedisQueue.increment_stat "enqueued" 1
              (RedisQueue.enqueue new_id (JobCreate.priority data) (redis s)))
    as Hr.
  { unfold s1, create_job. cbn [snd]. unfold if_redis. by rewrite Hon. }
  assert (exists job, db s1 !! new_id = Some job
                      /\ Job.status job = QUEUED
                      /\ Job.scheduled_at job = JobCreate.scheduled_at data)
    as (job & Hrow & Hst & Hsch).
  { eexists. unfold s1, create_job. cbn [snd]. rewrite if_redis_db.
    split; [apply (commit_lookup (Job.mk new_id _ _ _ _ _ _ _ _ _ _ _ _ _ _ _ _ _))|].
    done. }
  pose proof (dequeue_job_spec locked now s1) as H.
  pose proof (dequeue_spec (redis s1)) as Hd.
  destruct (_dequeue_job settings locked now s1) as [[a|] s2].
  - destruct H as [Hdb [[_ Heq] | ([Hoff|Hempty] & _)]].
    + rewrite Heq in Hd. destruct Hd as (sa & Ha & Hmin & _ & Hp & _).
      assert (a = new_id) as ->.
      { destruct (decide (a = new_id)) as [|Hne]; [done|]. exfalso.
        rewrite Hr in Ha, Hmin. cbn in Ha, Hmin.
        rewrite lookup_insert_ne in Ha by done.
        pose proof (Hhigh a sa Ha Hne).
        destruct (Hmin new_id (- JobCreate.priority data)
                    (lookup_insert_eq _ _ _)); lia. }
      exists s2. split_and!; [done..| |].
      * rewrite Hp. apply elem_of_union_l. by apply elem_of_singleton.
      * intros self locked' t Hfree.
        assert (db s2 !! new_id = Some job) as Hrow2 by (by rewrite Hdb).
        rewrite (claim_job_eq self locked' t new_id s2 job Hrow2);
          [|by rewrite Hst|done].
        eexists _, _. by split_and!.
    + congruence.
    + rewrite Hr in Hempty. cbn in Hempty. by apply insert_non_empty in Hempty.
  - destruct H as (_ & Hempty & _). specialize (Hempty Hon).
    rewrite Hr in Hempty. cbn in Hempty. by apply insert_non_empty in Hempty.
Qed.

(** *** What an execution leaves behind *)

(** The Redis state after [execute] claimed a job: the id is marked done,
    the sorted set is not touched. *)
Lemma execute_claimed_redis (self : string) (locked : gset uuid) (clock : Clock)
    (job_id : uuid) (s : State) (job : Job.t) :
  wf_db s ->
  select_claimable locked job_id s = Some job ->
  let s' := snd (execute settings HANDLER_MAP format_JobType self locked clock
                   job_id s) in
  QUEUE_KEY (redis s') = QUEUE_KEY (redis s)
  /\ if USE_REDIS settings
     then PROCESSING_KEY (redis s') = PROCESSING_KEY (redis s) ∖ {[job_id]}
     else redis s' = redis s.
Proof.
  intros Hwf Hsel. apply select_claimable_Some in Hsel as (Hrow & Hst & Hfree).
  assert (Job.id job = job_id) as Hid by exact (Hwf _ _ Hrow).
  cbn zeta. unfold execute. rewrite (claim_job_eq _ _ _ _ _ _ Hrow Hst Hfree).
  set (cl := claimed self (at_claim clock) job).
  assert (Job.id cl = job_id) as Hidc by done.
  assert (forall now error,
            let s' := snd (_fail_job settings now cl error (commit cl s)) in
            QUEUE_KEY (redis s') = QUEUE_KEY (redis s)
            /\ if USE_REDIS settings
               then PROCESSING_KEY (redis s') = PROCESSING_KEY (redis s) ∖ {[job_id]}
               else redis s' = redis s) as Hfail.
  { intros now error.
    destruct (fail_job_spec settings now cl error (commit cl s))
      as (job' & -> & _). cbn [snd]. rewrite Hidc. unfold if_redis.
    by destruct (USE_REDIS settings). }
  assert (forall now error,
            let s' := snd (_handle_failure settings now cl error (commit cl s)) in
            QUEUE_KEY (redis s') = QUEUE_KEY (redis s)
            /\ if USE_REDIS settings
               then PROCESSING_KEY (redis s') = PROCESSING_KEY (redis s) ∖ {[job_id]}
               else redis s' = redis s) as Hhandle.
  { intros now error.
    destruct (Z.lt_ge_cases (Job.attempt cl) (Job.max_retries cl)) as [Hlt|Hge].
    - destruct (handle_failure_retry settings now cl error (commit cl s) Hlt)
        as (job' & -> & _). cbn [snd]. rewrite Hidc. unfold if_redis.
      by destruct (USE_REDIS settings).
    - rewrite handle_failure_exhausted by done. apply Hfail. }
  destruct (HANDLER_MAP (Job.job_type cl)) as [handler|]; [|apply Hfail].
  destruct (handler (Job.payload cl)) as [result|e|]; [|apply Hhandle..].
  unfold _complete_job. cbn. unfold if_redis.
  destruct (USE_REDIS settings); cbn; [|done]. by rewrite Hid.
Qed.

(** X9. An [execute] that claims its job takes the id out of the processing
    set (where Redis is in use), whatever the outcome: completed, to be
    retried, failed for good, or without handler. It never adds to or
    removes from the sorted set. An [execute] that cannot claim changes
    nothing, so it leaves the id in the processing set if it was there. *)
Theorem execute_marks_done_iff_claimed
    (self : string) (locked : gset uuid) (clock : Clock) (job_id : uuid)
    (s : State) :
  wf_db s ->
  let s' := snd (execute settings HANDLER_MAP format_JobType self locked clock
                   job_id s) in
  match select_claimable locked job_id s with
  | Some _ =>
      QUEUE_KEY (redis s') = QUEUE_KEY (redis s)
      /\ if USE_REDIS settings
         then (job_id ∉ PROCESSING_KEY (redis s'))
              /\ (forall k, k ≠ job_id ->
                    k ∈ PROCESSING_KEY (redis s') <-> k ∈ PROCESSING_KEY (redis s))
         else redis s' = redis s
  | None => s' = s
  end.
Proof.
  intros Hwf. cbn zeta.
  destruct (select_claimable locked job_id s) as [job|] eqn:Hsel.
  - destruct (execute_claimed_redis self locked clock job_id s job Hwf Hsel)
      as [Hq Hp].
    split; [done|]. destruct (USE_REDIS settings); [|done].
    rewrite Hp. split.
    + rewrite elem_of_difference, elem_of_singleton. tauto.
    + intros k Hk. rewrite elem_of_difference, elem_of_singleton. tauto.
  - unfold execute, _claim_job. by rewrite Hsel.
Qed.

(** X10. A round of the poll loop that pulls from Redis an id whose row
    cannot be claimed (missing, RUNNING, terminal, or locked) writes
    nothing to the store, no counter and no event: all the round does is
    move the id from the sorted set to the processing set. The round itself
    does not mark the id done, [mark_done] being called for a claimed job
    only; what later rounds do to the id is not part of this statement. *)
Theorem poll_round_unclaimable_id_moves_to_processing
    (worker_id : string) (locked : gset uuid) (now : datetime) (clock : Clock)
    (job_id : uuid) (s : State) :
  USE_REDIS settings = true ->
  fst (RedisQueue.dequeue (redis s)) = Some job_id ->
  select_claimable locked job_id s = None ->
  let s' := _poll_loop settings HANDLER_MAP format_JobType worker_id locked now
              clock s in
  db s' = db s
  /\ QUEUE_KEY (redis s') = delete job_id (QUEUE_KEY (redis s))
  /\ PROCESSING_KEY (redis s') = {[job_id]} ∪ PROCESSING_KEY (redis s)
  /\ STATS_KEY (redis s') = STATS_KEY (redis s)
  /\ job_events (redis s') = job_events (redis s)
  /\ QUEUE_KEY (redis s') !! job_id = None
  /\ job_id ∈ PROCESSING_KEY (redis s').
Proof.
  intros Hon Hd Hsel. cbn zeta. unfold _poll_loop, _dequeue_job. rewrite Hon.
  pose proof (dequeue_spec (redis s)) as Hspec.
  destruct (RedisQueue.dequeue (redis s)) as [[a|] r']; cbn in Hd; [|done].
  injection Hd as ->. destruct Hspec as (sc & _ & _ & Hq & Hp & Hst & He & _).
  unfold _run_job, execute, _claim_job.
  assert (select_claimable locked job_id {| db := db s; redis := r' |} = None)
    as -> by exact Hsel.
  cbn. split_and!; [done..| |].
  - rewrite Hq. apply lookup_delete_eq.
  - rewrite Hp. apply elem_of_union_l. by apply elem_of_singleton.
Qed.

(** X11. A job that was claimed cannot be claimed again while its row stays
    as the claim left it: every further claim, by any executor, returns
    nothing and changes nothing. So no second executor runs a RUNNING job. *)
Theorem claimed_job_is_not_claimed_again
    (self : string) (locked : gset uuid) (now : datetime) (job_id : uuid)
    (s : State) (job' : Job.t) (s' : State) :
  wf_db s ->
  _claim_job self locked now job_id s = (Some job', s') ->
  forall self' locked' now',
    _claim_job self' locked' now' job_id s' = (None, s').
Proof.
  intros Hwf Hclaim self' locked' now'.
  unfold _claim_job in Hclaim.
  destruct (select_claimable locked job_id s) as [job|] eqn:Hsel; [|done].
  apply select_claimable_Some in Hsel as (Hrow & _ & _).
  assert (Job.id job = job_id) as Hid by exact (Hwf _ _ Hrow).
  injection Hclaim as <- <-.
  unfold _claim_job.
  assert (select_claimable locked' job_id
            (commit (claimed self now job) s) = None) as Hnone.
  { apply select_claimable_None. intros j Hj. left.
    assert (db (commit (claimed self now job) s) !! job_id
            = Some (claimed self now job)) as Hrow'.
    { rewrite <- Hid. apply (commit_lookup (claimed self now job)). }
    rewrite Hrow' in Hj. by injection Hj as <-. }
  fold (claimed self now job). by rewrite Hnone.
Qed.

(** X12. A job cancelled through the API is out of reach of the dispatcher
    as the cancel leaves it: no pull returns its id, from Redis or from the
    store; no [execute] claims it; no retry sweep selects it. *)
Theorem cancelled_job_is_not_dispatched
    (job_id : uuid) (cancel_time : datetime) (s : State) (job' : Job.t)
    (s' : State) :
  wf_db s ->
  cancel_job settings job_id cancel_time s = Ok job' s' ->
  (forall locked now, fst (_dequeue_job settings locked now s') ≠ Some job_id)
  /\ (forall self locked clock,
        execute settings HANDLER_MAP format_JobType self locked clock job_id s'
        = (false, s'))
  /\ (forall now, job_id ∉ retry_ids settings now s').
Proof.
  intros Hwf Hcancel.
  destruct (db s !! job_id) as [job|] eqn:Hrow;
    [|by unfold cancel_job in Hcancel; rewrite Hrow in Hcancel].
  assert (Job.id job = job_id) as Hid by exact (Hwf _ _ Hrow).
  destruct (decide (Job.status job = COMPLETED \/ Job.status job = CANCELLED))
    as [Hst|Hst].
  { unfold cancel_job in Hcancel. rewrite Hrow in Hcancel.
    by rewrite bool_decide_eq_true_2 in Hcancel. }
  rewrite (cancel_job_ok settings job_id cancel_time s job Hrow Hst) in Hcancel.
  cbn zeta in Hcancel. injection Hcancel as <- <-.
  set (j := Job.set_completed_at (Some cancel_time) (Job.set_status CANCELLED job)).
  set (s' := if_redis settings (RedisQueue.remove (Job.id job)) (commit j s)).
  assert (db s' !! job_id = Some j) as Hrow'.
  { unfold s'. rewrite if_redis_db, <- Hid. apply (commit_lookup j). }
  assert (Job.status j = CANCELLED) as Hstj by done.
  split_and!.
  - intros locked now Hd.
    pose proof (dequeue_job_spec locked now s') as H.
    destruct (_dequeue_job settings locked now s') as [[a|] s2]; [|done].
    cbn in Hd. injection Hd as ->.
    destruct H as [_ [[Hon Heq] | (_ & _ & Hsel)]].
    + pose proof (dequeue_spec (redis s')) as Hspec. rewrite Heq in Hspec.
      destruct Hspec as (sc & Hsc & _).
      unfold s', if_redis in Hsc. rewrite Hon, Hid in Hsc. cbn in Hsc.
      by rewrite lookup_delete_eq in Hsc.
    + pose proof (select_dispatchable_spec locked now s') as Hspec.
      rewrite Hsel in Hspec. destruct Hspec as (j0 & Hj0 & Hst0 & _).
      rewrite Hrow' in Hj0. injection Hj0 as <-.
      rewrite Hstj in Hst0. by destruct Hst0.
  - intros self locked clock.
    apply (execute_not_claimable settings HANDLER_MAP format_JobType
             self locked clock job_id s' j Hrow'). by rewrite Hstj.
  - intros now. apply (retry_ids_status settings now s' job_id j Hrow').
    by rewrite Hstj.
Qed.

(** *** The retry sweep *)

(** X13. The sweep selects only RETRYING jobs whose [next_retry_at] has
    passed, each once and never more than [MAX_WORKERS] of them; when no
    more than [MAX_WORKERS] jobs are due it selects them all. *)
Theorem retry_sweep_selection (now : datetime) (s : State) :
  0 <= MAX_WORKERS settings ->
  NoDup (retry_ids settings now s)
  /\ Z.of_nat (length (retry_ids settings now s)) <= MAX_WORKERS settings
  /\ (forall job_id, job_id ∈ retry_ids settings now s ->
        exists job t,
          db s !! job_id = Some job
          /\ Job.status job = RETRYING
          /\ Job.next_retry_at job = Some t
          /\ (t <= now)%Q)
  /\ (Z.of_nat (size (filter (fun kv => Is_true (retry_due now kv.2)) (db s)))
        <= MAX_WORKERS settings ->
      forall job_id job,
        db s !! job_id = Some job -> retry_due now job = true ->
        job_id ∈ retry_ids settings now s).
Proof.
  intros Hmax. unfold retry_ids.
  set (due := filter (fun kv => Is_true (retry_due now kv.2)) (db s)).
  split_and!.
  - apply (sublist_NoDup _ ((map_to_list due).*1));
      [apply NoDup_fst_map_to_list|apply sublist_take].
  - rewrite length_take. lia.
  - intros job_id Hin.
    destruct (retry_ids_due settings now s job_id Hin) as (job & Hrow & Hdue).
    unfold retry_due in Hdue. apply andb_true_iff in Hdue as [Hst Ht].
    apply bool_decide_eq_true in Hst.
    destruct (Job.next_retry_at job) as [t|] eqn:Hnext; [|done].
    exists job, t. split_and!; [done..|]. by apply Qle_bool_iff.
  - intros Hfew job_id job Hrow Hdue.
    rewrite take_ge by (rewrite length_fmap, length_map_to_list; lia).
    apply list_elem_of_fmap. exists (job_id, job). split; [done|].
    apply elem_of_map_to_list. apply map_lookup_filter_Some. split; [done|].
    cbn. by apply Is_true_true.
Qed.

Lemma requeue_without_redis (locked : gset uuid) (s : State) (i : uuid) :
  wf_db s ->
  USE_REDIS settings = false ->
  redis (requeue settings locked s i) = redis s
  /\ wf_db (requeue settings locked s i)
  /\ forall k,
       db (requeue settings locked s i) !! k
       = if bool_decide (k = i /\ k ∉ locked)
         then requeued <$> db s !! k else db s !! k.
Proof.
  intros Hwf Hoff. split_and!.
  - unfold requeue. rewrite Hoff. destruct (db s !! i); [|done].
    by case_bool_decide.
  - by apply requeue_wf.
  - intros k. unfold requeue. rewrite Hoff.
    destruct (db s !! i) as [job_obj|] eqn:Hrow.
    + assert (Job.id job_obj = i) as Hid by exact (Hwf _ _ Hrow).
      case_bool_decide as Hl.
      * unfold commit; cbn. rewrite Hid.
        destruct (decide (k = i)) as [->|Hne].
        -- rewrite lookup_insert_eq, Hrow, bool_decide_eq_true_2; done.
        -- rewrite lookup_insert_ne by done.
           rewrite bool_decide_eq_false_2; [done|]. by intros [? _].
      * rewrite bool_decide_eq_false_2; [done|]. intros [-> ?]. done.
    + case_bool_decide as Hk; [|done]. destruct Hk as [-> _]. by rewrite Hrow.
Qed.

Lemma requeue_all_without_redis (locked : gset uuid) (ids : list uuid)
    (s : State) :
  wf_db s ->
  USE_REDIS settings = false ->
  redis (foldl (requeue settings locked) s ids) = redis s
  /\ forall k,
       db (foldl (requeue settings locked) s ids) !! k
       = if bool_decide (k ∈ ids /\ k ∉ locked)
         then requeued <$> db s !! k else db s !! k.
Proof.
  intros Hwf Hoff. revert s Hwf.
  induction ids as [|i ids IH]; intros s Hwf; cbn.
  - split; [done|]. intros k. rewrite bool_decide_eq_false_2; [done|].
    intros [Hin _]. by apply elem_of_nil in Hin.
  - destruct (requeue_without_redis locked s i Hwf Hoff) as (Hr & Hwf1 & Hdb1).
    destruct (IH _ Hwf1) as [Hr' Hdb']. split; [congruence|].
    intros k. rewrite Hdb', Hdb1.
    destruct (decide (k ∉ locked)) as [Hl|Hl].
    + destruct (decide (k = i)) as [->|Hne].
      * rewrite (bool_decide_eq_true_2 (i = i /\ i ∉ locked)) by done.
        rewrite (bool_decide_eq_true_2 (i ∈ i :: ids /\ i ∉ locked))
          by (split; [apply list_elem_of_here|done]).
        case_bool_decide; [|done].
        destruct (db s !! i) as [j|]; [|done]. by destruct j.
      * rewrite (bool_decide_eq_false_2 (k = i /\ k ∉ locked)) by (by intros [? _]).
        assert (bool_decide (k ∈ ids /\ k ∉ locked)
                = bool_decide (k ∈ i :: ids /\ k ∉ locked)) as ->; [|done].
        apply bool_decide_ext. rewrite elem_of_cons. tauto.
    + rewrite !bool_decide_eq_false_2; [done|by intros [_ ?]..].
Qed.

(** X14. Without Redis the sweep keeps the queue backend as it is and
    promotes in the store: every selected job whose row is not locked
    becomes QUEUED with [next_retry_at] cleared and no other column written
    (so its attempt count stays), and every other row stays as it is. *)
Theorem retry_sweep_without_redis (locked : gset uuid) (now : datetime)
    (s : State) :
  wf_db s ->
  USE_REDIS settings = false ->
  let s' := _retry_loop settings locked now s in
  redis s' = redis s
  /\ (forall k, db s !! k = None -> db s' !! k = None)
  /\ (forall k j, db s !! k = Some j ->
        exists j',
          db s' !! k = Some j'
          /\ if bool_decide (k ∈ retry_ids settings now s /\ k ∉ locked)
             then Job.status j' = QUEUED
                  /\ Job.next_retry_at j' = None
                  /\ written_only [c_status; c_next_retry_at] j j'
             else j' = j).
Proof.
  intros Hwf Hoff. cbn zeta. unfold _retry_loop.
  destruct (requeue_all_without_redis locked (retry_ids settings now s) s
              Hwf Hoff) as [Hr Hdb].
  split_and!; [done| |].
  - intros k Hk. rewrite Hdb, Hk. by case_bool_decide.
  - intros k j Hk. rewrite Hdb, Hk. case_bool_decide.
    + exists (requeued j). split_and!; [done..|].
      intros c Hc; destruct c; try reflexivity; exfalso; apply Hc;
        repeat first [apply list_elem_of_here | apply list_elem_of_further].
    + by exists j.
Qed.

Lemma requeue_all_redis_rest (locked : gset uuid) (ids : list uuid) (s : State) :
  USE_REDIS settings = true ->
  PROCESSING_KEY (redis (foldl (requeue settings locked) s ids))
  = PROCESSING_KEY (redis s)
  /\ STATS_KEY (redis (foldl (requeue settings locked) s ids)) = STATS_KEY (redis s)
  /\ job_events (redis (foldl (requeue settings locked) s ids))
     = job_events (redis s).
Proof.
  intros Hon. revert s. induction ids as [|i ids IH]; intros s; cbn; [done|].
  destruct (IH (requeue settings locked s i)) as (Hp & Hs & He).
  rewrite Hp, Hs, He. unfold requeue. by rewrite Hon.
Qed.

(** The ids [retry_ids] lists are an answer of the query. *)
Lemma retry_ids_answer (now : datetime) (s : State) :
  retry_answer settings now s (retry_ids settings now s).
Proof.
  split_and!.
  - unfold retry_ids.
    apply (sublist_NoDup _
             ((map_to_list
                 (filter (fun kv => Is_true (retry_due now kv.2)) (db s))).*1));
      [apply NoDup_fst_map_to_list|apply sublist_take].
  - apply retry_ids_due.
  - unfold retry_ids. by rewrite length_take, length_fmap, length_map_to_list.
Qed.

(** An answer of the query holds every due row when no more than
    [MAX_WORKERS] rows are due. *)
Lemma retry_answer_all (now : datetime) (s : State) (ids : list uuid)
    (jid : uuid) (job : Job.t) :
  Z.of_nat (size (filter (fun kv => Is_true (retry_due now kv.2)) (db s)))
    <= MAX_WORKERS settings ->
  retry_answer settings now s ids ->
  db s !! jid = Some job -> retry_due now job = true ->
  jid ∈ ids.
Proof.
  intros Hfew (Hnd & Hdue & Hlen) Hrow Hd.
  set (due := filter (fun kv => Is_true (retry_due now kv.2)) (db s)) in *.
  assert (ids ≡ₚ (map_to_list due).*1) as Hperm.
  { apply submseteq_length_Permutation.
    - apply NoDup_submseteq; [done|]. intros x Hx.
      destruct (Hdue x Hx) as (j & Hj & Hjd).
      apply list_elem_of_fmap. exists (x, j). split; [done|].
      apply elem_of_map_to_list, map_lookup_filter_Some. split; [done|].
      cbn. by apply Is_true_true.
    - rewrite length_fmap, length_map_to_list, Hlen. lia. }
  rewrite Hperm. apply list_elem_of_fmap. exists (jid, job). split; [done|].
  apply elem_of_map_to_list, map_lookup_filter_Some. split; [done|].
  cbn. by apply Is_true_true.
Qed.

(** X15. With Redis in use the sweep changes nothing but the sorted set,
    whatever answer its query gets (the query has a [LIMIT] and no
    [ORDER BY]): due jobs stay RETRYING, so a due job is enqueued again by
    every sweep that selects it until an executor claims it. When no more
    than [MAX_WORKERS] jobs are due the sweep is idempotent: sweeping again
    at the same instant, whatever the query answers and whatever rows are
    locked by then, leaves the state of the first sweep. [_retry_loop] is
    the sweep over one answer of the query. *)
Theorem retry_sweep_with_redis_idempotent (locked locked' : gset uuid)
    (now : datetime) (s : State) (ids : list uuid) :
  USE_REDIS settings = true ->
  retry_answer settings now s ids ->
  let s1 := requeue_all settings locked ids s in
  db s1 = db s
  /\ PROCESSING_KEY (redis s1) = PROCESSING_KEY (redis s)
  /\ STATS_KEY (redis s1) = STATS_KEY (redis s)
  /\ job_events (redis s1) = job_events (redis s)
  /\ (forall jid, jid ∉ ids ->
        QUEUE_KEY (redis s1) !! jid = QUEUE_KEY (redis s) !! jid)
  /\ (Z.of_nat (size (filter (fun kv => Is_true (retry_due now kv.2)) (db s)))
        <= MAX_WORKERS settings ->
      forall ids',
        retry_answer settings now s1 ids' ->
        requeue_all settings locked' ids' s1 = s1)
  /\ retry_answer settings now s (retry_ids settings now s)
  /\ _retry_loop settings locked now s
     = requeue_all settings locked (retry_ids settings now s) s.
Proof.
  intros Hon Hans. cbn zeta. unfold requeue_all.
  destruct (requeue_all_with_redis settings locked ids s Hon)
    as (Hdb & Hin & Hout).
  destruct (requeue_all_redis_rest locked ids s Hon) as (Hp & Hst & He).
  set (s1 := foldl (requeue settings locked) s ids) in *.
  split_and!; [done..| |apply retry_ids_answer|done].
  intros Hfew ids' (_ & Hdue' & _).
  assert (forall jid, jid ∈ ids' -> jid ∈ ids) as Hsub.
  { intros jid Hjid. destruct (Hdue' jid Hjid) as (job & Hrow & Hd).
    rewrite Hdb in Hrow. by apply (retry_answer_all now s ids jid job). }
  destruct (requeue_all_with_redis settings locked' ids' s1 Hon)
    as (Hdb2 & Hin2 & Hout2).
  destruct (requeue_all_redis_rest locked' ids' s1 Hon) as (Hp2 & Hst2 & He2).
  apply State_eq; [done|]. apply Redis_eq; [|done..].
  apply map_eq. intros k.
  destruct (decide (k ∈ ids')) as [Hk|Hk].
  - rewrite (Hin2 k Hk), (Hin k (Hsub k Hk)). by rewrite Hdb.
  - by rewrite (Hout2 k Hk).
Qed.

(** *** Roles and submission *)

(** X16. [RoleRequired] lets a caller through exactly when the caller's role
    is at least the minimum in the order VIEWER, OPERATOR, ADMIN, and
    otherwise raises 403 naming the minimum role; it returns the user
    unchanged and looks at nothing but the role (not at [is_active]). *)
Theorem role_required_follows_hierarchy (minimum_role : UserRole) (user : User.t) :
  match User.role user, minimum_role with
  | ADMIN, _ | OPERATOR, OPERATOR | OPERATOR, VIEWER | VIEWER, VIEWER =>
      RoleRequired minimum_role user = Passes user
  | _, _ =>
      RoleRequired minimum_role user
      = Raises 403 ("Role '" ++ UserRole_value minimum_role
                    ++ "' or higher required")
  end.
Proof.
  unfold RoleRequired. by destruct (User.role user), minimum_role.
Qed.

(** X17. The endpoints that write jobs are closed to viewers and open to
    operators and administrators: for a VIEWER each of submit, bulk submit,
    cancel and retry raises 403 and leaves the state as it is; for the
    other roles each does exactly what the unguarded operation does. *)
Theorem job_writes_need_operator
    (user : User.t) (data : JobCreate.t) (items : list JobCreate.t)
    (defaults : list (uuid * datetime)) (job_id new_id : uuid)
    (now : datetime) (s : State) :
  let denied := "Role 'operator' or higher required" in
  if decide (User.role user = VIEWER) then
    create_job_as settings user data new_id now s = HTTPException 403 denied
    /\ create_bulk_jobs_as settings user items defaults s = inr (403, denied)
    /\ cancel_job_as settings user job_id now s = HTTPException 403 denied
    /\ retry_job_as settings user job_id s = HTTPException 403 denied
    /\ state_after s (create_job_as settings user data new_id now s) = s
    /\ state_after s (cancel_job_as settings user job_id now s) = s
    /\ state_after s (retry_job_as settings user job_id s) = s
  else
    create_job_as settings user data new_id now s
    = (let (job, s') := create_job settings data (User.username user) new_id now s
       in Ok job s')
    /\ create_bulk_jobs_as settings user items defaults s
       = inl (create_bulk_jobs settings items (User.username user) defaults s)
    /\ cancel_job_as settings user job_id now s = cancel_job settings job_id now s
    /\ retry_job_as settings user job_id s = retry_job settings job_id s.
Proof.
  cbn zeta.
  unfold create_job_as, create_bulk_jobs_as, cancel_job_as, retry_job_as,
    RoleRequired.
  destruct (decide (User.role user = VIEWER)) as [->|Hne]; [done|].
  by destruct (User.role user).
Qed.

Lemma foldl_commit_notin (jobs : list Job.t) (s : State) (k : uuid) :
  k ∉ Job.id <$> jobs ->
  db (foldl (fun s job => commit job s) s jobs) !! k = db s !! k.
Proof.
  revert s. induction jobs as [|j jobs IH]; intros s Hk; [done|]. cbn.
  cbn in Hk. apply not_elem_of_cons in Hk as [Hne Hk].
  rewrite IH by done. unfold commit; cbn. by rewrite lookup_insert_ne.
Qed.

Lemma foldl_commit_in (jobs : list Job.t) (s : State) (j : Job.t) :
  NoDup (Job.id <$> jobs) ->
  j ∈ jobs ->
  db (foldl (fun s job => commit job s) s jobs) !! Job.id j = Some j.
Proof.
  revert s. induction jobs as [|j0 jobs IH]; intros s Hnd Hin.
  - by apply elem_of_nil in Hin.
  - cbn in Hnd. apply NoDup_cons in Hnd as [Hfresh Hnd]. cbn.
    apply elem_of_cons in Hin as [->|Hin].
    + rewrite foldl_commit_notin by done. apply (commit_lookup j0).
    + by apply IH.
Qed.

Lemma foldl_redis (jobs : list Job.t) (s : State) :
  redis (foldl (fun s job => commit job s) s jobs) = redis s.
Proof. revert s. induction jobs as [|j jobs IH]; intros s; [done|]. cbn. by rewrite IH. Qed.

Lemma foldl_enqueue_notin (jobs : list Job.t) (r : Redis) (k : uuid) :
  k ∉ Job.id <$> jobs ->
  QUEUE_KEY (foldl (fun r j => RedisQueue.enqueue (Job.id j) (Job.priority j) r)
               r jobs) !! k
  = QUEUE_KEY r !! k.
Proof.
  revert r. induction jobs as [|j jobs IH]; intros r Hk; [done|]. cbn.
  cbn in Hk. apply not_elem_of_cons in Hk as [Hne Hk].
  rewrite IH by done. unfold RedisQueue.enqueue; cbn. by rewrite lookup_insert_ne.
Qed.

Lemma foldl_enqueue_in (jobs : list Job.t) (r : Redis) (j : Job.t) :
  NoDup (Job.id <$> jobs) ->
  j ∈ jobs ->
  QUEUE_KEY (foldl (fun r j => RedisQueue.enqueue (Job.id j) (Job.priority j) r)
               r jobs) !! Job.id j
  = Some (- Job.priority j).
Proof.
  revert r. induction jobs as [|j0 jobs IH]; intros r Hnd Hin.
  - by apply elem_of_nil in Hin.
  - cbn in Hnd. apply NoDup_cons in Hnd as [Hfresh Hnd]. cbn.
    apply elem_of_cons in Hin as [->|Hin].
    + rewrite foldl_enqueue_notin by done. apply enqueue_score.
    + by apply IH.
Qed.

Lemma foldl_enqueue_stat (name : string) (jobs : list Job.t) (r : Redis) :
  RedisQueue.stat name
    (foldl (fun r j => RedisQueue.enqueue (Job.id j) (Job.priority j) r) r jobs)
  = RedisQueue.stat name r.
Proof. revert r. induction jobs as [|j jobs IH]; intros r; [done|]. cbn. by rewrite IH. Qed.

Lemma new_jobs_ids (items : list JobCreate.t) (username : string)
    (defaults : list (uuid * datetime)) :
  length defaults = length items ->
  Job.id <$> zip_with (fun item d => new_job item username d.1 d.2) items defaults
  = defaults.*1.
Proof.
  revert defaults. induction items as [|item items IH];
    intros [|d defaults] Hlen; try done.
  cbn. f_equal. apply IH. by injection Hlen.
Qed.

(** X18. A bulk submission with one fresh id per request stores every
    request as a QUEUED job with attempt 0 under its id, in request order,
    and touches no other row; where Redis is in use every new id is in the
    sorted set with the score of its own priority, other members are as
    before, and the [enqueued] counter goes up once, by the number of
    requests. *)
Theorem create_bulk_jobs_stores_and_enqueues_all
    (items : list JobCreate.t) (username : string)
    (defaults : list (uuid * datetime)) (s : State) :
  length defaults = length items ->
  NoDup defaults.*1 ->
  (forall d, d ∈ defaults -> db s !! d.1 = None) ->
  let jobs := fst (create_bulk_jobs settings items username defaults s) in
  let s' := snd (create_bulk_jobs settings items username defaults s) in
  length jobs = length items
  /\ (forall i item d,
        items !! i = Some item -> defaults !! i = Some d ->
        exists job,
          jobs !! i = Some job
          /\ db s' !! d.1 = Some job
          /\ Job.id job = d.1
          /\ Job.status job = QUEUED
          /\ Job.attempt job = 0
          /\ Job.priority job = JobCreate.priority item
          /\ Job.max_retries job = JobCreate.max_retries item
          /\ Job.payload job = JobCreate.payload item
          /\ Job.created_at job = d.2
          /\ Job.created_by job = Some username
          /\ (USE_REDIS settings = true ->
              QUEUE_KEY (redis s') !! d.1 = Some (- JobCreate.priority item)))
  /\ (forall k, k ∉ defaults.*1 ->
        db s' !! k = db s !! k
        /\ QUEUE_KEY (redis s') !! k = QUEUE_KEY (redis s) !! k)
  /\ RedisQueue.stat "enqueued" (redis s')
     = RedisQueue.stat "enqueued" (redis s)
       + (if USE_REDIS settings then Z.of_nat (length items) else 0).
Proof.
  intros Hlen Hnd _. cbn zeta. unfold create_bulk_jobs. cbn [fst snd].
  set (jobs := zip_with (fun item d => new_job item username d.1 d.2)
                 items defaults).
  assert (Job.id <$> jobs = defaults.*1) as Hids by (by apply new_jobs_ids).
  assert (length jobs = length items) as Hjl.
  { unfold jobs. rewrite length_zip_with. lia. }
  split_and!.
  - done.
  - intros i item d Hi Hd. exists (new_job item username d.1 d.2).
    assert (jobs !! i = Some (new_job item username d.1 d.2)) as Hji.
    { unfold jobs. apply lookup_zip_with_Some. by exists item, d. }
    assert (new_job item username d.1 d.2 ∈ jobs) as Hin
      by (by apply list_elem_of_lookup_2 with i).
    split_and!; try done.
    + rewrite if_redis_db.
      apply (foldl_commit_in jobs s (new_job item username d.1 d.2));
        [by rewrite Hids | done].
    + intros Hon. unfold if_redis. rewrite Hon. cbn [redis].
      rewrite foldl_redis.
      apply (foldl_enqueue_in jobs (redis s) (new_job item username d.1 d.2));
        [by rewrite Hids | done].
  - intros k Hk. rewrite <- Hids in Hk. split.
    + rewrite if_redis_db. by apply foldl_commit_notin.
    + unfold if_redis. destruct (USE_REDIS settings); cbn [redis];
        rewrite foldl_redis; [|done].
      by apply (foldl_enqueue_notin jobs (redis s) k).
  - rewrite stat_if_redis. rewrite foldl_redis.
    destruct (USE_REDIS settings); [|lia].
    rewrite stat_increment_stat, foldl_enqueue_stat. lia.
Qed.

(** *** What holds in every reachable state *)

(** A column outside an explicit list of written columns. *)
Ltac unwritten :=
  rewrite ?not_elem_of_cons; split_and?; solve [done | apply not_elem_of_nil].

Ltac solve_job_ok :=
  unfold job_ok; cbn; split_and!; intros;
  repeat match goal with
         | H : is_Some None |- _ => by destruct H
         | H : _ /\ _ |- _ => destruct H
         end;
  try done; try (by eexists); try lia.

Lemma state_ok_db (s s' : State) : db s' = db s -> state_ok s -> state_ok s'.
Proof. unfold state_ok, wf_db. by intros ->. Qed.

Lemma commit_ok (j : Job.t) (s : State) :
  state_ok s -> job_ok j -> state_ok (commit j s).
Proof.
  intros [Hwf Hok] Hj. split; [by apply commit_wf|].
  unfold commit; cbn. by apply map_Forall_insert_2.
Qed.

Lemma state_ok_insert (s s' : State) (k : uuid) (j : Job.t) :
  state_ok s -> Job.id j = k -> job_ok j -> db s' = <[k := j]> (db s) ->
  state_ok s'.
Proof.
  intros Hs <- Hj Hdb. apply (state_ok_db (commit j s)); [done|].
  by apply commit_ok.
Qed.

Lemma new_job_ok (data : JobCreate.t) (username : string) (new_id : uuid)
    (now : datetime) :
  job_ok (new_job data username new_id now).
Proof. solve_job_ok. Qed.

Lemma claimed_ok (self : string) (now : datetime) (j : Job.t) :
  job_ok j ->
  claimable (Job.status j) = true ->
  job_ok (claimed self now j)
  /\ Job.status (claimed self now j) = RUNNING
  /\ Job.result (claimed self now j) = None
  /\ 1 <= Job.attempt (claimed self now j).
Proof.
  intros (_ & _ & _ & Hres & Hcl & Hatt) Hst.
  assert (Job.result j = None) as Hnone.
  { destruct (Job.result j) as [r|] eqn:Hr; [|done].
    assert (Job.status j = COMPLETED) as Hc by (apply Hres; by eexists).
    by rewrite Hc in Hst. }
  specialize (Hcl Hst). split_and!; [|done|done|cbn; lia].
  unfold job_ok; cbn. rewrite Hnone. split_and!; intros;
    repeat match goal with
           | H : is_Some None |- _ => by destruct H
           end;
    try done; try (by eexists); lia.
Qed.

Lemma complete_job_ok (now : datetime) (job : Job.t) (result : dict) (s : State) :
  job_ok job ->
  job_ok (fst (fst (_complete_job settings now job result s))).
Proof.
  intros (_ & _ & _ & _ & _ & Hatt). unfold _complete_job.
  destruct (Job.started_at job); solve_job_ok.
Qed.

Lemma fail_job_ok (now : datetime) (job : Job.t) (error : string) (s : State) :
  job_ok job ->
  Job.result job = None ->
  job_ok (fst (_fail_job settings now job error s)).
Proof.
  intros (_ & _ & _ & _ & _ & Hatt) Hres.
  destruct (fail_job_spec settings now job error s)
    as (job' & -> & Hs & _ & Hc & _ & Hw). cbn [fst].
  assert (Job.result job' = None) as Hr.
  { rewrite <- Hres. apply (Hw c_result). unwritten. }
  assert (Job.attempt job' = Job.attempt job) as Ha
    by (apply (Hw c_attempt); unwritten).
  assert (Job.max_retries job' = Job.max_retries job) as Hm
    by (apply (Hw c_max_retries); unwritten).
  unfold job_ok. rewrite Hs, Hc, Hr, Ha, Hm. split_and!; intros;
    repeat match goal with
           | H : is_Some None |- _ => by destruct H
           end;
    try done; try (by eexists); lia.
Qed.

Lemma handle_failure_ok (now : datetime) (job : Job.t) (error : string)
    (s : State) :
  job_ok job ->
  Job.result job = None ->
  1 <= Job.attempt job ->
  job_ok (fst (_handle_failure settings now job error s)).
Proof.
  intros Hok Hres H1.
  destruct (Z.lt_ge_cases (Job.attempt job) (Job.max_retries job)) as [Hlt|Hge].
  - destruct Hok as (_ & _ & _ & _ & _ & Hatt).
    destruct (handle_failure_retry settings now job error s Hlt)
      as (job' & -> & Hs & Hn & _ & Hw). cbn [fst].
    assert (Job.result job' = None) as Hr.
    { rewrite <- Hres. apply (Hw c_result). unwritten. }
    assert (Job.attempt job' = Job.attempt job) as Ha
      by (apply (Hw c_attempt); unwritten).
    assert (Job.max_retries job' = Job.max_retries job) as Hm
      by (apply (Hw c_max_retries); unwritten).
    unfold job_ok. rewrite Hs, Hn, Hr, Ha, Hm. split_and!; intros;
      repeat match goal with
             | H : is_Some None |- _ => by destruct H
             end;
      try done; try (by eexists); lia.
  - rewrite handle_failure_exhausted by done. by apply fail_job_ok.
Qed.

Lemma execute_ok (self : string) (locked : gset uuid) (clock : Clock)
    (job_id : uuid) (s : State) :
  state_ok s ->
  state_ok (snd (execute settings HANDLER_MAP format_JobType self locked clock
                   job_id s)).
Proof.
  intros Hs.
  destruct (select_claimable locked job_id s) as [job|] eqn:Hsel;
    [|unfold execute, _claim_job; by rewrite Hsel].
  apply select_claimable_Some in Hsel as (Hrow & Hst & Hfree).
  assert (job_ok job) as Hjob by exact (proj2 Hs _ _ Hrow).
  unfold execute. rewrite (claim_job_eq _ _ _ _ _ _ Hrow Hst Hfree).
  destruct (claimed_ok self (at_claim clock) job Hjob Hst)
    as (Hcl & Hrun & Hres & H1).
  set (cl := claimed self (at_claim clock) job) in *.
  assert (state_ok (commit cl s)) as Hs1 by (by apply commit_ok).
  destruct (HANDLER_MAP (Job.job_type cl)) as [handler|].
  - destruct (handler (Job.payload cl)) as [result|e|].
    + destruct (_complete_job settings (at_outcome clock) cl result (commit cl s))
        as [[job' s'] exc] eqn:Hc.
      pose proof (complete_job_after_claim settings self (at_claim clock)
                    (at_outcome clock) job result (commit cl s)) as Hexc.
      fold cl in Hexc. rewrite Hc in Hexc. cbn in Hexc. subst exc. cbn [snd].
      pose proof (complete_job_db settings (at_outcome clock) cl result
                    (commit cl s)) as (Hdb & Hid & _).
      pose proof (complete_job_ok (at_outcome clock) cl result (commit cl s) Hcl)
        as Hok.
      rewrite Hc in Hdb, Hid, Hok. cbn [fst snd] in Hdb, Hid, Hok.
      by apply (state_ok_insert (commit cl s) s' (Job.id cl) job').
    + destruct (handle_failure_db settings (at_outcome clock) cl e (commit cl s))
        as (Hdb & Hid & _).
      eapply (state_ok_insert (commit cl s)); [done|exact Hid| |exact Hdb].
      by apply handle_failure_ok.
    + destruct (handle_failure_db settings (at_outcome clock) cl
                  ("Job timed out after "
                   ++ pretty (JOB_TIMEOUT_SECONDS settings) ++ "s") (commit cl s))
        as (Hdb & Hid & _).
      eapply (state_ok_insert (commit cl s)); [done|exact Hid| |exact Hdb].
      by apply handle_failure_ok.
  - destruct (fail_job_db settings (at_outcome clock) cl
                ("No handler for type: " ++ format_JobType (Job.job_type cl))
                (commit cl s)) as (Hdb & Hid & _).
    eapply (state_ok_insert (commit cl s)); [done|exact Hid| |exact Hdb].
    by apply fail_job_ok.
Qed.

Lemma create_job_ok (data : JobCreate.t) (username : string) (new_id : uuid)
    (now : datetime) (s : State) :
  state_ok s -> state_ok (snd (create_job settings data username new_id now s)).
Proof.
  intros Hs. unfold create_job. cbn [snd].
  apply (state_ok_db (commit (new_job data username new_id now) s));
    [by rewrite if_redis_db|].
  apply commit_ok; [done|apply new_job_ok].
Qed.

Lemma create_bulk_jobs_ok (items : list JobCreate.t) (username : string)
    (defaults : list (uuid * datetime)) (s : State) :
  state_ok s -> state_ok (snd (create_bulk_jobs settings items username defaults s)).
Proof.
  intros Hs. unfold create_bulk_jobs. cbn [snd].
  set (jobs := zip_with _ items defaults).
  assert (Forall job_ok jobs) as Hjobs.
  { unfold jobs. clear. revert defaults.
    induction items as [|item items IH]; intros [|d defaults]; cbn;
      try by constructor.
    constructor; [apply new_job_ok|apply IH]. }
  apply (state_ok_db (foldl (fun s job => commit job s) s jobs));
    [by rewrite if_redis_db|].
  clearbody jobs. revert s Hs.
  induction Hjobs as [|j jobs' Hj _ IH]; intros s Hs; [done|].
  cbn. apply IH. by apply commit_ok.
Qed.

Lemma poll_loop_ok (worker_id : string) (locked : gset uuid) (now : datetime)
    (clock : Clock) (s : State) :
  state_ok s ->
  state_ok (_poll_loop settings HANDLER_MAP format_JobType worker_id locked now
              clock s).
Proof.
  intros Hs. unfold _poll_loop.
  pose proof (dequeue_job_spec locked now s) as H.
  destruct (_dequeue_job settings locked now s) as [[job_id|] s1].
  - destruct H as [Hdb _]. apply execute_ok. by apply (state_ok_db s).
  - by destruct H as [-> _].
Qed.

Lemma requeued_ok (j : Job.t) :
  job_ok j -> Job.status j = RETRYING -> job_ok (requeued j).
Proof.
  intros (_ & _ & Hretry & Hres & _ & Hatt) Hst.
  destruct (Hretry Hst) as [_ Hb].
  assert (Job.result j = None) as Hnone.
  { destruct (Job.result j) as [r|] eqn:Hr; [|done].
    assert (Job.status j = COMPLETED) as Hc by (apply Hres; by eexists).
    congruence. }
  unfold job_ok; cbn. rewrite Hnone. split_and!; intros;
    repeat match goal with
           | H : is_Some None |- _ => by destruct H
           end;
    try done; try (by eexists); lia.
Qed.

Lemma retry_loop_wf (locked : gset uuid) (now : datetime) (s : State) :
  wf_db s -> wf_db (_retry_loop settings locked now s).
Proof.
  unfold _retry_loop. generalize (retry_ids settings now s). intros ids.
  revert s. induction ids as [|i ids IH]; intros s Hwf; [done|].
  cbn. apply IH. by apply requeue_wf.
Qed.

Lemma retry_loop_ok (locked : gset uuid) (now : datetime) (s : State) :
  state_ok s -> state_ok (_retry_loop settings locked now s).
Proof.
  intros [Hwf Hok]. split; [by apply retry_loop_wf|].
  destruct (USE_REDIS settings) eqn:Hon.
  - destruct (requeue_all_with_redis settings locked (retry_ids settings now s)
                s Hon) as (Hdb & _).
    unfold _retry_loop. by rewrite Hdb.
  - destruct (requeue_all_without_redis locked (retry_ids settings now s) s
                Hwf Hon) as [_ Hdb].
    intros k j' Hk. unfold _retry_loop in Hk. rewrite Hdb in Hk.
    case_bool_decide as Hin; [|by apply (Hok k)].
    destruct (db s !! k) as [j|] eqn:Hj; [|done].
    injection Hk as <-. destruct Hin as [Hin _].
    destruct (retry_ids_due settings now s k Hin) as (j0 & Hj0 & Hdue).
    assert (j0 = j) as -> by congruence.
    apply requeued_ok; [by apply (Hok k)|].
    unfold retry_due in Hdue. apply andb_true_iff in Hdue as [Hst _].
    by apply bool_decide_eq_true in Hst.
Qed.

Lemma cancel_job_state_ok (job_id : uuid) (now : datetime) (s : State) :
  state_ok s -> state_ok (state_after s (cancel_job settings job_id now s)).
Proof.
  intros Hs.
  destruct (db s !! job_id) as [job|] eqn:Hrow;
    [|by unfold cancel_job; rewrite Hrow].
  destruct (decide (Job.status job = COMPLETED \/ Job.status job = CANCELLED))
    as [Hst|Hst].
  { unfold cancel_job. rewrite Hrow. by rewrite bool_decide_eq_true_2. }
  rewrite (cancel_job_ok settings job_id now s job Hrow Hst).
  cbn [state_after].
  apply (state_ok_db (commit (Job.set_completed_at (Some now)
                                (Job.set_status CANCELLED job)) s));
    [by rewrite if_redis_db|].
  apply commit_ok; [done|].
  destruct (proj2 Hs _ _ Hrow) as (_ & _ & _ & Hres & _ & Hatt).
  assert (Job.result job = None) as Hnone.
  { destruct (Job.result job) as [r|] eqn:Hr; [|done].
    assert (Job.status job = COMPLETED) as Hc by (apply Hres; by eexists).
    destruct Hst. by left. }
  unfold job_ok; cbn. rewrite Hnone. split_and!; intros;
    repeat match goal with
           | H : is_Some None |- _ => by destruct H
           end;
    try done; try (by eexists); lia.
Qed.

Lemma retry_job_state_ok (job_id : uuid) (s : State) :
  state_ok s -> state_ok (state_after s (retry_job settings job_id s)).
Proof.
  intros Hs.
  destruct (db s !! job_id) as [job|] eqn:Hrow;
    [|by unfold retry_job; rewrite Hrow].
  destruct (decide (Job.status job = FAILED \/ Job.status job = CANCELLED))
    as [Hst|Hst].
  - rewrite (retry_job_ok settings job_id s job Hrow Hst). cbn zeta.
    cbn [state_after].
    match goal with
    | |- state_ok (if_redis _ _ (commit ?j _)) =>
        apply (state_ok_db (commit j s)); [by rewrite if_redis_db|];
        apply commit_ok; [done|]
    end.
    solve_job_ok.
  - unfold retry_job. rewrite Hrow. by rewrite bool_decide_eq_true_2.
Qed.

(** Every reachable state is well-formed and all its rows are in order. *)
Lemma claim_job_state_ok (self : string) (locked : gset uuid) (now : datetime)
    (job_id : uuid) (s : State) :
  state_ok s -> state_ok (snd (_claim_job self locked now job_id s)).
Proof.
  intros Hs.
  destruct (select_claimable locked job_id s) as [job|] eqn:Hsel;
    [|unfold _claim_job; by rewrite Hsel].
  apply select_claimable_Some in Hsel as (Hrow & Hst & Hfree).
  rewrite (claim_job_eq _ _ _ _ _ _ Hrow Hst Hfree). cbn [snd].
  apply commit_ok; [done|].
  by destruct (claimed_ok self now job (proj2 Hs _ _ Hrow) Hst).
Qed.

Lemma reachable_ok (s : State) :
  reachable settings HANDLER_MAP format_JobType s -> state_ok s.
Proof.
  induction 1 as [r | s data username new_id now _ IH
                 | s items username defaults _ IH
                 | s self locked clock job_id _ IH
                 | s worker_id locked now clock _ IH
                 | s locked now _ IH | s job_id now _ IH | s job_id _ IH
                 | s self locked now job_id _ IH].
  - split; [apply map_Forall_empty | apply map_Forall_empty].
  - by apply create_job_ok.
  - by apply create_bulk_jobs_ok.
  - by apply execute_ok.
  - by apply poll_loop_ok.
  - by apply retry_loop_ok.
  - by apply cancel_job_state_ok.
  - by apply retry_job_state_ok.
  - by apply claim_job_state_ok.
Qed.

(** X19. In every state reached from an empty store by submissions, bulk
    submissions, executions, poll rounds, retry sweeps, cancels and API
    retries, each run to its end before the next, and by claims whose
    execution has not recorded its outcome: a COMPLETED, FAILED or
    CANCELLED job has [completed_at] set; a RUNNING job has [started_at] and
    [worker_id] set; a RETRYING job has [next_retry_at] set; only a
    COMPLETED job has a result; and every row is filed under its own id. *)
Theorem reachable_rows_are_consistent (s : State) (k : uuid) (j : Job.t) :
  reachable settings HANDLER_MAP format_JobType s ->
  db s !! k = Some j ->
  Job.id j = k
  /\ (Job.status j = COMPLETED \/ Job.status j = FAILED
      \/ Job.status j = CANCELLED -> is_Some (Job.completed_at j))
  /\ (Job.status j = RUNNING ->
      is_Some (Job.started_at j) /\ is_Some (Job.worker_id j))
  /\ (Job.status j = RETRYING -> is_Some (Job.next_retry_at j))
  /\ (is_Some (Job.result j) -> Job.status j = COMPLETED).
Proof.
  intros Hreach Hrow. destruct (reachable_ok s Hreach) as [Hwf Hok].
  destruct (Hok k j Hrow) as (Hterm & Hrun & Hretry & Hres & _).
  split_and!; [exact (Hwf _ _ Hrow)| |done| |done].
  - intros [Hst|[Hst|Hst]]; apply Hterm; by rewrite Hst.
  - intros Hst. by destruct (Hretry Hst).
Qed.

(** X20. In every such state the attempt counter of a job lies between 0
    and [max(max_retries, 1)]: a job is claimed at most [max_retries] times
    between two API retries, and once even with [max_retries = 0]. A
    RETRYING job has [1 <= attempt < max_retries], and a job still to be
    claimed has budget left or was never attempted. With [max_retries >= 0]
    this gives [attempt <= max_retries + 1]. *)
Theorem reachable_attempt_bounds (s : State) (k : uuid) (j : Job.t) :
  reachable settings HANDLER_MAP format_JobType s ->
  db s !! k = Some j ->
  0 <= Job.attempt j <= Z.max (Job.max_retries j) 1
  /\ (Job.status j = RETRYING -> 1 <= Job.attempt j < Job.max_retries j)
  /\ (Job.status j = PENDING \/ Job.status j = QUEUED ->
      Job.attempt j = 0 \/ Job.attempt j < Job.max_retries j)
  /\ (0 <= Job.max_retries j -> Job.attempt j <= Job.max_retries j + 1).
Proof.
  intros Hreach Hrow. destruct (reachable_ok s Hreach) as [_ Hok].
  destruct (Hok k j Hrow) as (_ & _ & Hretry & _ & Hcl & Hatt).
  split_and!; [lia..| | |lia].
  - intros Hst. by destruct (Hretry Hst).
  - intros [Hst|Hst]; apply Hcl; by rewrite Hst.
Qed.

(** X21. The Boolean [execute] returns tells whether the job completed: on
    [True] the row is COMPLETED and holds a result; on [False] either
    nothing was claimed and the state is unchanged, or the row is RETRYING
    or FAILED and holds an error message. No other row is ever changed. *)
Theorem execute_returns_whether_completed
    (self : string) (locked : gset uuid) (clock : Clock) (job_id : uuid)
    (s : State) :
  wf_db s ->
  let ok := fst (execute settings HANDLER_MAP format_JobType self locked clock
                   job_id s) in
  let s' := snd (execute settings HANDLER_MAP format_JobType self locked clock
                   job_id s) in
  (forall k, k ≠ job_id -> db s' !! k = db s !! k)
  /\ if ok
     then exists job',
            db s' !! job_id = Some job'
            /\ Job.status job' = COMPLETED
            /\ is_Some (Job.result job')
     else s' = s
          \/ exists job',
               db s' !! job_id = Some job'
               /\ (Job.status job' = RETRYING \/ Job.status job' = FAILED)
               /\ is_Some (Job.error_message job').
Proof.
  intros Hwf. cbn zeta. split.
  { intros k Hne.
    destruct (execute_db settings HANDLER_MAP format_JobType self locked clock
                job_id s Hwf) as [-> | (job & job' & _ & -> & _)]; [done|].
    by rewrite lookup_insert_ne. }
  destruct (select_claimable locked job_id s) as [job|] eqn:Hsel;
    [|unfold execute, _claim_job; rewrite Hsel; by left].
  apply select_claimable_Some in Hsel as (Hrow & Hst & Hfree).
  assert (Job.id job = job_id) as Hid by exact (Hwf _ _ Hrow).
  unfold execute. rewrite (claim_job_eq _ _ _ _ _ _ Hrow Hst Hfree).
  set (cl := claimed self (at_claim clock) job).
  assert (Job.id cl = job_id) as Hidc by done.
  assert (forall now error,
            exists job',
              db (snd (_fail_job settings now cl error (commit cl s))) !! job_id
              = Some job'
              /\ (Job.status job' = RETRYING \/ Job.status job' = FAILED)
              /\ is_Some (Job.error_message job')) as Hfail.
  { intros now error.
    destruct (fail_job_spec settings now cl error (commit cl s))
      as (job' & Heq & Hs & He & _ & _ & Hw).
    destruct (fail_job_db settings now cl error (commit cl s)) as (Hdb & _).
    rewrite Heq in Hdb. cbn [fst snd] in Hdb. rewrite Heq. cbn [snd].
    exists job'. rewrite Hdb, Hidc, lookup_insert_eq.
    split_and!; [done|by right|by eexists]. }
  assert (forall now error,
            exists job',
              db (snd (_handle_failure settings now cl error (commit cl s)))
                !! job_id = Some job'
              /\ (Job.status job' = RETRYING \/ Job.status job' = FAILED)
              /\ is_Some (Job.error_message job')) as Hhandle.
  { intros now error.
    destruct (Z.lt_ge_cases (Job.attempt cl) (Job.max_retries cl)) as [Hlt|Hge].
    - destruct (handle_failure_retry settings now cl error (commit cl s) Hlt)
        as (job' & Heq & Hs & _ & He & Hw).
      destruct (handle_failure_db settings now cl error (commit cl s)) as (Hdb & _).
      rewrite Heq in Hdb. cbn [fst snd] in Hdb. rewrite Heq. cbn [snd].
      exists job'. rewrite Hdb, Hidc, lookup_insert_eq.
      split_and!; [done|by left|by eexists].
    - rewrite handle_failure_exhausted by done. apply Hfail. }
  destruct (HANDLER_MAP (Job.job_type cl)) as [handler|];
    [|cbn [fst snd]; right; apply Hfail].
  destruct (handler (Job.payload cl)) as [result|e|];
    [|cbn [fst snd]; right; apply Hhandle..].
  unfold _complete_job. cbn.
  eexists. rewrite if_redis_db. unfold commit; cbn.
  rewrite Hid, lookup_insert_eq. split; [reflexivity|]. cbn. by split; [|eexists].
Qed.

(** *** Listing *)

#[local] Instance newest_first_total : Total newest_first.
Proof.
  intros a b. unfold newest_first.
  destruct (Qle_bool (Job.created_at b) (Job.created_at a)) eqn:Hle; [by left|].
  right. apply Is_true_true. apply Qle_bool_iff.
  apply Qlt_le_weak, Qnot_le_lt. intros H. apply Qle_bool_iff in H. congruence.
Qed.

#[local] Instance newest_first_trans : Transitive newest_first.
Proof.
  intros a b c Hab Hbc. unfold newest_first in *.
  apply Is_true_true in Hab, Hbc. apply Is_true_true.
  apply Qle_bool_iff in Hab, Hbc. apply Qle_bool_iff.
  by apply Qle_trans with (Job.created_at b).
Qed.

Lemma rows_elem_of (s : State) (j : Job.t) :
  j ∈ rows s <-> exists k, db s !! k = Some j.
Proof.
  unfold rows. rewrite list_elem_of_fmap. split.
  - intros ([k j'] & -> & Hin). apply elem_of_map_to_list in Hin. by exists k.
  - intros (k & Hk). exists (k, j). split; [done|]. by apply elem_of_map_to_list.
Qed.

(** X22. A page of [list_jobs] holds at most [page_size] jobs, each a row of
    the store that passes the filters given, newest first; [total] counts
    all rows that pass the filters, whatever the page; the page holds
    what is left after the pages before it, and is empty beyond the end. *)
Theorem list_jobs_page
    (status : option JobStatus) (job_type : option JobType)
    (page page_size : Z) (s : State) :
  1 <= page ->
  1 <= page_size ->
  let r := list_jobs status job_type page page_size s in
  JobListResponse.total r
  = Z.of_nat (length (filter (list_filter status job_type) (rows s)))
  /\ Z.of_nat (length (JobListResponse.jobs r))
     = Z.min page_size
         (Z.max 0 (JobListResponse.total r - (page - 1) * page_size))
  /\ (forall j, j ∈ JobListResponse.jobs r ->
        (exists k, db s !! k = Some j)
        /\ match status with Some st => Job.status j = st | None => True end
        /\ match job_type with Some t => Job.job_type j = t | None => True end)
  /\ StronglySorted
       (fun a b => (Job.created_at b <= Job.created_at a)%Q)
       (JobListResponse.jobs r)
  /\ (JobListResponse.total r <= (page - 1) * page_size ->
      JobListResponse.jobs r = []).
Proof.
  intros Hpage Hsize. cbn zeta. unfold list_jobs. cbn.
  set (matching := filter (list_filter status job_type) (rows s)).
  set (sorted := merge_sort newest_first matching).
  assert (length sorted = length matching) as Hlen.
  { unfold sorted. by rewrite merge_sort_Permutation. }
  split_and!.
  - done.
  - rewrite length_take, length_drop, Hlen.
    assert (0 <= (page - 1) * page_size) as Hoff by nia.
    revert Hoff. generalize ((page - 1) * page_size). intros off Hoff. lia.
  - intros j Hj.
    apply (subseteq_take _ _ _) in Hj. apply (subseteq_drop _ _ _) in Hj.
    unfold sorted in Hj. rewrite merge_sort_Permutation in Hj.
    apply list_elem_of_filter in Hj as [[Hst Hty] Hin].
    split_and!; [by apply rows_elem_of|done..].
  - assert (StronglySorted newest_first sorted) as Hsorted
      by apply (StronglySorted_merge_sort newest_first).
    assert (StronglySorted newest_first
              (take (Z.to_nat page_size)
                 (drop (Z.to_nat ((page - 1) * page_size)) sorted))) as Hpg.
    { rewrite <- (take_drop (Z.to_nat ((page - 1) * page_size)) sorted) in Hsorted.
      apply StronglySorted_app_1_r in Hsorted.
      rewrite <- (take_drop (Z.to_nat page_size)
                    (drop (Z.to_nat ((page - 1) * page_size)) sorted)) in Hsorted.
      by apply StronglySorted_app_1_l in Hsorted. }
    clear Hsorted. induction Hpg as [|a l _ IH Hall]; constructor; [done|].
    eapply Forall_impl; [exact Hall|]. intros b Hb. unfold newest_first in Hb.
    apply Is_true_true in Hb. by apply Qle_bool_iff.
  - intros Hend. rewrite drop_ge; [apply take_nil|]. rewrite Hlen.
    revert Hend. generalize ((page - 1) * page_size). intros off Hend. lia.
Qed.

Lemma pages_concat {A : Type} (l : list A) (ps n : nat) :
  concat ((fun p => take ps (drop ((p - 1) * ps) l)) <$> seq 1 n) = take (n * ps) l.
Proof.
  induction n as [|n IH]; [done|].
  rewrite seq_S, fmap_app, concat_app, IH. cbn [fmap list_fmap concat].
  rewrite app_nil_r. replace (1 + n - 1)%nat with n by lia.
  rewrite take_take_drop. f_equal. lia.
Qed.

(** X23. The pages of [list_jobs] split the matching jobs: read one after
    the other from page 1, with the store unchanged in between, enough
    pages to cover [total] list every job that passes the filters exactly
    once. This is for queries that order rows of equal [created_at] alike,
    as the sort of the model does. *)
Theorem list_jobs_pages_cover
    (status : option JobStatus) (job_type : option JobType)
    (page_size : Z) (n : nat) (s : State) :
  1 <= page_size ->
  Z.of_nat (length (filter (list_filter status job_type) (rows s)))
    <= Z.of_nat n * page_size ->
  concat ((fun p => JobListResponse.jobs
                      (list_jobs status job_type (Z.of_nat p) page_size s))
          <$> seq 1 n)
  ≡ₚ filter (list_filter status job_type) (rows s).
Proof.
  intros Hsize Hcover. unfold list_jobs. cbn [JobListResponse.jobs].
  set (matching := filter (list_filter status job_type) (rows s)) in *.
  set (sorted := merge_sort newest_first matching).
  assert (concat ((fun p => take (Z.to_nat page_size)
                              (drop (Z.to_nat ((Z.of_nat p - 1) * page_size)) sorted))
                  <$> seq 1 n)
          = concat ((fun p => take (Z.to_nat page_size)
                                (drop ((p - 1) * Z.to_nat page_size) sorted))
                    <$> seq 1 n)) as ->.
  { f_equal. apply list_fmap_ext. intros i p Hp.
    apply lookup_seq in Hp as [-> _]. do 2 f_equal. lia. }
  rewrite pages_concat, take_ge.
  - apply merge_sort_Permutation.
  - unfold sorted. rewrite merge_sort_Permutation. nia.
Qed.

(** *** The worker pool *)

(** X24. The pool never runs more than [MAX_WORKERS] tasks: in every pool
    reached from a fresh manager the free permits and the active tasks add
    up to [MAX_WORKERS], so a new task is spawned exactly while fewer than
    [MAX_WORKERS] are active, and otherwise the poll loop waits. *)
Theorem pool_is_bounded (self : WorkerManager.t) :
  WorkerManager.reachable settings self ->
  WorkerManager.semaphore self
    + Z.of_nat (size (WorkerManager._active_tasks self))
  = MAX_WORKERS settings
  /\ 0 <= WorkerManager.semaphore self
  /\ Z.of_nat (size (WorkerManager._active_tasks self)) <= MAX_WORKERS settings
  /\ (forall task,
        is_Some (WorkerManager.spawn task self)
        <-> Z.of_nat (size (WorkerManager._active_tasks self))
            < MAX_WORKERS settings).
Proof.
  intros Hreach.
  assert (WorkerManager.semaphore self
            + Z.of_nat (size (WorkerManager._active_tasks self))
          = MAX_WORKERS settings
          /\ 0 <= WorkerManager.semaphore self) as [Hsum Hpos].
  { induction Hreach as [Hmax | self self' task _ IH Hfresh Hspawn
                        | self task _ IH Hin].
    - cbn. rewrite size_empty. lia.
    - destruct IH as [Hsum Hpos]. unfold WorkerManager.spawn in Hspawn.
      destruct (0 <? WorkerManager.semaphore self)%Z eqn:Hfree; [|done].
      apply Z.ltb_lt in Hfree. injection Hspawn as <-. cbn.
      rewrite size_union by (apply disjoint_singleton_l; done).
      rewrite size_singleton. lia.
    - destruct IH as [Hsum Hpos]. cbn.
      assert (size (WorkerManager._active_tasks self)
              = S (size (WorkerManager._active_tasks self ∖ {[task]}))) as Hsz.
      { rewrite (union_difference_L {[task]} (WorkerManager._active_tasks self))
          at 1 by (by apply singleton_subseteq_l).
        rewrite size_union by (apply disjoint_difference_r1; done).
        by rewrite size_singleton. }
      lia. }
  split_and!; [done|done|lia|].
  intros task. unfold WorkerManager.spawn.
  destruct (0 <? WorkerManager.semaphore self)%Z eqn:Hfree.
  - apply Z.ltb_lt in Hfree. split; [lia|by eexists].
  - apply Z.ltb_ge in Hfree. split; [by intros [? ?]|lia].
Qed.

(** *** Statistics *)

Lemma counts_get_filter (c : JobStatus -> Z) (l : list JobStatus) (st : JobStatus) :
  (forall x, 0 <= c x) ->
  counts_get (filter (fun kv => 0 < kv.2) ((fun x => (x, c x)) <$> l)) st
  = if decide (st ∈ l) then c st else 0.
Proof.
  intros Hpos. induction l as [|a l IH].
  - cbn. case_decide as Hin; [by apply elem_of_nil in Hin|done].
  - rewrite fmap_cons, filter_cons. cbn [snd].
    destruct (decide (0 < c a)) as [Hc|Hc].
    + unfold counts_get. cbn [List.find fst snd].
      case_bool_decide as Ha.
      * subst a. rewrite decide_True by apply list_elem_of_here. done.
      * fold (counts_get (filter (fun kv => 0 < kv.2) ((fun x => (x, c x)) <$> l)) st).
        rewrite IH. apply decide_ext. rewrite elem_of_cons.
        split; [by right|]. intros [->|H]; done.
    + rewrite IH. destruct (decide (st = a)) as [->|Hne].
      * rewrite (decide_True (P := a ∈ a :: l)) by apply list_elem_of_here.
        specialize (Hpos a). case_decide; lia.
      * apply decide_ext. rewrite elem_of_cons.
        split; [by right|]. intros [->|H]; done.
Qed.

Lemma counts_sum_filter (c : JobStatus -> Z) (l : list JobStatus) :
  (forall x, 0 <= c x) ->
  counts_sum (filter (fun kv => 0 < kv.2) ((fun x => (x, c x)) <$> l))
  = foldr (fun x acc => c x + acc) 0 l.
Proof.
  intros Hpos. induction l as [|a l IH]; [done|].
  rewrite fmap_cons, filter_cons. cbn [snd foldr].
  destruct (decide (0 < c a)) as [Hc|Hc].
  - cbn. unfold counts_sum in IH. by rewrite IH.
  - rewrite IH. specialize (Hpos a). lia.
Qed.

Lemma count_status_nonneg (st : JobStatus) (s : State) : 0 <= count_status st s.
Proof. unfold count_status. lia. Qed.

Lemma counts_get_status_counts (st : JobStatus) (s : State) :
  counts_get (status_counts s) st = count_status st s.
Proof.
  unfold status_counts.
  rewrite (counts_get_filter (fun st => count_status st s))
    by (intros x; apply count_status_nonneg).
  rewrite decide_True; [done|].
  unfold all_statuses.
  destruct st; repeat first [apply list_elem_of_here | apply list_elem_of_further].
Qed.

Lemma count_status_partition (l : list Job.t) :
  Z.of_nat (length l)
  = foldr (fun st acc =>
             Z.of_nat (length (filter (fun j => Job.status j = st) l)) + acc)
          0 all_statuses.
Proof.
  cbn. induction l as [|j l IH]; [done|].
  rewrite !filter_cons. cbn [length].
  destruct (Job.status j); repeat case_decide; try done; cbn [length]; lia.
Qed.

Lemma rows_length (s : State) : length (rows s) = size (db s).
Proof. unfold rows. by rewrite length_fmap, length_map_to_list. Qed.

Lemma length_filter_le {A : Type} (P : A -> Prop) `{forall x, Decision (P x)}
    (l : list A) :
  (length (filter P l) <= length l)%nat.
Proof.
  induction l as [|a l IH]; [done|]. rewrite filter_cons.
  case_decide; cbn; lia.
Qed.

Lemma length_filter_mono {A : Type} (P R : A -> Prop)
    `{forall x, Decision (P x)} `{forall x, Decision (R x)} (l : list A) :
  (forall x, P x -> R x) ->
  (length (filter P l) <= length (filter R l))%nat.
Proof.
  intros HPR. induction l as [|a l IH]; [done|]. rewrite !filter_cons.
  destruct (decide (P a)) as [HP|HP].
  - rewrite decide_True by auto. cbn. lia.
  - case_decide; cbn; lia.
Qed.

(** X25. The statistics count every job once: the seven per-status counts
    are the numbers of rows in each status, they add up to [total_jobs],
    which is the number of rows of the table, and the jobs of the last hour
    are among those of the last 24 hours. *)
Theorem job_stats_counts_add_up (round : Q -> Z -> Q) (now : datetime) (s : State) :
  let st := get_job_stats round now s in
  JobStats.total_jobs st = Z.of_nat (size (db s))
  /\ JobStats.pending st + JobStats.queued st + JobStats.running st
     + JobStats.completed st + JobStats.failed st + JobStats.retrying st
     + JobStats.cancelled st = JobStats.total_jobs st
  /\ (JobStats.pending st = count_status PENDING s
      /\ JobStats.queued st = count_status QUEUED s
      /\ JobStats.running st = count_status RUNNING s
      /\ JobStats.completed st = count_status COMPLETED s
      /\ JobStats.failed st = count_status FAILED s
      /\ JobStats.retrying st = count_status RETRYING s
      /\ JobStats.cancelled st = count_status CANCELLED s)
  /\ 0 <= JobStats.jobs_last_hour st <= JobStats.jobs_last_24h st
  /\ JobStats.jobs_last_24h st <= JobStats.total_jobs st.
Proof.
  cbv beta zeta delta [get_job_stats].
  cbn [JobStats.total_jobs JobStats.pending JobStats.queued JobStats.running
       JobStats.completed JobStats.failed JobStats.retrying JobStats.cancelled
       JobStats.jobs_last_hour JobStats.jobs_last_24h].
  rewrite !counts_get_status_counts.
  assert (counts_sum (status_counts s) = Z.of_nat (size (db s))) as Htotal.
  { unfold status_counts.
    rewrite (counts_sum_filter (fun st => count_status st s))
      by (intros x; apply count_status_nonneg).
    rewrite <- rows_length. symmetry. apply count_status_partition. }
  split_and!; try done.
  - rewrite Htotal, <- rows_length, (count_status_partition (rows s)).
    unfold count_status. cbn. lia.
  - unfold count_created_since. lia.
  - unfold count_created_since. apply inj_le. apply length_filter_mono.
    intros j Hj. apply Is_true_true in Hj. apply Is_true_true.
    apply Qle_bool_iff in Hj. apply Qle_bool_iff.
    apply Qle_trans with (now - 3600)%Q; [|done].
    unfold Qminus. apply Qplus_le_r. by vm_compute.
  - rewrite Htotal, <- rows_length. unfold count_created_since.
    apply inj_le. apply length_filter_le.
Qed.

Lemma rate_is_zero_iff (c n : Z) :
  0 < n ->
  float_truthy (inject_Z c / inject_Z n * 100)%Q = negb (bool_decide (c = 0)).
Proof.
  intros Hn. unfold float_truthy. f_equal.
  destruct n as [|p|p]; try lia.
  destruct (Qeq_bool (inject_Z c / inject_Z (Z.pos p) * 100) 0) eqn:Hq.
  - apply Qeq_bool_iff in Hq. unfold Qeq in Hq. cbn in Hq.
    symmetry. apply bool_decide_eq_true. lia.
  - symmetry. apply bool_decide_eq_false. intros ->.
    apply Qeq_bool_neq in Hq. apply Hq. unfold Qeq. cbn. lia.
Qed.

(** X26. The success rate is reported only when some job has completed: it
    is the rounded percentage of completed among completed and failed jobs
    when at least one job is COMPLETED, and absent otherwise, also when
    jobs have failed and the rate is 0. *)
Theorem job_stats_success_rate (round : Q -> Z -> Q) (now : datetime) (s : State) :
  let completed := count_status COMPLETED s in
  let failed := count_status FAILED s in
  JobStats.success_rate (get_job_stats round now s)
  = if decide (completed = 0) then None
    else Some (round (inject_Z completed / inject_Z (completed + failed) * 100)%Q 2).
Proof.
  cbv beta zeta delta [get_job_stats]. cbn [JobStats.success_rate].
  rewrite !counts_get_status_counts.
  pose proof (count_status_nonneg COMPLETED s) as Hc.
  pose proof (count_status_nonneg FAILED s) as Hf.
  destruct (0 <? count_status COMPLETED s + count_status FAILED s)%Z eqn:Hfin.
  - apply Z.ltb_lt in Hfin. rewrite rate_is_zero_iff by done.
    case_decide as Hz.
    + by rewrite bool_decide_eq_true_2.
    + by rewrite bool_decide_eq_false_2.
  - apply Z.ltb_ge in Hfin. rewrite decide_True by lia. done.
Qed.

End Coverage.

(** * The further properties on the sample runs *)

(** X4 on a queue of two: an id enqueued at priority 10 is returned before
    those of priority 5 and 0. *)
Lemma enqueue_highest_is_dequeued_next_witness :
  fst (RedisQueue.dequeue
         (RedisQueue.enqueue 7%N 10
            (RedisQueue.enqueue 3%N 5 (RedisQueue.enqueue 4%N 0 empty_redis))))
  = Some 7%N.
Proof.
  apply enqueue_highest_is_dequeued_next. intros k sc H _. cbn in H.
  apply lookup_insert_Some in H as [[_ <-]|[_ H]]; [lia|].
  apply lookup_insert_Some in H as [[_ <-]|[_ H]]; [lia|].
  by rewrite lookup_empty in H.
Defined.

(** X8 on a job scheduled for time 1000, submitted at time 0: it is pulled
    at time 1 and claimed at time 2. *)
Lemma submit_then_dequeue_with_redis_witness :
  exists s2 job' s3,
    _dequeue_job default_settings ∅ 1%Q
      (snd (create_job default_settings scheduled_request "alice" 7%N 0%Q
              empty_state))
    = (Some 7%N, s2)
    /\ _claim_job "w1" ∅ 2%Q 7%N s2 = (Some job', s3)
    /\ Job.status job' = RUNNING
    /\ Job.scheduled_at job' = Some 1000%Q.
Proof.
  destruct (submit_then_dequeue_with_redis default_settings scheduled_request
              "alice" 7%N 0%Q 1%Q ∅ empty_state eq_refl (lookup_empty _))
    as (s2 & Hd & _ & _ & Hclaim).
  { intros k sc H _. cbn in H. by rewrite lookup_empty in H. }
  destruct (Hclaim "w1" ∅ 2%Q (not_elem_of_empty _))
    as (job' & s3 & Hc & Hs & Hsch).
  by exists s2, job', s3.
Defined.

(** X9 on the sample job, pulled from Redis and then executed with a
    failing handler: the id leaves the processing set. *)
Lemma execute_marks_done_iff_claimed_witness :
  let s := snd (_dequeue_job default_settings ∅ 1%Q (submitted EMAIL 5 2 true)) in
  7%N ∈ PROCESSING_KEY (redis s)
  /\ 7%N ∉ PROCESSING_KEY
             (redis (snd (execute default_settings sample_handlers
                            sample_format "w1" ∅ (sample_clocks 1) 7%N s))).
Proof.
  intros s. split.
  { compute_done. }
  pose proof (execute_marks_done_iff_claimed default_settings sample_handlers
                sample_format "w1" ∅ (sample_clocks 1) 7%N s
                (submitted_wf EMAIL 5 2 true)) as H.
  cbv zeta in H.
  assert (select_claimable ∅ 7%N s = Some (submitted_job EMAIL 5 2 true))
    as Hsel by reflexivity.
  rewrite Hsel in H. destruct H as (_ & H & _). exact H.
Defined.

(** X10 on the sample job, completed by an executor that was handed its id
    directly: the id is still in the sorted set, and the poll round that
    pulls it moves it to the processing set. *)
Lemma poll_round_unclaimable_id_moves_to_processing_witness :
  let s := sample_run EMAIL 5 2 false 1 in
  let s' := _poll_loop default_settings sample_handlers sample_format "w2" ∅
              200%Q (sample_clocks 2) s in
  db s' = db s
  /\ QUEUE_KEY (redis s') !! 7%N = None
  /\ 7%N ∈ PROCESSING_KEY (redis s')
  /\ STATS_KEY (redis s') = STATS_KEY (redis s).
Proof.
  intros s s'.
  destruct (poll_round_unclaimable_id_moves_to_processing default_settings
              sample_handlers sample_format "w2" ∅ 200%Q (sample_clocks 2) 7%N
              s eq_refl eq_refl eq_refl) as (Hdb & _ & _ & Hst & _ & Hq & Hp).
  by split_and!.
Defined.

(** X11 on the sample job: worker [w1] claims it, worker [w2] cannot. *)
Lemma claimed_job_is_not_claimed_again_witness :
  exists job' s',
    _claim_job "w1" ∅ 100%Q 7%N (submitted EMAIL 5 2 false) = (Some job', s')
    /\ _claim_job "w2" ∅ 200%Q 7%N s' = (None, s').
Proof.
  destruct (_claim_job "w1" ∅ 100%Q 7%N (submitted EMAIL 5 2 false))
    as [[job'|] s'] eqn:Hclaim; [|by vm_compute in Hclaim].
  exists job', s'. split; [done|].
  exact (claimed_job_is_not_claimed_again "w1" ∅ 100%Q 7%N
           (submitted EMAIL 5 2 false) job' s' (submitted_wf EMAIL 5 2 false)
           Hclaim "w2" ∅ 200%Q).
Defined.

(** X12 on the sample job, cancelled at time 50 before any worker took it. *)
Lemma cancelled_job_is_not_dispatched_witness :
  exists job' s',
    cancel_job default_settings 7%N 50%Q (submitted EMAIL 5 2 true) = Ok job' s'
    /\ fst (_dequeue_job default_settings ∅ 60%Q s') ≠ Some 7%N
    /\ execute default_settings sample_handlers sample_format "w1" ∅
         (sample_clocks 1) 7%N s' = (false, s').
Proof.
  destruct (cancel_job default_settings 7%N 50%Q (submitted EMAIL 5 2 true))
    as [job' s'|code detail] eqn:Hcancel; [|by vm_compute in Hcancel].
  exists job', s'.
  destruct (cancelled_job_is_not_dispatched default_settings sample_handlers
              sample_format 7%N 50%Q (submitted EMAIL 5 2 true) job' s'
              (submitted_wf EMAIL 5 2 true) Hcancel) as (Hd & Hex & _).
  split_and!; [done|apply Hd|apply Hex].
Defined.

(** X13 on the sample job after one failed attempt, swept at time 200. *)
Lemma retry_sweep_selection_witness :
  let s := sample_run EMAIL 5 3 true 1 in
  Z.of_nat (length (retry_ids default_settings 200%Q s)) <= 10
  /\ exists job t,
       db s !! 7%N = Some job
       /\ Job.status job = RETRYING
       /\ Job.next_retry_at job = Some t
       /\ (t <= 200)%Q.
Proof.
  intros s.
  assert (0 <= MAX_WORKERS default_settings) as Hpos by (cbn; lia).
  destruct (retry_sweep_selection default_settings 200%Q s Hpos)
    as (_ & Hlen & Hsel & _).
  split; [exact Hlen|]. apply Hsel.
  assert (retry_ids default_settings 200%Q s = [7%N]) as -> by reflexivity.
  apply list_elem_of_here.
Defined.

(** X14 on the same job, swept at time 200 by a deployment without Redis. *)
Lemma retry_sweep_without_redis_witness :
  let s := sample_run EMAIL 5 3 true 1 in
  let s' := _retry_loop no_redis_settings ∅ 200%Q s in
  redis s' = redis s
  /\ exists j',
       db s' !! 7%N = Some j'
       /\ Job.status j' = QUEUED
       /\ Job.next_retry_at j' = None.
Proof.
  intros s s'.
  destruct (retry_sweep_without_redis no_redis_settings ∅ 200%Q s
              (sample_run_wf EMAIL 5 3 true 1) eq_refl) as (Hr & _ & Hrows).
  split; [exact Hr|].
  destruct (db s !! 7%N) as [j|] eqn:Hrow; [|by vm_compute in Hrow].
  destruct (Hrows 7%N j Hrow) as (j' & Hrow' & Hif).
  rewrite bool_decide_eq_true_2 in Hif.
  - destruct Hif as (Hst & Hnext & _). by exists j'.
  - split; [|apply not_elem_of_empty].
    assert (retry_ids no_redis_settings 200%Q s = [7%N]) as -> by reflexivity.
    apply list_elem_of_here.
Defined.

(** X15 on the same job, the one due row, swept twice at time 200 with
    Redis in use. *)
Lemma retry_sweep_with_redis_idempotent_witness :
  let s := sample_run EMAIL 5 3 true 1 in
  let s1 := _retry_loop default_settings ∅ 200%Q s in
  db s1 = db s /\ _retry_loop default_settings ∅ 200%Q s1 = s1.
Proof.
  intros s s1.
  destruct (retry_sweep_with_redis_idempotent default_settings ∅ ∅ 200%Q s
              (retry_ids default_settings 200%Q s) eq_refl
              (retry_ids_answer default_settings 200%Q s))
    as (Hdb & _ & _ & _ & _ & Hidem & _).
  split; [exact Hdb|].
  apply (Hidem ltac:(compute_done) (retry_ids default_settings 200%Q s1)
           (retry_ids_answer default_settings 200%Q s1)).
Defined.

(** X18 on the bulk submission of two jobs to the empty system. *)
Lemma create_bulk_jobs_stores_and_enqueues_all_witness :
  exists job,
    db bulk_submitted !! 2%N = Some job
    /\ Job.status job = QUEUED
    /\ Job.attempt job = 0
    /\ QUEUE_KEY (redis bulk_submitted) !! 2%N = Some 0
    /\ RedisQueue.stat "enqueued" (redis bulk_submitted) = 2.
Proof.
  destruct (create_bulk_jobs_stores_and_enqueues_all default_settings
              [sample_request EMAIL 10 2 false; sample_request AI_TASK 0 3 false]
              "alice" [(1%N, 0%Q); (2%N, 5%Q)] empty_state eq_refl)
    as (_ & Hjobs & _ & Hstat).
  { compute_done. }
  { intros d _. apply lookup_empty. }
  destruct (Hjobs 1%nat (sample_request AI_TASK 0 3 false) (2%N, 5%Q)
              eq_refl eq_refl)
    as (job & _ & Hrow & _ & Hst & Hatt & _ & _ & _ & _ & _ & Hq).
  exists job. split_and!; [exact Hrow|exact Hst|exact Hatt|exact (Hq eq_refl)|].
  exact Hstat.
Defined.

(** X19 on the sample job, claimed by worker [w1] at time 100 and still
    running. *)
Lemma reachable_rows_are_consistent_witness :
  exists j,
    db (snd (_claim_job "w1" ∅ 100%Q 7%N (submitted EMAIL 5 2 false))) !! 7%N
    = Some j
    /\ Job.id j = 7%N
    /\ Job.status j = RUNNING
    /\ is_Some (Job.started_at j)
    /\ is_Some (Job.worker_id j).
Proof.
  destruct (db (snd (_claim_job "w1" ∅ 100%Q 7%N (submitted EMAIL 5 2 false)))
              !! 7%N) as [j|] eqn:Hrow; [|by vm_compute in Hrow].
  exists j.
  destruct (reachable_rows_are_consistent default_settings sample_handlers
              sample_format
              (snd (_claim_job "w1" ∅ 100%Q 7%N (submitted EMAIL 5 2 false)))
              7%N j
              (reachable_claim _ _ _ _ "w1" ∅ 100%Q 7%N
                 (reachable_submit _ _ _ _
                    (sample_request EMAIL 5 2 false) "alice" 7%N 0%Q
                    (reachable_init _ _ _ empty_redis)))
              Hrow) as (Hid & _ & Hrun & _ & _).
  assert (Job.status j = RUNNING) as Hst.
  { vm_compute in Hrow. by injection Hrow as <-. }
  destruct (Hrun Hst) as [Hstarted Hworker].
  by split_and!.
Defined.

(** X20 on the sample job after one failed attempt out of three. *)
Lemma reachable_attempt_bounds_witness :
  exists j,
    db (sample_run EMAIL 5 3 true 1) !! 7%N = Some j
    /\ 0 <= Job.attempt j <= Z.max (Job.max_retries j) 1
    /\ (Job.status j = RETRYING -> 1 <= Job.attempt j < Job.max_retries j).
Proof.
  destruct (db (sample_run EMAIL 5 3 true 1) !! 7%N) as [j|] eqn:Hrow;
    [|by vm_compute in Hrow].
  exists j.
  destruct (reachable_attempt_bounds default_settings sample_handlers
              sample_format (sample_run EMAIL 5 3 true 1) 7%N j
              (reachable_execute _ _ _ _ "w1" ∅ (sample_clocks 1) 7%N
                 (reachable_submit _ _ _ _
                    (sample_request EMAIL 5 3 true) "alice" 7%N 0%Q
                    (reachable_init _ _ _ empty_redis)))
              Hrow) as (Hatt & Hretry & _).
  split_and!; [done|exact (proj1 Hatt)|exact (proj2 Hatt)|exact Hretry].
Defined.

(** X21 on the sample job with a handler that succeeds. *)
Lemma execute_returns_whether_completed_witness :
  exists job',
    db (snd (execute default_settings sample_handlers sample_format "w1" ∅
               (sample_clocks 1) 7%N (submitted EMAIL 5 2 false))) !! 7%N
    = Some job'
    /\ Job.status job' = COMPLETED
    /\ is_Some (Job.result job').
Proof.
  pose proof (execute_returns_whether_completed default_settings
                sample_handlers sample_format "w1" ∅ (sample_clocks 1) 7%N
                (submitted EMAIL 5 2 false) (submitted_wf EMAIL 5 2 false)) as H.
  cbv zeta in H. destruct H as [_ H].
  assert (fst (execute default_settings sample_handlers sample_format "w1" ∅
                 (sample_clocks 1) 7%N (submitted EMAIL 5 2 false)) = true)
    as Hok by reflexivity.
  rewrite Hok in H. exact H.
Defined.

(** X24 on a fresh pool of the default size after its first spawn. *)
Lemma pool_is_bounded_witness :
  exists self,
    WorkerManager.spawn 1 (WorkerManager.__init__ default_settings) = Some self
    /\ WorkerManager.semaphore self
       + Z.of_nat (size (WorkerManager._active_tasks self)) = 10
    /\ is_Some (WorkerManager.spawn 2 self).
Proof.
  assert (0 <= MAX_WORKERS default_settings) as Hpos by (cbn; lia).
  destruct (WorkerManager.spawn 1 (WorkerManager.__init__ default_settings))
    as [self|] eqn:Hspawn; [|by vm_compute in Hspawn].
  exists self.
  destruct (pool_is_bounded default_settings self
              (WorkerManager.reachable_spawn _ _ _ 1%nat
                 (WorkerManager.reachable_init _ Hpos)
                 (not_elem_of_empty _) Hspawn)) as (Hsum & _ & Hle & Hsp).
  split_and!; [done|exact Hsum|].
  apply Hsp. injection Hspawn as <-. compute_done.
Defined.

(** X22 on the two jobs of the bulk submission: the first page of size 1
    holds one of two jobs, the third page is empty. *)
Lemma list_jobs_page_witness :
  JobListResponse.total (list_jobs None None 1 1 bulk_submitted) = 2
  /\ Z.of_nat (length (JobListResponse.jobs
                         (list_jobs None None 1 1 bulk_submitted))) = 1
  /\ JobListResponse.jobs (list_jobs None None 3 1 bulk_submitted) = [].
Proof.
  destruct (list_jobs_page None None 1 1 bulk_submitted) as (Ht & Hl & _);
    [lia..|].
  destruct (list_jobs_page None None 3 1 bulk_submitted)
    as (Ht3 & _ & _ & _ & He); [lia..|].
  assert (Z.of_nat (length (filter (list_filter None None) (rows bulk_submitted)))
          = 2) as Hn by reflexivity.
  rewrite Hn in Ht, Ht3. split_and!; [exact Ht| |].
  - rewrite Hl, Ht. lia.
  - apply He. rewrite Ht3. lia.
Defined.

(** X23 on the same two jobs, read in two pages of one. *)
Lemma list_jobs_pages_cover_witness :
  concat ((fun p => JobListResponse.jobs
                      (list_jobs None None (Z.of_nat p) 1 bulk_submitted))
          <$> seq 1 2)
  ≡ₚ filter (list_filter None None) (rows bulk_submitted).
Proof.
  apply list_jobs_pages_cover; [lia|].
  assert (Z.of_nat (length (filter (list_filter None None) (rows bulk_submitted)))
          = 2) as -> by reflexivity.
  lia.
Defined.
